(** * PacManAI: a shallow embedding of the decision core

    The embedded source is the [PacmanAI] module (ghost model, expectimax,
    anti-oscillation tracker, A-star, minimax, static evaluator) together
    with the controllers that call it and the part of the game loop that
    watches the ghosts for the ghost model.

    Conventions of the embedding.
    - Pixel positions are integer coordinates ([Z]); the engine moves its
      actors by whole pixels.  [Math.round (p / 10)] on an integer [p] is
      [(p + 5) / 10] with floor division (ties go up, as in JavaScript).
    - JavaScript numbers that hold scores and probabilities are read as
      exact rationals ([Q]); [Infinity] and [-Infinity] are explicit
      constructors of an extended type.  Where a property depends on the
      last bits of a number, the function is written a second time, in
      [InDoubles], with every sum, product and quotient rounded to the
      nearest double ([Double.binary64]).
    - A thrown [TypeError] (a property read on [undefined]) is [None].
    - [Math.random()] is an argument of the controllers that call it.
    - The direction constants [UP], [DOWN], [LEFT], [RIGHT], [NONE] and the
      map object come from the base engine; directions are an enumeration
      and the map is a record of the two queries the core uses. *)

From Stdlib Require Import ZArith QArith Qabs Qround Qpower Qreduction List String Lia Lqa Bool.
From Stdlib Require PrimFloat FloatOps SpecFloat Uint63.
From stdpp Require Import base option gmap strings list.
Import ListNotations.

#[local] Open Scope Z_scope.

(** ** Grid and movement model *)

Inductive direction : Type := UP | DOWN | LEFT | RIGHT | NONE.

#[global] Instance direction_eq_dec : EqDecision direction.
Proof. solve_decision. Defined.

Definition direction_eqb (a b : direction) : bool := bool_decide (a = b).

(** A pixel position [{x, y}] and a grid cell [{x, y}] are both pairs of
    integers; the two names keep the units apart. *)
Record pos : Type := Pos { px : Z; py : Z }.
Record cell : Type := Cell { cx : Z; cy : Z }.

#[global] Instance pos_eq_dec : EqDecision pos.
Proof. solve_decision. Defined.

#[global] Instance cell_eq_dec : EqDecision cell.
Proof. solve_decision. Defined.

#[global] Instance cell_countable : Countable cell.
Proof.
  refine (inj_countable' (fun c => (cx c, cy c)) (fun p => Cell p.1 p.2) _).
  intros [x y]; reflexivity.
Defined.

(** [Math.round (p / 10)] for an integer pixel coordinate. *)
Definition round10 (p : Z) : Z := (p + 5) / 10.

(** [toGrid]. *)
Definition toGrid (p : pos) : cell := Cell (round10 (px p)) (round10 (py p)).

(** The tiles of the base engine's map data that the core tests for. *)
Inductive tile : Type := WALL | BISCUIT | EMPTY | BLOCK | PILL.

#[global] Instance tile_eq_dec : EqDecision tile.
Proof. solve_decision. Defined.

(** The map collaborator: [map.isFloorSpace(cell)] and [map.getMap()]
    (rows of tiles, indexed [mapData[y][x]]). *)
Record gameMap : Type := GameMap {
  isFloorSpace : cell -> bool;
  getMap : list (list tile)
}.

Definition directions : list direction := [UP; DOWN; LEFT; RIGHT].

(** The [deltas] tables; [unit] is 1 for grid steps and 10 for pixel steps.
    [deltas[NONE]] is [undefined] in the source. *)
Definition delta (unit : Z) (d : direction) : option (Z * Z) :=
  match d with
  | UP => Some (0, - unit)
  | DOWN => Some (0, unit)
  | LEFT => Some (- unit, 0)
  | RIGHT => Some (unit, 0)
  | NONE => None
  end.

Definition opposites (d : direction) : option direction :=
  match d with
  | UP => Some DOWN
  | DOWN => Some UP
  | LEFT => Some RIGHT
  | RIGHT => Some LEFT
  | NONE => None
  end.

(** [getValidMoves]: the four neighbours of the rounded position, kept in
    the order Up, Down, Left, Right. *)
Definition getValidMoves (map : gameMap) (p : pos) : list direction :=
  let gridX := round10 (px p) in
  let gridY := round10 (py p) in
  List.filter
    (fun dir =>
       match delta 1 dir with
       | Some (ddx, ddy) => isFloorSpace map (Cell (gridX + ddx) (gridY + ddy))
       | None => false
       end)
    directions.

(** [manhattanDistance]. *)
Definition manhattanDistance (a b : cell) : Z :=
  Z.abs (cx a - cx b) + Z.abs (cy a - cy b).

Definition TUNNEL_ROW : Z := 10.
Definition MAP_WIDTH : Z := 19.

(** [tunnelAwareDistance]. *)
Definition tunnelAwareDistance (pos1 pos2 : cell) : Z :=
  let directDist := Z.abs (cx pos1 - cx pos2) + Z.abs (cy pos1 - cy pos2) in
  let pos1ToTunnelLeft := Z.abs (cx pos1 - 0) + Z.abs (cy pos1 - TUNNEL_ROW) in
  let pos1ToTunnelRight :=
    Z.abs (cx pos1 - (MAP_WIDTH - 1)) + Z.abs (cy pos1 - TUNNEL_ROW) in
  let pos2ToTunnelLeft := Z.abs (cx pos2 - 0) + Z.abs (cy pos2 - TUNNEL_ROW) in
  let pos2ToTunnelRight :=
    Z.abs (cx pos2 - (MAP_WIDTH - 1)) + Z.abs (cy pos2 - TUNNEL_ROW) in
  let tunnelDist :=
    Z.min (pos1ToTunnelLeft + 1 + pos2ToTunnelRight)
          (pos1ToTunnelRight + 1 + pos2ToTunnelLeft) in
  Z.min directDist tunnelDist.

(** ** Numbers *)

(** Strict comparison on rationals, as a boolean. *)
Definition Qltb (a b : Q) : bool := negb (Qle_bool b a).

(** A JavaScript number: a finite value, an infinity, or [NaN]. *)
Inductive num : Type := NegInf | Fin (q : Q) | PosInf | NaN.

(** [a < b]. *)
Definition num_ltb (a b : num) : bool :=
  match a, b with
  | NaN, _ | _, NaN => false
  | NegInf, NegInf => false
  | NegInf, _ => true
  | Fin _, NegInf => false
  | Fin x, Fin y => Qltb x y
  | Fin _, PosInf => true
  | PosInf, _ => false
  end.

(** [a <= b]. *)
Definition num_leb (a b : num) : bool :=
  match a, b with
  | NaN, _ | _, NaN => false
  | NegInf, _ => true
  | Fin _, NegInf => false
  | Fin x, Fin y => Qle_bool x y
  | Fin _, PosInf => true
  | PosInf, PosInf => true
  | PosInf, _ => false
  end.

(** [Math.max(a, b)] and [Math.min(a, b)]. *)
Definition num_max (a b : num) : num :=
  match a, b with
  | NaN, _ | _, NaN => NaN
  | _, _ => if num_ltb a b then b else a
  end.

Definition num_min (a b : num) : num :=
  match a, b with
  | NaN, _ | _, NaN => NaN
  | _, _ => if num_ltb b a then b else a
  end.

(** [a + b]. *)
Definition num_add (a b : num) : num :=
  match a, b with
  | NaN, _ | _, NaN => NaN
  | Fin x, Fin y => Fin (x + y)
  | PosInf, NegInf | NegInf, PosInf => NaN
  | PosInf, _ | _, PosInf => PosInf
  | NegInf, _ | _, NegInf => NegInf
  end.

(** [a - b]. *)
Definition num_neg (a : num) : num :=
  match a with
  | NegInf => PosInf
  | Fin x => Fin (- x)
  | PosInf => NegInf
  | NaN => NaN
  end.

Definition num_sub (a b : num) : num := num_add a (num_neg b).

(** [a * b]. *)
Definition num_mul (a b : num) : num :=
  match a, b with
  | NaN, _ | _, NaN => NaN
  | Fin x, Fin y => Fin (x * y)
  | Fin x, PosInf | PosInf, Fin x =>
      if Qltb 0 x then PosInf else if Qltb x 0 then NegInf else NaN
  | Fin x, NegInf | NegInf, Fin x =>
      if Qltb 0 x then NegInf else if Qltb x 0 then PosInf else NaN
  | PosInf, PosInf | NegInf, NegInf => PosInf
  | PosInf, NegInf | NegInf, PosInf => NegInf
  end.

(** [Math.min.apply(Math, l)]: [Infinity] on the empty list. *)
Definition num_min_list (l : list Z) : num :=
  fold_left (fun m d => num_min m (Fin (inject_Z d))) l PosInf.

(** ** Doubles *)

(** JavaScript numbers are IEEE-754 doubles: an arithmetic operation
    returns the double nearest to the exact result, and of two that are
    equally near the one with the even mantissa.  [binary64 x] is that
    double for an exact result [x], written as the rational it is: the
    nearest number with a mantissa of 53 bits.  The exponent is not
    bounded here, so [binary64 x] is the result of the program wherever
    that lies in the normal range of doubles (from 2^-1022 to 2^1024 in
    size), as every number below does. *)
Module Double.

Definition pow2 (e : Z) : Q := (2 ^ e)%Q.

(** For a positive [x], the [s] with [2^52 <= x * 2^s < 2^53]: two
    candidates follow from the sizes of numerator and denominator. *)
Definition scaleOf (x : Q) : Z :=
  let s0 := 52 - Z.log2 (Qnum x) + Z.log2 (Zpos (Qden x)) in
  if Qle_bool (pow2 52) (x * pow2 s0) then s0 else s0 + 1.

(** The integer nearest to [y]; half way between two, the even one. *)
Definition roundHalfEven (y : Q) : Z :=
  let n := Qfloor y in
  match (y - inject_Z n ?= 1 # 2)%Q with
  | Lt => n
  | Gt => n + 1
  | Eq => if Z.even n then n else n + 1
  end.

(** The double nearest to a positive [x]: its mantissa is [x * 2^s]
    rounded to an integer. *)
Definition nearest (x : Q) : Q :=
  let s := scaleOf x in
  (inject_Z (roundHalfEven (x * pow2 s)) * pow2 (- s))%Q.

Definition binary64 (x : Q) : Q :=
  let x := Qred x in
  match Qnum x with
  | Z0 => 0%Q
  | Zpos _ => nearest x
  | Zneg _ => (- nearest (- x))%Q
  end.

(** [x / y], [x + y] and [x * y] on doubles [x] and [y]. *)
Definition div (x y : Q) : Q := binary64 (x / y).
Definition add (x y : Q) : Q := binary64 (x + y).
Definition mul (x y : Q) : Q := binary64 (x * y).

(** A number that a double can hold: a mantissa below 2^53 times a power
    of two. *)
Definition representable (f : Q) : Prop :=
  exists m k : Z, Z.abs m < 2 ^ 53 /\ (f == inject_Z m * pow2 k)%Q.

(** The doubles of the processor, to compare with: the double holding a
    whole number below 2^53, and the value of a finite double. *)
Definition ofZ (z : Z) : PrimFloat.float := PrimFloat.of_uint63 (Uint63.of_Z z).

Definition valueOf (f : PrimFloat.float) : option Q :=
  match FloatOps.Prim2SF f with
  | SpecFloat.S754_zero _ => Some 0%Q
  | SpecFloat.S754_finite sign m e =>
      Some ((if sign then -1 else 1) * inject_Z (Zpos m) * pow2 e)%Q
  | _ => None
  end.

End Double.

(** ** Ghost model (Bayesian learning) *)

Module GhostModel.

(** The four counters of one situation; [recordGhostMove] creates them
    together, all zero. *)
Record bucket : Type := Bucket { nUP : N; nDOWN : N; nLEFT : N; nRIGHT : N }.

Definition zeroBucket : bucket := Bucket 0 0 0 0.

(** [obs[d] || 0]. *)
Definition count (obs : bucket) (d : direction) : N :=
  match d with
  | UP => nUP obs
  | DOWN => nDOWN obs
  | LEFT => nLEFT obs
  | RIGHT => nRIGHT obs
  | NONE => 0%N
  end.

(** [obs[move]++] for a non-[NONE] move. *)
Definition incr (obs : bucket) (d : direction) : bucket :=
  match d with
  | UP => Bucket (nUP obs + 1) (nDOWN obs) (nLEFT obs) (nRIGHT obs)
  | DOWN => Bucket (nUP obs) (nDOWN obs + 1) (nLEFT obs) (nRIGHT obs)
  | LEFT => Bucket (nUP obs) (nDOWN obs) (nLEFT obs + 1) (nRIGHT obs)
  | RIGHT => Bucket (nUP obs) (nDOWN obs) (nLEFT obs) (nRIGHT obs + 1)
  | NONE => obs
  end.

(** The module-level variables of the learner:
    [ghostObservations[ghostIdx][situation]], [totalObservations] and
    [stats.ghostModelConfidence]. *)
Record model : Type := Model {
  ghostObservations : gmap nat (gmap string bucket);
  totalObservations : N;
  ghostModelConfidence : N
}.

(** The state at load time when nothing was saved: indices 0 to 3 each
    hold an empty table. *)
Definition freshObservations : gmap nat (gmap string bucket) :=
  <[3%nat := ∅]> (<[2%nat := ∅]> (<[1%nat := ∅]> (<[0%nat := ∅]> ∅))).

Definition initialModel : model := Model freshObservations 0 0.

(** State and failure: a computation reads and writes the learner's
    variables and may throw. *)
Definition M (A : Type) : Type := model -> option (A * model).

Definition ret {A} (a : A) : M A := fun st => Some (a, st).

Definition bind {A B} (c : M A) (k : A -> M B) : M B :=
  fun st => match c st with
            | Some (a, st') => k a st'
            | None => None
            end.

Definition get : M model := fun st => Some (st, st).
Definition put (st : model) : M unit := fun _ => Some (tt, st).

(** A read that throws on [undefined]. *)
Definition defined {A} (o : option A) : M A :=
  fun st => match o with Some a => Some (a, st) | None => None end.

#[global] Instance M_ret : MRet M := @ret.
#[global] Instance M_bind : MBind M := fun A B k c => bind c k.

Definition SMOOTHING : N := 1.

(** [getSituation]. *)
Definition getSituation (ghostPos pacmanPos : pos) : string :=
  let gx := round10 (px ghostPos) in
  let gy := round10 (py ghostPos) in
  let px' := round10 (px pacmanPos) in
  let py' := round10 (py pacmanPos) in
  let dx := px' - gx in
  let dy := py' - gy in
  let horizontal := if 2 <? dx then "R" else if dx <? -2 then "L" else "H" in
  let vertical := if 2 <? dy then "D" else if dy <? -2 then "U" else "V" in
  let dist := Z.abs dx + Z.abs dy in
  let distCat := if dist <? 5 then "near" else if dist <? 10 then "mid" else "far" in
  (horizontal +:+ vertical +:+ "_" +:+ distCat)%string.

(** [Math.min(100, Math.round(totalObservations / 2))]. *)
Definition confidence (total : N) : N := N.min 100 ((total + 1) / 2).

(** [recordGhostMove].  The write to [localStorage] every tenth
    observation leaves the learner's variables as they are and is not
    part of the state. *)
Definition recordGhostMove (ghostIdx : nat) (ghostPos pacmanPos : pos)
    (move : direction) : M unit :=
  if direction_eqb move NONE then ret tt
  else
    let situation := getSituation ghostPos pacmanPos in
    st ← get;
    tbl ← defined (ghostObservations st !! ghostIdx);
    let tbl1 :=
      match tbl !! situation with
      | None => <[situation := zeroBucket]> tbl
      | Some _ => tbl
      end in
    obs ← defined (tbl1 !! situation);
    let tbl2 := <[situation := incr obs move]> tbl1 in
    let total := (totalObservations st + 1)%N in
    put (Model (<[ghostIdx := tbl2]> (ghostObservations st)) total (confidence total)).

(** The object returned by a probability query: one entry per direction of
    [directions], in that order. *)
Definition probs : Type := list (direction * Q).

(** [probs[dir]]. *)
Fixpoint probOf (p : probs) (dir : direction) : option Q :=
  match p with
  | [] => None
  | (d, q) :: rest => if direction_eqb d dir then Some q else probOf rest dir
  end.

(** [getGhostMoveProbabilities]. *)
Definition getGhostMoveProbabilities (ghostIdx : nat) (ghostPos pacmanPos : pos)
    : M probs :=
  let situation := getSituation ghostPos pacmanPos in
  st ← get;
  tbl ← defined (ghostObservations st !! ghostIdx);
  match tbl !! situation with
  | None => ret (List.map (fun d => (d, 0.25%Q)) directions)
  | Some obs =>
      let total :=
        fold_left (fun t d => (t + count obs d)%N) directions (SMOOTHING * 4)%N in
      ret (List.map
             (fun d =>
                let count := (count obs d + SMOOTHING)%N in
                (d, (inject_Z (Z.of_N count) / inject_Z (Z.of_N total))%Q))
             directions)
  end.

End GhostModel.

(** ** Anti-oscillation tracker *)

Definition HISTORY_LENGTH : nat := 16.

(** [moveHistory] and [positionVisitCount].  A position key is the string
    [x + ',' + y] of two integers, which determines the pair; the cell
    stands for its key. *)
Record tracker : Type := Tracker {
  moveHistory : list cell;
  positionVisitCount : gmap cell N
}.

Definition emptyTracker : tracker := Tracker [] ∅.

(** The amount added for a match at index [i] of a history of length
    [len]: [50 * (1 + (moveHistory.length - i) / moveHistory.length)]. *)
Definition historyTerm (len i : nat) : Q :=
  50 * (1 + inject_Z (Z.of_nat len - Z.of_nat i) / inject_Z (Z.of_nat len)).

(** The loop over [moveHistory], from index [i] on. *)
Fixpoint historyLoop (len i : nat) (hist : list cell) (posKey : cell)
    (penalty : Q) : Q :=
  match hist with
  | [] => penalty
  | h :: rest =>
      let penalty' :=
        if bool_decide (h = posKey) then (penalty + historyTerm len i)%Q
        else penalty in
      historyLoop len (S i) rest posKey penalty'
  end.

(** [getOscillationPenalty].  [lastMove] is [None] when the caller passes
    [undefined]; a [move] without an entry in [deltas] throws. *)
Definition getOscillationPenalty (tr : tracker) (p : pos) (move : direction)
    (lastMove : option direction) : option Q :=
  let penalty0 :=
    match lastMove with
    | Some last =>
        if negb (direction_eqb last NONE)
           && bool_decide (Some move = opposites last)
        then 50%Q else 0%Q
    | None => 0%Q
    end in
  match delta 1 move with
  | None => None
  | Some (ddx, ddy) =>
      let posKey := Cell (round10 (px p) + ddx) (round10 (py p) + ddy) in
      let hist := moveHistory tr in
      let penalty1 := historyLoop (length hist) 0 hist posKey penalty0 in
      let visitCount := default 0%N (positionVisitCount tr !! posKey) in
      Some
        (if (2 <? visitCount)%N
         then (penalty1 + inject_Z (Z.of_N ((visitCount - 2) ^ 2)) * 30)%Q
         else penalty1)
  end.

(** [recordPosition]. *)
Definition recordPosition (tr : tracker) (p : pos) : tracker :=
  let posKey := toGrid p in
  let pushed := moveHistory tr ++ [posKey] in
  let hist :=
    if (HISTORY_LENGTH <? length pushed)%nat then List.tl pushed else pushed in
  Tracker hist
    (<[posKey := (default 0%N (positionVisitCount tr !! posKey) + 1)%N]>
       (positionVisitCount tr)).

(** ** Static evaluator *)

Record ghostState : Type := GhostState { isEdible : bool; isDangerous : bool }.

(** [mapData[y] && mapData[y][x]]: [None] when either index is out of
    range. *)
Definition tileAt (mapData : list (list tile)) (x y : Z) : option tile :=
  if (y <? 0) || (x <? 0) then None
  else
    match nth_error mapData (Z.to_nat y) with
    | Some row => nth_error row (Z.to_nat x)
    | None => None
    end.

(** One row of the scan in the [findNearest...] functions: [best] holds
    [nearest] with its [minDist], and [None] while [minDist] is
    [Infinity]. *)
Fixpoint scanRow (wanted : tile -> bool) (from : cell) (y x : Z)
    (row : list tile) (best : option (cell * Z)) : option (cell * Z) :=
  match row with
  | [] => best
  | t :: rest =>
      let best' :=
        if wanted t then
          let dist := manhattanDistance from (Cell x y) in
          match best with
          | Some (_, minDist) =>
              if dist <? minDist then Some (Cell x y, dist) else best
          | None => Some (Cell x y, dist)
          end
        else best in
      scanRow wanted from y (x + 1) rest best'
  end.

Fixpoint scanRows (wanted : tile -> bool) (from : cell) (y : Z)
    (rows : list (list tile)) (best : option (cell * Z)) : option (cell * Z) :=
  match rows with
  | [] => best
  | row :: rest =>
      scanRows wanted from (y + 1) rest (scanRow wanted from y 0 row best)
  end.

(** [findNearestPellet]: plain and power pellets alike. *)
Definition findNearestPellet (map : gameMap) (from : cell) : option cell :=
  fst <$> scanRows
            (fun t => bool_decide (t = BISCUIT) || bool_decide (t = PILL))
            from 0 (getMap map) None.

(** The first loop of [evaluateState]: opponents are split on [isEdible]
    alone.  Reading [ghostStates[i]] past the end throws. *)
Fixpoint splitGhosts (i : nat) (ghostPositions : list pos)
    (ghostStates : list ghostState) (dangerousGhosts edibleGhosts : list pos)
    : option (list pos * list pos) :=
  match ghostPositions with
  | [] => Some (dangerousGhosts, edibleGhosts)
  | g :: rest =>
      match ghostStates !! i with
      | None => None
      | Some s =>
          if isEdible s
          then splitGhosts (S i) rest ghostStates dangerousGhosts (edibleGhosts ++ [g])
          else splitGhosts (S i) rest ghostStates (dangerousGhosts ++ [g]) edibleGhosts
      end
  end.

(** The term one dangerous ghost at distance [dist] takes from the score. *)
Definition dangerTerm (dist : Z) : Q :=
  if dist <? 2 then 2000
  else if dist <? 4 then 500 / inject_Z dist
  else if dist <? 8 then 50 / inject_Z dist
  else 0.

(** The term one edible ghost at distance [dist] adds to the score. *)
Definition edibleTerm (dist : Z) : Q :=
  if dist =? 0 then 1000
  else if dist <? 5 then 400 / inject_Z dist
  else if dist <? 10 then 100 / inject_Z dist
  else 0.

(** [evaluateState]. *)
Definition evaluateState (map : gameMap) (pacmanPos : pos)
    (ghostPositions : list pos) (ghostStates : list ghostState) : option Q :=
  let pacmanGrid := toGrid pacmanPos in
  let mapData := getMap map in
  '(dangerousGhosts, edibleGhosts) ←
    splitGhosts 0 ghostPositions ghostStates [] [];
  let dangerDists :=
    List.map (fun g => manhattanDistance pacmanGrid (toGrid g)) dangerousGhosts in
  let score1 := fold_left (fun sc dist => (sc - dangerTerm dist)%Q) dangerDists 0%Q in
  let score2 :=
    fold_left
      (fun sc g => (sc + edibleTerm (manhattanDistance pacmanGrid (toGrid g)))%Q)
      edibleGhosts score1 in
  let here := tileAt mapData (cx pacmanGrid) (cy pacmanGrid) in
  let score3 :=
    if bool_decide (here = Some BISCUIT) then (score2 + 50)%Q else score2 in
  let score4 :=
    if bool_decide (here = Some PILL) then
      let powerPelletValue :=
        if (0 <? length dangerousGhosts)%nat
           && (length edibleGhosts =? 0)%nat
           && num_ltb (num_min_list dangerDists) (Fin 10)
        then 500%Q else 150%Q in
      (score3 + powerPelletValue)%Q
    else score3 in
  let score5 :=
    if (length edibleGhosts =? 0)%nat
       && ((length dangerousGhosts =? 0)%nat
           || num_ltb (Fin 8) (num_min_list dangerDists))
    then
      match findNearestPellet map pacmanGrid with
      | Some nearestPellet =>
          (score4 + inject_Z (30 - manhattanDistance pacmanGrid nearestPellet))%Q
      | None => score4
      end
    else score4 in
  Some score5.

(** ** A-star pathfinding *)

Module AStar.

(** A stored score read back, or [Infinity]. *)
Inductive score : Type := Finite (z : Z) | Infinite.

(** [table[key] || Infinity]: a missing entry and a stored [0] both read
    as [Infinity]. *)
Definition orInfinity (o : option Z) : score :=
  match o with
  | None => Infinite
  | Some z => if z =? 0 then Infinite else Finite z
  end.

Definition score_ltb (a b : score) : bool :=
  match a, b with
  | Finite x, Finite y => x <? y
  | Finite _, Infinite => true
  | Infinite, _ => false
  end.

Definition score_succ (a : score) : score :=
  match a with
  | Finite x => Finite (x + 1)
  | Infinite => Infinite
  end.

(** The variables of one search.  The tables are keyed by [key(pos)], the
    string [x + ',' + y], for which the cell stands. *)
Record search : Type := Search {
  openSet : list cell;
  cameFrom : gmap cell cell;
  gScore : gmap cell Z;
  fScore : gmap cell Z;
  nodesEvaluated : Z
}.

(** [openSet.reduce(...)]: the node with the lowest [fScore]; on a tie the
    later one wins. *)
Definition lowest (fS : gmap cell Z) (open : list cell) : option cell :=
  match open with
  | [] => None
  | a0 :: rest =>
      Some (fold_left
              (fun a b =>
                 if score_ltb (orInfinity (fS !! a)) (orInfinity (fS !! b))
                 then a else b)
              rest a0)
  end.

(** [while (cameFrom[key(current)]) { ...; path.unshift(current) }].  A chain
    that is still running after as many steps as [cameFrom] has keys has
    met a key twice and never ends: [None]. *)
Fixpoint reconstruct (fuel : nat) (cf : gmap cell cell) (current : cell)
    (path : list cell) : option (list cell) :=
  match cf !! current with
  | None => Some path
  | Some prev =>
      match fuel with
      | O => None
      | S fuel' => reconstruct fuel' cf prev (prev :: path)
      end
  end.

(** The direction of the first edge when neither branch of the tunnel test
    applies: the sign of [dx], then of [dy]. *)
Definition deltaDirection (dx dy : Z) : direction :=
  if 0 <? dx then RIGHT
  else if dx <? 0 then LEFT
  else if 0 <? dy then DOWN
  else if dy <? 0 then UP
  else NONE.

(** The direction computed from [startGrid] and [next = path[1]]. *)
Definition firstDirection (startGrid next : cell) : direction :=
  let dx := cx next - cx startGrid in
  let dy := cy next - cy startGrid in
  if (cy startGrid =? TUNNEL_ROW) && (cy next =? TUNNEL_ROW) then
    if (cx startGrid =? 0) && (cx next =? MAP_WIDTH - 1) then LEFT
    else if (cx startGrid =? MAP_WIDTH - 1) && (cx next =? 0) then RIGHT
    else if 0 <? dx then RIGHT
    else if dx <? 0 then LEFT
    else NONE
  else deltaDirection dx dy.

(** What [astar] returns once the goal is taken from the open set. *)
Definition pathResult (startGrid : cell) (path : list cell) (nodes : Z)
    : direction * Z :=
  match path with
  | _ :: next :: _ => (firstDirection startGrid next, nodes)
  | _ => (NONE, nodes)
  end.

(** The neighbours of [current], with the tunnel connection pushed last. *)
Definition neighborsOf (current : cell) : list cell :=
  [ Cell (cx current + 1) (cy current);
    Cell (cx current - 1) (cy current);
    Cell (cx current) (cy current + 1);
    Cell (cx current) (cy current - 1) ]
  ++ (if cy current =? TUNNEL_ROW then
        if cx current =? 0 then [Cell (MAP_WIDTH - 1) TUNNEL_ROW]
        else if cx current =? MAP_WIDTH - 1 then [Cell 0 TUNNEL_ROW]
        else []
      else []).

(** The body of the loop over [neighbors] for one neighbour.  Both
    [continue] tests skip a neighbour that is not floor, tunnel wrap or
    not. *)
Definition relax (map : gameMap) (goalGrid current : cell) (s : search)
    (neighbor : cell) : search :=
  if negb (isFloorSpace map neighbor) then s
  else
    let tentativeG := score_succ (orInfinity (gScore s !! current)) in
    match tentativeG with
    | Finite g =>
        if score_ltb tentativeG (orInfinity (gScore s !! neighbor)) then
          let inOpen := existsb (fun n => bool_decide (n = neighbor)) (openSet s) in
          Search (if inOpen then openSet s else openSet s ++ [neighbor])
                 (<[neighbor := current]> (cameFrom s))
                 (<[neighbor := g]> (gScore s))
                 (<[neighbor := g + tunnelAwareDistance neighbor goalGrid]> (fScore s))
                 (nodesEvaluated s)
        else s
    | Infinite => s
    end.

(** One pass through the body of the [while] loop, up to the safety
    test: either the search returns, or it goes on with new variables.
    [None] is a path reconstruction that never ends. *)
Definition expand (map : gameMap) (startGrid goalGrid : cell) (s : search)
    : option (direction * Z + search) :=
  let nodes := nodesEvaluated s + 1 in
  match lowest (fScore s) (openSet s) with
  | None => Some (inl (NONE, nodesEvaluated s))
  | Some current =>
      if bool_decide (current = goalGrid) then
        path ← reconstruct (size (cameFrom s)) (cameFrom s) current [current];
        Some (inl (pathResult startGrid path nodes))
      else
        let open' :=
          List.filter (fun n => negb (bool_decide (n = current))) (openSet s) in
        let s1 := Search open' (cameFrom s) (gScore s) (fScore s) nodes in
        Some (inr (fold_left (relax map goalGrid current) (neighborsOf current) s1))
  end.

(** The [while] loop.  [fuel] bounds the passes; 501 passes always suffice
    from the start of a search, since each pass counts one node and the
    loop breaks once the count is above 500. *)
Fixpoint searchLoop (fuel : nat) (map : gameMap) (startGrid goalGrid : cell)
    (s : search) : option (direction * Z) :=
  match openSet s with
  | [] => Some (NONE, nodesEvaluated s)
  | _ :: _ =>
      match fuel with
      | O => None
      | S fuel' =>
          match expand map startGrid goalGrid s with
          | None => None
          | Some (inl r) => Some r
          | Some (inr s') =>
              if 500 <? nodesEvaluated s' then Some (NONE, nodesEvaluated s')
              else searchLoop fuel' map startGrid goalGrid s'
          end
      end
  end.

(** The variables at the start of a search. *)
Definition initialSearch (startGrid goalGrid : cell) : search :=
  Search [startGrid] ∅
         (<[startGrid := 0]> ∅)
         (<[startGrid := tunnelAwareDistance startGrid goalGrid]> ∅)
         0.

(** [astar]: the first direction and [nodesEvaluated]. *)
Definition astar (map : gameMap) (start goal : pos) : option (direction * Z) :=
  let startGrid := toGrid start in
  let goalGrid := toGrid goal in
  searchLoop 501 map startGrid goalGrid (initialSearch startGrid goalGrid).

End AStar.

(** ** Minimax with alpha-beta pruning *)

(** The callback of [ghostPositions.map] in the ghosts' turn of [minimax]:
    where one ghost goes. *)
Definition chaseStep (map : gameMap) (pacmanPos gPos : pos) (s : ghostState) : pos :=
  let gGrid := toGrid gPos in
  let pGrid := toGrid pacmanPos in
  let dx := cx pGrid - cx gGrid in
  let dy := cy pGrid - cy gGrid in
  let multiplier := if isEdible s then -1 else 1 in
  let moveX :=
    if negb (dx =? 0) then (if 0 <? dx then 10 * multiplier else -10 * multiplier)
    else 0 in
  let moveY :=
    if negb (dy =? 0) then (if 0 <? dy then 10 * multiplier else -10 * multiplier)
    else 0 in
  let testX := Pos (px gPos + moveX) (py gPos) in
  let testY := Pos (px gPos) (py gPos + moveY) in
  if (Z.abs dy <? Z.abs dx) && isFloorSpace map (toGrid testX) then testX
  else if isFloorSpace map (toGrid testY) then testY
  else gPos.

(** [ghostPositions.map(...)] of the ghosts' turn; [ghostStates[idx]] past
    the end throws. *)
Fixpoint chaseAll (map : gameMap) (pacmanPos : pos) (idx : nat)
    (ghostPositions : list pos) (ghostStates : list ghostState)
    : option (list pos) :=
  match ghostPositions with
  | [] => Some []
  | gPos :: rest =>
      s ← ghostStates !! idx;
      rest' ← chaseAll map pacmanPos (S idx) rest ghostStates;
      Some (chaseStep map pacmanPos gPos s :: rest')
  end.

(** The loop over [validMoves] in the maximizing turn of [minimax], with
    its [break].  [child newPos alpha] is the recursive call; the second
    component counts the nodes it visited. *)
Fixpoint maximize (child : pos -> num -> option (num * nat)) (pacmanPos : pos)
    (beta : num) (moves : list direction) (maxEval alpha : num) (nodes : nat)
    : option (num * nat) :=
  match moves with
  | [] => Some (maxEval, nodes)
  | move :: rest =>
      '(ddx, ddy) ← delta 10 move;
      let newPos := Pos (px pacmanPos + ddx) (py pacmanPos + ddy) in
      '(evalScore, n) ← child newPos alpha;
      let maxEval' := num_max maxEval evalScore in
      let alpha' := num_max alpha evalScore in
      if num_leb beta alpha' then Some (maxEval', (nodes + n)%nat)
      else maximize child pacmanPos beta rest maxEval' alpha' (nodes + n)%nat
  end.

(** [minimax].  [nodesRef.count] is only ever incremented; the number of
    increments made by a call is returned next to its value. *)
Fixpoint minimax (map : gameMap) (pacmanPos : pos) (ghostPositions : list pos)
    (ghostStates : list ghostState) (depth : nat) (isMaximizing : bool)
    (alpha beta : num) {struct depth} : option (num * nat) :=
  match depth with
  | O =>
      v ← evaluateState map pacmanPos ghostPositions ghostStates;
      Some (Fin v, 1%nat)
  | S depth' =>
      match getValidMoves map pacmanPos with
      | [] =>
          v ← evaluateState map pacmanPos ghostPositions ghostStates;
          Some (Fin v, 1%nat)
      | validMoves =>
          if isMaximizing then
            maximize
              (fun newPos a =>
                 minimax map newPos ghostPositions ghostStates depth' false a beta)
              pacmanPos beta validMoves NegInf alpha 1%nat
          else
            newGhostPositions ← chaseAll map pacmanPos 0 ghostPositions ghostStates;
            '(evalScore, n) ←
              minimax map pacmanPos newGhostPositions ghostStates depth' true alpha beta;
            Some (num_min PosInf evalScore, S n)
      end
  end.

(** Minimax without pruning, after the description of the search: the
    maximizing turn takes the maximum over every legal move, the ghosts'
    turn has its one deterministic branch, and no bounds are carried. *)
Fixpoint maximizeAll (child : pos -> option (num * nat)) (pacmanPos : pos)
    (moves : list direction) (maxEval : num) (nodes : nat) : option (num * nat) :=
  match moves with
  | [] => Some (maxEval, nodes)
  | move :: rest =>
      '(ddx, ddy) ← delta 10 move;
      let newPos := Pos (px pacmanPos + ddx) (py pacmanPos + ddy) in
      '(evalScore, n) ← child newPos;
      maximizeAll child pacmanPos rest (num_max maxEval evalScore) (nodes + n)%nat
  end.

Fixpoint minimaxNoPruning (map : gameMap) (pacmanPos : pos)
    (ghostPositions : list pos) (ghostStates : list ghostState) (depth : nat)
    (isMaximizing : bool) {struct depth} : option (num * nat) :=
  match depth with
  | O =>
      v ← evaluateState map pacmanPos ghostPositions ghostStates;
      Some (Fin v, 1%nat)
  | S depth' =>
      match getValidMoves map pacmanPos with
      | [] =>
          v ← evaluateState map pacmanPos ghostPositions ghostStates;
          Some (Fin v, 1%nat)
      | validMoves =>
          if isMaximizing then
            maximizeAll
              (fun newPos =>
                 minimaxNoPruning map newPos ghostPositions ghostStates depth' false)
              pacmanPos validMoves NegInf 1%nat
          else
            newGhostPositions ← chaseAll map pacmanPos 0 ghostPositions ghostStates;
            '(evalScore, n) ←
              minimaxNoPruning map pacmanPos newGhostPositions ghostStates depth' true;
            Some (num_min PosInf evalScore, S n)
      end
  end.

(** ** Controllers *)

Module PacmanControllers.

(** What a tree-search controller leaves behind: the move it returns, its
    local [bestScore], the node count it reports to [recordDecision], and
    the tracker after [recordPosition]. *)
Record decision : Type := Decision {
  bestMove : direction;
  bestScore : num;
  nodesCount : nat;
  trackerAfter : tracker
}.

(** The loop over [validMoves] at the root: the search value of each move
    minus its oscillation penalty, first strict maximum kept. *)
Fixpoint rootLoop (search : pos -> option (num * nat)) (tr : tracker)
    (pacmanPos : pos) (lastMove : option direction) (moves : list direction)
    (best : direction) (bestSc : num) (nodes : nat)
    : option (direction * num * nat) :=
  match moves with
  | [] => Some (best, bestSc, nodes)
  | move :: rest =>
      '(ddx, ddy) ← delta 10 move;
      let newPos := Pos (px pacmanPos + ddx) (py pacmanPos + ddy) in
      '(score, n) ← search newPos;
      penalty ← getOscillationPenalty tr pacmanPos move lastMove;
      let score' := num_sub score (Fin penalty) in
      if num_ltb bestSc score'
      then rootLoop search tr pacmanPos lastMove rest move score' (nodes + n)%nat
      else rootLoop search tr pacmanPos lastMove rest best bestSc (nodes + n)%nat
  end.

(** The body shared by the tree-search controllers, for a given search of
    one root move. *)
Definition decide (search : pos -> option (num * nat)) (tr : tracker)
    (map : gameMap) (pacmanPos : pos) (lastMove : option direction)
    : option decision :=
  match getValidMoves map pacmanPos with
  | [] => Some (Decision NONE NegInf 0 tr)
  | (first :: _) as validMoves =>
      '(best, bestSc, nodes) ←
        rootLoop search tr pacmanPos lastMove validMoves first NegInf 0%nat;
      Some (Decision best bestSc nodes (recordPosition tr pacmanPos))
  end.

(** [depth = depth || 4]. *)
Definition orFour (depth : nat) : nat :=
  match depth with O => 4%nat | _ => depth end.

(** [PacmanControllers.minimax]. *)
Definition minimax (tr : tracker) (map : gameMap) (pacmanPos : pos)
    (ghostPositions : list pos) (ghostStates : list ghostState) (depth : nat)
    (lastMove : option direction) : option decision :=
  let depth := orFour depth in
  decide
    (fun newPos =>
       minimax map newPos ghostPositions ghostStates (depth - 1) false NegInf PosInf)
    tr map pacmanPos lastMove.

(** The same controller over the search without pruning. *)
Definition minimaxNoPruning (tr : tracker) (map : gameMap) (pacmanPos : pos)
    (ghostPositions : list pos) (ghostStates : list ghostState) (depth : nat)
    (lastMove : option direction) : option decision :=
  let depth := orFour depth in
  decide
    (fun newPos =>
       minimaxNoPruning map newPos ghostPositions ghostStates (depth - 1) false)
    tr map pacmanPos lastMove.

End PacmanControllers.

(** ** Expectimax over the learned ghost model *)

Import GhostModel.

(** [probs[dir]] used as a number: a missing entry behaves as [NaN]. *)
Definition probNum (p : probs) (dir : direction) : num :=
  match probOf p dir with
  | Some q => Fin q
  | None => NaN
  end.

(** The loop that picks the most probable direction of another ghost:
    first strict maximum, starting from [bestProb = 0], [bestDir = UP]. *)
Fixpoint mostLikely (otherProbs : probs) (dirs : list direction)
    (bestProb : num) (bestDir : direction) : direction :=
  match dirs with
  | [] => bestDir
  | d :: rest =>
      if num_ltb bestProb (probNum otherProbs d)
      then mostLikely otherProbs rest (probNum otherProbs d) d
      else mostLikely otherProbs rest bestProb bestDir
  end.

(** The callback of [ghostPositions.map] in the ghosts' turn of
    [expectimax]: ghost 0 takes [dir], every other ghost its most likely
    direction; a step onto a non-floor cell is not taken. *)
Definition predictStep (map : gameMap) (pacmanPos : pos) (dir : direction)
    (idx : nat) (gPos : pos) : M pos :=
  gDelta0 ← defined (delta 10 dir);
  gDelta ←
    (if (0 <? idx)%nat then
       otherProbs ← getGhostMoveProbabilities idx gPos pacmanPos;
       defined (delta 10 (mostLikely otherProbs directions (Fin 0) UP))
     else ret gDelta0);
  let testPos := Pos (px gPos + gDelta.1) (py gPos + gDelta.2) in
  ret (if isFloorSpace map (toGrid testPos) then testPos else gPos).

Fixpoint predictAll (map : gameMap) (pacmanPos : pos) (dir : direction)
    (idx : nat) (ghostPositions : list pos) : M (list pos) :=
  match ghostPositions with
  | [] => ret []
  | gPos :: rest =>
      p ← predictStep map pacmanPos dir idx gPos;
      rest' ← predictAll map pacmanPos dir (S idx) rest;
      ret (p :: rest')
  end.

(** The loop over [validMoves] in the maximizing turn of [expectimax]. *)
Fixpoint maximizeM (child : pos -> M (num * nat)) (pacmanPos : pos)
    (moves : list direction) (maxEval : num) (nodes : nat) : M (num * nat) :=
  match moves with
  | [] => ret (maxEval, nodes)
  | move :: rest =>
      d ← defined (delta 10 move);
      let newPos := Pos (px pacmanPos + d.1) (py pacmanPos + d.2) in
      r ← child newPos;
      maximizeM child pacmanPos rest (num_max maxEval r.1) (nodes + r.2)%nat
  end.

(** The loop over [directions] in the ghosts' turn of [expectimax]. *)
Fixpoint expectLoop (child : list pos -> M (num * nat)) (map : gameMap)
    (pacmanPos : pos) (ghostPositions : list pos) (p : probs)
    (dirs : list direction) (expectedValue : num) (nodes : nat)
    : M (num * nat) :=
  match dirs with
  | [] => ret (expectedValue, nodes)
  | dir :: rest =>
      let prob := probNum p dir in
      if num_ltb prob (Fin 0.01) then
        expectLoop child map pacmanPos ghostPositions p rest expectedValue nodes
      else
        newGhostPositions ← predictAll map pacmanPos dir 0 ghostPositions;
        r ← child newGhostPositions;
        expectLoop child map pacmanPos ghostPositions p rest
          (num_add expectedValue (num_mul prob r.1)) (nodes + r.2)%nat
  end.

(** [expectimax].  The node counter is returned as in [minimax]. *)
Fixpoint expectimax (map : gameMap) (pacmanPos : pos) (ghostPositions : list pos)
    (ghostStates : list ghostState) (depth : nat) (isMaximizing : bool)
    {struct depth} : M (num * nat) :=
  match depth with
  | O =>
      v ← defined (evaluateState map pacmanPos ghostPositions ghostStates);
      ret (Fin v, 1%nat)
  | S depth' =>
      match getValidMoves map pacmanPos with
      | [] =>
          v ← defined (evaluateState map pacmanPos ghostPositions ghostStates);
          ret (Fin v, 1%nat)
      | validMoves =>
          if isMaximizing then
            maximizeM
              (fun newPos =>
                 expectimax map newPos ghostPositions ghostStates depth' false)
              pacmanPos validMoves NegInf 1%nat
          else
            blinky ← defined (ghostPositions !! 0%nat);
            p ← getGhostMoveProbabilities 0 blinky pacmanPos;
            expectLoop
              (fun newGhostPositions =>
                 expectimax map pacmanPos newGhostPositions ghostStates depth' true)
              map pacmanPos ghostPositions p directions (Fin 0) 1%nat
      end
  end.

(** ** The ghost model in doubles *)

Module InDoubles.

(** A count of the table as the number the program holds. *)
Definition ofN (n : N) : Q := inject_Z (Z.of_N n).

(** [getGhostMoveProbabilities] with the numbers the program holds:
    [total += obs[d] || 0] and [(obs[d] || 0) + SMOOTHING] are additions
    of doubles, [count / total] is a division of doubles, and [0.25] is a
    double.  The additions are exact as long as the sum stays below 2^53.
    [GhostModel.getGhostMoveProbabilities] is the same function with no
    rounding anywhere. *)
Definition getGhostMoveProbabilities (ghostIdx : nat) (ghostPos pacmanPos : pos)
    : M probs :=
  let situation := getSituation ghostPos pacmanPos in
  st ← get;
  tbl ← defined (ghostObservations st !! ghostIdx);
  match tbl !! situation with
  | None => ret (List.map (fun d => (d, 0.25%Q)) directions)
  | Some obs =>
      let total :=
        fold_left (fun t d => Double.add t (ofN (count obs d))) directions
                  (ofN (SMOOTHING * 4)) in
      ret (List.map
             (fun d =>
                let count := Double.add (ofN (count obs d)) (ofN SMOOTHING) in
                (d, Double.div count total))
             directions)
  end.

(** [50 * (1 + (moveHistory.length - i) / moveHistory.length)], with the
    quotient, the sum and the product each rounded. *)
Definition historyTerm (len i : nat) : Q :=
  Double.mul 50
    (Double.add 1
       (Double.div (inject_Z (Z.of_nat len - Z.of_nat i)) (inject_Z (Z.of_nat len)))).

(** The loop over [moveHistory], from index [i] on; [penalty += ...] is an
    addition of doubles. *)
Fixpoint historyLoop (len i : nat) (hist : list cell) (posKey : cell)
    (penalty : Q) : Q :=
  match hist with
  | [] => penalty
  | h :: rest =>
      let penalty' :=
        if bool_decide (h = posKey) then Double.add penalty (historyTerm len i)
        else penalty in
      historyLoop len (S i) rest posKey penalty'
  end.

(** [getOscillationPenalty] with the numbers the program holds: every
    [penalty += ...] is an addition of doubles, and [Math.pow(n, 2) * 30]
    is the double nearest to the square, times 30, rounded. *)
Definition getOscillationPenalty (tr : tracker) (p : pos) (move : direction)
    (lastMove : option direction) : option Q :=
  let penalty0 :=
    match lastMove with
    | Some last =>
        if negb (direction_eqb last NONE)
           && bool_decide (Some move = opposites last)
        then Double.add 0 50 else 0%Q
    | None => 0%Q
    end in
  match delta 1 move with
  | None => None
  | Some (ddx, ddy) =>
      let posKey := Cell (round10 (px p) + ddx) (round10 (py p) + ddy) in
      let hist := moveHistory tr in
      let penalty1 := historyLoop (length hist) 0 hist posKey penalty0 in
      let visitCount := default 0%N (positionVisitCount tr !! posKey) in
      Some
        (if (2 <? visitCount)%N
         then Double.add penalty1
                (Double.mul (Double.binary64 (ofN ((visitCount - 2) ^ 2))) 30)
         else penalty1)
  end.

End InDoubles.

(** ** The other pellet searches *)

(** [findNearestRegularPellet]: plain pellets only. *)
Definition findNearestRegularPellet (map : gameMap) (from : cell) : option cell :=
  fst <$> scanRows (fun t => bool_decide (t = BISCUIT)) from 0 (getMap map) None.

(** [findNearestPowerPellet]: power pellets only. *)
Definition findNearestPowerPellet (map : gameMap) (from : cell) : option cell :=
  fst <$> scanRows (fun t => bool_decide (t = PILL)) from 0 (getMap map) None.

(** ** The other controllers of the agent *)

(** The selection loop that the controllers share,
    [if (score > bestScore) { bestScore = score; bestMove = move; }]
    over the moves in order; [score] may throw. *)
Fixpoint chooseBest (score : direction -> option num) (moves : list direction)
    (best : direction) (bestSc : num) : option (direction * num) :=
  match moves with
  | [] => Some (best, bestSc)
  | move :: rest =>
      sc ← score move;
      if num_ltb bestSc sc then chooseBest score rest move sc
      else chooseBest score rest best bestSc
  end.

(** The same loop with [score < bestScore]. *)
Fixpoint chooseLeast (score : direction -> option num) (moves : list direction)
    (best : direction) (bestSc : num) : option (direction * num) :=
  match moves with
  | [] => Some (best, bestSc)
  | move :: rest =>
      sc ← score move;
      if num_ltb sc bestSc then chooseLeast score rest move sc
      else chooseLeast score rest best bestSc
  end.

(** The cell one grid step from [c] in direction [move]; [deltas[NONE]]
    is [undefined]. *)
Definition stepCell (c : cell) (move : direction) : option cell :=
  '(ddx, ddy) ← delta 1 move;
  Some (Cell (cx c + ddx) (cy c + ddy)).

Module PacmanControllers'.

(** What a controller leaves behind: the move it returns, the node count
    it hands to [recordDecision] (if it calls it), and the tracker, which
    [recordPosition] may have changed. *)
Record answer : Type := Answer {
  chosen : direction;
  reported : option Z;
  tracked : tracker
}.

(** [PacmanControllers.greedy]. *)
Definition greedy (tr : tracker) (map : gameMap) (pacmanPos : pos)
    (lastMove : option direction) : option answer :=
  let pacmanGrid := toGrid pacmanPos in
  match getValidMoves map pacmanPos with
  | [] => Some (Answer NONE None tr)
  | (first :: _) as validMoves =>
      let nodes := Some (Z.of_nat (length validMoves)) in
      match findNearestPellet map pacmanGrid with
      | None => Some (Answer first nodes (recordPosition tr pacmanPos))
      | Some nearest =>
          '(best, _) ←
            chooseBest
              (fun move =>
                 newPos ← stepCell pacmanGrid move;
                 penalty ← getOscillationPenalty tr pacmanPos move lastMove;
                 Some (num_sub (Fin (inject_Z (- manhattanDistance newPos nearest)))
                               (Fin penalty)))
              validMoves first NegInf;
          Some (Answer best nodes (recordPosition tr pacmanPos))
      end
  end.

(** The first loop of [PacmanControllers.astar]: the cells of the edible
    ghosts and of the dangerous ones, and the distance of the closest
    dangerous one ([None] for [Infinity]). *)
Fixpoint sortGhosts (pacmanGrid : cell) (g : nat) (ghostPositions : list pos)
    (ghostStates : list ghostState) (edible dangerous : list cell)
    (closest : option Z) : option (list cell * list cell * option Z) :=
  match ghostPositions with
  | [] => Some (edible, dangerous, closest)
  | gPos :: rest =>
      s ← ghostStates !! g;
      let ghostGrid := toGrid gPos in
      if isEdible s then
        sortGhosts pacmanGrid (S g) rest ghostStates (edible ++ [ghostGrid])
          dangerous closest
      else if isDangerous s then
        let dist := manhattanDistance pacmanGrid ghostGrid in
        let closest' :=
          match closest with
          | Some m => if dist <? m then Some dist else closest
          | None => Some dist
          end in
        sortGhosts pacmanGrid (S g) rest ghostStates edible
          (dangerous ++ [ghostGrid]) closest'
      else sortGhosts pacmanGrid (S g) rest ghostStates edible dangerous closest
  end.

(** The loop that picks the nearest edible ghost. *)
Fixpoint nearestGhost (pacmanGrid : cell) (edible : list cell)
    (best : option (cell * Z)) : option (cell * Z) :=
  match edible with
  | [] => best
  | e :: rest =>
      let dist := manhattanDistance pacmanGrid e in
      let best' :=
        match best with
        | Some (_, minDist) => if dist <? minDist then Some (e, dist) else best
        | None => Some (e, dist)
        end in
      nearestGhost pacmanGrid rest best'
  end.

(** The goal of the controller and whether it hunts a ghost. *)
Definition chooseGoal (map : gameMap) (pacmanGrid : cell)
    (edible : list cell) (closest : option Z) : option cell * bool :=
  match edible with
  | _ :: _ => (fst <$> nearestGhost pacmanGrid edible None, true)
  | [] =>
      if match closest with Some m => m <? 8 | None => false end then
        match findNearestPowerPellet map pacmanGrid with
        | Some powerPellet => (Some powerPellet, false)
        | None => (findNearestRegularPellet map pacmanGrid, false)
        end
      else
        match findNearestRegularPellet map pacmanGrid with
        | Some pellet => (Some pellet, false)
        | None => (findNearestPowerPellet map pacmanGrid, false)
        end
  end.

(** [dangerCost]. *)
Definition dangerCost (huntingGhost : bool) (dangerous : list cell) (c : cell) : Z :=
  if huntingGhost then 0
  else
    fold_left
      (fun cost ghostGrid =>
         let dist := manhattanDistance c ghostGrid in
         if dist <? 2 then cost + 50
         else if dist <? 4 then cost + 20
         else if dist <? 6 then cost + 5
         else cost)
      dangerous 0.

(** The body of the loop over the four neighbours in the search inside
    the controller: the step costs [1 + dangerCost(neighbor)] and the
    heuristic is the Manhattan distance. *)
Definition relax (map : gameMap) (cost : cell -> Z) (goalGrid current : cell)
    (s : AStar.search) (neighbor : cell) : AStar.search :=
  if negb (isFloorSpace map neighbor) then s
  else
    let moveCost := 1 + cost neighbor in
    match AStar.orInfinity (AStar.gScore s !! current) with
    | AStar.Finite g0 =>
        let tentativeG := g0 + moveCost in
        if AStar.score_ltb (AStar.Finite tentativeG)
             (AStar.orInfinity (AStar.gScore s !! neighbor)) then
          let inOpen :=
            existsb (fun n => bool_decide (n = neighbor)) (AStar.openSet s) in
          AStar.Search
            (if inOpen then AStar.openSet s else AStar.openSet s ++ [neighbor])
            (<[neighbor := current]> (AStar.cameFrom s))
            (<[neighbor := tentativeG]> (AStar.gScore s))
            (<[neighbor := tentativeG + manhattanDistance neighbor goalGrid]>
               (AStar.fScore s))
            (AStar.nodesEvaluated s)
        else s
    | AStar.Infinite => s
    end.

(** One pass of that search: [inl (Some d)] returns [d], [inl None] is the
    [break] on a path of one cell, [inr] goes on. *)
Definition expand (map : gameMap) (cost : cell -> Z) (pacmanGrid goalGrid : cell)
    (s : AStar.search) : option (option direction * Z + AStar.search) :=
  let nodes := AStar.nodesEvaluated s + 1 in
  match AStar.lowest (AStar.fScore s) (AStar.openSet s) with
  | None => Some (inl (None, AStar.nodesEvaluated s))
  | Some current =>
      if bool_decide (current = goalGrid) then
        path ← AStar.reconstruct (size (AStar.cameFrom s)) (AStar.cameFrom s)
                 current [current];
        match path with
        | _ :: next :: _ =>
            Some (inl (Some (AStar.deltaDirection (cx next - cx pacmanGrid)
                               (cy next - cy pacmanGrid)), nodes))
        | _ => Some (inl (None, nodes))
        end
      else
        let open' :=
          List.filter (fun n => negb (bool_decide (n = current))) (AStar.openSet s) in
        let s1 := AStar.Search open' (AStar.cameFrom s) (AStar.gScore s)
                    (AStar.fScore s) nodes in
        let neighbors :=
          [ Cell (cx current + 1) (cy current);
            Cell (cx current - 1) (cy current);
            Cell (cx current) (cy current + 1);
            Cell (cx current) (cy current - 1) ] in
        Some (inr (fold_left (relax map cost goalGrid current) neighbors s1))
  end.

(** The [while] loop of that search: the direction it returns, if any,
    and the nodes it counted. *)
Fixpoint searchLoop (fuel : nat) (map : gameMap) (cost : cell -> Z)
    (pacmanGrid goalGrid : cell) (s : AStar.search) : option (option direction * Z) :=
  match AStar.openSet s with
  | [] => Some (None, AStar.nodesEvaluated s)
  | _ :: _ =>
      match fuel with
      | O => None
      | S fuel' =>
          match expand map cost pacmanGrid goalGrid s with
          | None => None
          | Some (inl r) => Some r
          | Some (inr s') =>
              if 500 <? AStar.nodesEvaluated s' then Some (None, AStar.nodesEvaluated s')
              else searchLoop fuel' map cost pacmanGrid goalGrid s'
          end
      end
  end.

(** [PacmanControllers.astar]. *)
Definition astar (tr : tracker) (map : gameMap) (pacmanPos : pos)
    (ghostPositions : list pos) (ghostStates : list ghostState)
    (lastMove : option direction) : option answer :=
  let pacmanGrid := toGrid pacmanPos in
  '(edible, dangerous, closest) ←
    sortGhosts pacmanGrid 0 ghostPositions ghostStates [] [] None;
  match chooseGoal map pacmanGrid edible closest with
  | (None, _) =>
      Some (Answer (List.hd NONE (getValidMoves map pacmanPos)) None tr)
  | (Some goalGrid, huntingGhost) =>
      let cost := dangerCost huntingGhost dangerous in
      let start :=
        AStar.Search [pacmanGrid] ∅ (<[pacmanGrid := 0]> ∅)
          (<[pacmanGrid := manhattanDistance pacmanGrid goalGrid]> ∅) 0 in
      '(found, nodes) ← searchLoop 501 map cost pacmanGrid goalGrid start;
      match found with
      | Some direction => Some (Answer direction (Some nodes) tr)
      | None =>
          match getValidMoves map pacmanPos with
          | [] => Some (Answer NONE None tr)
          | (first :: _) as validMoves =>
              '(best, _) ←
                chooseBest
                  (fun move =>
                     newPos ← stepCell pacmanGrid move;
                     penalty ← getOscillationPenalty tr pacmanPos move lastMove;
                     Some (num_sub
                             (Fin (inject_Z (- manhattanDistance newPos goalGrid
                                             - cost newPos)))
                             (Fin penalty)))
                  validMoves first NegInf;
              Some (Answer best (Some nodes) (recordPosition tr pacmanPos))
          end
      end
  end.

(** The loop over [validMoves] of [PacmanControllers.adaptive]: the one of
    [PacmanControllers.minimax], with a search that reads the ghost
    model. *)
Fixpoint rootLoopM (search : pos -> M (num * nat)) (tr : tracker)
    (pacmanPos : pos) (lastMove : option direction) (moves : list direction)
    (best : direction) (bestSc : num) (nodes : nat)
    : M (direction * num * nat) :=
  match moves with
  | [] => ret (best, bestSc, nodes)
  | move :: rest =>
      d ← defined (delta 10 move);
      let newPos := Pos (px pacmanPos + d.1) (py pacmanPos + d.2) in
      r ← search newPos;
      penalty ← defined (getOscillationPenalty tr pacmanPos move lastMove);
      let score' := num_sub r.1 (Fin penalty) in
      if num_ltb bestSc score'
      then rootLoopM search tr pacmanPos lastMove rest move score' (nodes + r.2)%nat
      else rootLoopM search tr pacmanPos lastMove rest best bestSc (nodes + r.2)%nat
  end.

(** [PacmanControllers.adaptive]. *)
Definition adaptive (tr : tracker) (map : gameMap) (pacmanPos : pos)
    (ghostPositions : list pos) (ghostStates : list ghostState) (depth : nat)
    (lastMove : option direction) : M PacmanControllers.decision :=
  let depth := PacmanControllers.orFour depth in
  match getValidMoves map pacmanPos with
  | [] => ret (PacmanControllers.Decision NONE NegInf 0 tr)
  | (first :: _) as validMoves =>
      r ← rootLoopM
            (fun newPos =>
               expectimax map newPos ghostPositions ghostStates (depth - 1) false)
            tr pacmanPos lastMove validMoves first NegInf 0%nat;
      ret (PacmanControllers.Decision r.1.1 r.1.2 r.2 (recordPosition tr pacmanPos))
  end.

(** The loop of [PacmanControllers.random]; [draw i] is what the call of
    [Math.random()] in pass [i] returns. *)
Fixpoint randomLoop (draw : nat -> Q) (tr : tracker) (pacmanPos : pos)
    (lastMove : option direction) (i : nat) (moves : list direction)
    (best : direction) (bestSc : num) : option direction :=
  match moves with
  | [] => Some best
  | move :: rest =>
      penalty ← getOscillationPenalty tr pacmanPos move lastMove;
      let score := num_sub (Fin (draw i * 10)) (Fin penalty) in
      if num_ltb bestSc score
      then randomLoop draw tr pacmanPos lastMove (S i) rest move score
      else randomLoop draw tr pacmanPos lastMove (S i) rest best bestSc
  end.

(** [PacmanControllers.random]. *)
Definition random (draw : nat -> Q) (tr : tracker) (map : gameMap)
    (pacmanPos : pos) (lastMove : option direction) : option answer :=
  match getValidMoves map pacmanPos with
  | [] => Some (Answer NONE None tr)
  | (first :: _) as moves =>
      best ← randomLoop draw tr pacmanPos lastMove 0 moves first NegInf;
      Some (Answer best None (recordPosition tr pacmanPos))
  end.

End PacmanControllers'.

(** ** The ghosts of 1980 *)

Module ClassicGhostAI.

(** The three preferred moves of [moveToward], in order. *)
Definition preferredMoves (dx dy : Z) : list direction :=
  if Z.abs dy <? Z.abs dx then
    if 0 <? dx then [RIGHT; if 0 <? dy then DOWN else UP; LEFT]
    else [LEFT; if 0 <? dy then DOWN else UP; RIGHT]
  else
    if 0 <? dy then [DOWN; if 0 <? dx then RIGHT else LEFT; UP]
    else [UP; if 0 <? dx then RIGHT else LEFT; DOWN].

(** [validMoves.indexOf(m) !== -1]. *)
Definition isValid (validMoves : list direction) (m : direction) : bool :=
  existsb (fun v => direction_eqb v m) validMoves.

(** [moveToward]. *)
Definition moveToward (map : gameMap) (ghostPos targetPos : pos) : direction :=
  let ghostGrid := toGrid ghostPos in
  let targetGrid := toGrid targetPos in
  match getValidMoves map ghostPos with
  | [] => NONE
  | (first :: _) as validMoves =>
      let dx := cx targetGrid - cx ghostGrid in
      let dy := cy targetGrid - cy ghostGrid in
      match List.find (isValid validMoves) (preferredMoves dx dy) with
      | Some m => m
      | None => first
      end
  end.

Definition blinky (map : gameMap) (ghostPos pacmanPos : pos) : direction :=
  moveToward map ghostPos pacmanPos.

(** [pinky]: the target lies four cells ahead of the agent;
    [deltas[pacmanDir] || {x: 0, y: 0}]. *)
Definition pinky (map : gameMap) (ghostPos pacmanPos : pos)
    (pacmanDir : direction) : direction :=
  let d := default (0, 0) (delta 40 pacmanDir) in
  moveToward map ghostPos (Pos (px pacmanPos + d.1) (py pacmanPos + d.2)).

(** [inky]: the target is Blinky mirrored at the agent. *)
Definition inky (map : gameMap) (ghostPos pacmanPos blinkyPos : pos) : direction :=
  moveToward map ghostPos
    (Pos (px pacmanPos + (px pacmanPos - px blinkyPos))
         (py pacmanPos + (py pacmanPos - py blinkyPos))).

(** [clyde]: chase from afar, else make for the corner. *)
Definition clyde (map : gameMap) (ghostPos pacmanPos : pos) : direction :=
  let dist := manhattanDistance (toGrid ghostPos) (toGrid pacmanPos) in
  if 8 <? dist then moveToward map ghostPos pacmanPos
  else moveToward map ghostPos (Pos 0 210).

End ClassicGhostAI.

(** ** Controllers of the ghosts *)

Module GhostControllers.

(** What the controllers read of a ghost object: [getPosition()] and
    [getIndex()]. *)
Record ghost : Type := Ghost { getPosition : pos; getIndex : nat }.

(** [GhostControllers.classic]. *)
Definition classic (map : gameMap) (g : ghost) (pacmanPos : pos)
    (pacmanDir : direction) (allGhosts : list ghost) : direction :=
  let ghostPos := getPosition g in
  match getIndex g with
  | 0%nat => ClassicGhostAI.blinky map ghostPos pacmanPos
  | 1%nat => ClassicGhostAI.pinky map ghostPos pacmanPos pacmanDir
  | 2%nat =>
      let blinkyPos :=
        match allGhosts !! 0%nat with
        | Some b => getPosition b
        | None => pacmanPos
        end in
      ClassicGhostAI.inky map ghostPos pacmanPos blinkyPos
  | 3%nat => ClassicGhostAI.clyde map ghostPos pacmanPos
  | _ => ClassicGhostAI.blinky map ghostPos pacmanPos
  end.

(** [GhostControllers.random]; [r] is what [Math.random()] returns, and
    the answer [None] is [undefined], an index outside the array. *)
Definition random (map : gameMap) (g : ghost) (r : Q) : option direction :=
  match getValidMoves map (getPosition g) with
  | [] => Some NONE
  | (_ :: _) as moves =>
      let k := Qfloor (r * inject_Z (Z.of_nat (length moves))) in
      if k <? 0 then None else moves !! Z.to_nat k
  end.

(** [GhostControllers.astar]. *)
Definition astar (map : gameMap) (g : ghost) (pacmanPos : pos) : option direction :=
  fst <$> AStar.astar map (getPosition g) pacmanPos.

(** [allGhostPositions.map(...)]: the position at [ghostIdx] replaced. *)
Definition withGhostAt (allGhostPositions : list pos) (ghostIdx : nat)
    (newGhostPos : pos) : list pos :=
  imap (fun idx p => if (idx =? ghostIdx)%nat then newGhostPos else p)
       allGhostPositions.

(** The loop over [validMoves] of the minimax controller of a dangerous
    ghost: [search newGhostPos] is the value of the position after the
    step and the nodes it took; first strict minimum kept. *)
Fixpoint rootLoop (search : pos -> option (num * nat)) (ghostPos : pos)
    (moves : list direction) (best : direction) (bestSc : num) (nodes : nat)
    : option (direction * nat) :=
  match moves with
  | [] => Some (best, nodes)
  | move :: rest =>
      '(ddx, ddy) ← delta 10 move;
      let newGhostPos := Pos (px ghostPos + ddx) (py ghostPos + ddy) in
      '(score, n) ← search newGhostPos;
      if num_ltb score bestSc then rootLoop search ghostPos rest move score (nodes + n)%nat
      else rootLoop search ghostPos rest best bestSc (nodes + n)%nat
  end.

(** [depth = depth || 3]. *)
Definition orThree (depth : nat) : nat :=
  match depth with O => 3%nat | _ => depth end.

(** [GhostControllers.minimax]: the move and the nodes handed to
    [recordDecision], if it is called. *)
Definition minimax (map : gameMap) (g : ghost) (pacmanPos : pos)
    (allGhostPositions : list pos) (ghostStates : list ghostState) (depth : nat)
    : option (direction * option nat) :=
  let depth := orThree depth in
  let ghostPos := getPosition g in
  let ghostIdx := getIndex g in
  s ← ghostStates !! ghostIdx;
  if isEdible s then
    match getValidMoves map ghostPos with
    | [] => Some (NONE, None)
    | (first :: _) as validMoves =>
        '(best, _) ←
          chooseBest
            (fun move =>
               newPos ← stepCell (toGrid ghostPos) move;
               Some (Fin (inject_Z (manhattanDistance newPos (toGrid pacmanPos)))))
            validMoves first NegInf;
        Some (best, None)
    end
  else
    match getValidMoves map ghostPos with
    | [] => Some (NONE, None)
    | (first :: _) as validMoves =>
        '(best, nodes) ←
          rootLoop
            (fun newGhostPos =>
               minimax map pacmanPos
                 (withGhostAt allGhostPositions ghostIdx newGhostPos)
                 ghostStates (depth - 1) true NegInf PosInf)
            ghostPos validMoves first PosInf 0%nat;
        Some (best, Some nodes)
    end.

End GhostControllers.

(** ** Persistence and reset of the ghost model *)

(** What [JSON.parse] gives back for a stored model when the item was
    written by [saveGhostModel]: an object with a table of counts for each
    ghost and a total, either of which may be missing.  An item of any
    other shape (a number or a string in the place of a table, say) is not
    a [snapshot], and nothing below speaks about it. *)
Record snapshot : Type := Snapshot {
  observations : option (gmap nat (gmap string bucket));
  total : option N
}.

(** [for (var i = 0; i < 4; i++) if (!ghostObservations[i]) ghostObservations[i] = {}]. *)
Definition ensureGhosts (obs : gmap nat (gmap string bucket))
    : gmap nat (gmap string bucket) :=
  fold_left
    (fun o i => match o !! i with Some _ => o | None => <[i := ∅]> o end)
    [0%nat; 1%nat; 2%nat; 3%nat] obs.

(** [for (var i = 0; i < 4; i++) ghostObservations[i] = {}]. *)
Definition clearGhosts (obs : gmap nat (gmap string bucket))
    : gmap nat (gmap string bucket) :=
  fold_left (fun o i => <[i := ∅]> o) [0%nat; 1%nat; 2%nat; 3%nat] obs.

(** [loadGhostModel].  [saved] is the stored item once parsed; it is
    [None] when there is no item or when reading or parsing it throws,
    which the function catches. *)
Definition loadGhostModel (saved : option snapshot) : M bool :=
  match saved with
  | Some data =>
      let tot := default 0%N (total data) in
      _ ← put (Model (ensureGhosts (default ∅ (observations data))) tot
                 (confidence tot));
      ret true
  | None => ret false
  end.

(** The state of the learner once the module has been evaluated: the
    variables start empty, the stored model is loaded, and without one the
    four tables are created. *)
Definition initialise (saved : option snapshot) : model :=
  match loadGhostModel saved (Model ∅ 0 0) with
  | Some (true, st) => st
  | Some (false, st) =>
      Model (clearGhosts (ghostObservations st)) (totalObservations st)
            (ghostModelConfidence st)
  | None => Model ∅ 0 0
  end.

(** [resetGhostModel]; the confidence shown in the statistics is not
    among the variables it assigns. *)
Definition resetGhostModel : M unit :=
  st ← get;
  put (Model (clearGhosts ∅) 0 (ghostModelConfidence st)).

(** What [saveGhostModel] hands to [JSON.stringify]. *)
Definition saveGhostModel (st : model) : snapshot :=
  Snapshot (Some (ghostObservations st)) (Some (totalObservations st)).

(** ** Statistics and resets *)

Module Stats.

(** The [stats] object, but for [ghostModelConfidence], which is kept with
    the learner's variables. *)
Record stats : Type := Build {
  decisionsPerSecond : Q;
  nodesEvaluated : N;
  avgDecisionTime : Q;
  decisionCount : N;
  totalTime : Q
}.

Definition zero : stats := Build 0 0 0 0 0.

(** Everything the module keeps between calls. *)
Record world : Type := World {
  learner : model;
  tracking : tracker;
  statistics : stats
}.

(** [recordDecision]. *)
Definition recordDecision (time : Q) (nodes : N) (s : stats) : stats :=
  let count := (decisionCount s + 1)%N in
  let tot := (totalTime s + time)%Q in
  Build (decisionsPerSecond s) (nodesEvaluated s + nodes) 
        (tot / inject_Z (Z.of_N count)) count tot.

(** [resetStats]. *)
Definition resetStats (w : world) : world :=
  World (Model (ghostObservations (learner w)) (totalObservations (learner w))
           (confidence (totalObservations (learner w))))
        emptyTracker zero.

(** [fullReset]: [resetStats] and then [resetGhostModel]. *)
Definition fullReset (w : world) : option world :=
  let w1 := resetStats w in
  '(_, st) ← resetGhostModel (learner w1);
  Some (World st (tracking w1) (statistics w1)).

End Stats.

(** ** The game loop *)

Module Game.

(** The move that [makeAIDecisions] reads off two positions of a ghost. *)
Definition observedMove (oldPos newPos : pos) : direction :=
  let dx := round10 (px newPos - px oldPos) in
  let dy := round10 (py newPos - py oldPos) in
  if 0 <? dx then RIGHT
  else if dx <? 0 then LEFT
  else if 0 <? dy then DOWN
  else if dy <? 0 then UP
  else NONE.

(** The loop over the ghosts that hands their moves to the learner;
    [lastGhostPositions[i]] past the end throws. *)
Fixpoint observeLoop (i : nat) (lastGhostPositions ghostPositions : list pos)
    (pacmanPos : pos) : M unit :=
  match ghostPositions with
  | [] => ret tt
  | newPos :: rest =>
      oldPos ← defined (lastGhostPositions !! i);
      let move := observedMove oldPos newPos in
      _ ← (if negb (direction_eqb move NONE)
           then recordGhostMove i oldPos pacmanPos move
           else ret tt);
      observeLoop (S i) lastGhostPositions rest pacmanPos
  end.

(** The part of [makeAIDecisions] that observes the ghosts; it returns the
    new [lastGhostPositions]. *)
Definition observeGhosts (lastGhostPositions ghostPositions : list pos)
    (pacmanPos : pos) : M (list pos) :=
  _ ← (if (length lastGhostPositions =? 4)%nat
       then observeLoop 0 lastGhostPositions ghostPositions pacmanPos
       else ret tt);
  ret ghostPositions.

End Game.

(** * Scenarios used below *)

(** A map on which every cell is floor and that holds no pellet. *)
Definition openMap : gameMap := GameMap (fun _ => true) [].

(** A map without any floor. *)
Definition wallMap : gameMap := GameMap (fun _ => false) [].


(** The tracker after the agent stood on cell (1, 0) and then on (-1, 0). *)
Definition twoVisits : tracker :=
  recordPosition (recordPosition emptyTracker (Pos 10 0)) (Pos (-10) 0).

(** A respawning ghost: neither edible nor dangerous. *)
Definition respawning : ghostState := GhostState false false.

(** The indices 0 to 3 have a table in every state the learner builds. *)
Definition knownGhosts (st : GhostModel.model) : Prop :=
  forall i : nat, (i < 4)%nat -> is_Some (GhostModel.ghostObservations st !! i).

(** The number of moves in direction [d] observed so far for ghost
    [ghostIdx] in the situation of the two positions; 0 without a bucket. *)
Definition observed (st : GhostModel.model) (ghostIdx : nat)
    (ghostPos pacmanPos : pos) (d : direction) : N :=
  match GhostModel.ghostObservations st !! ghostIdx with
  | Some tbl =>
      match tbl !! GhostModel.getSituation ghostPos pacmanPos with
      | Some obs => GhostModel.count obs d
      | None => 0%N
      end
  | None => 0%N
  end.

(** The number of moves observed so far for ghost [ghostIdx] in the
    situation of the two positions, whatever the direction. *)
Definition observedTotal (st : GhostModel.model) (ghostIdx : nat)
    (ghostPos pacmanPos : pos) : N :=
  (observed st ghostIdx ghostPos pacmanPos UP
   + observed st ghostIdx ghostPos pacmanPos DOWN
   + observed st ghostIdx ghostPos pacmanPos LEFT
   + observed st ghostIdx ghostPos pacmanPos RIGHT)%N.

(** The learner after ghost 0 was seen [n] times to go in direction [d],
    always from (0, 0) with the agent at (50, 0), starting from a fresh
    model. *)
Definition seenOften (d : direction) (n : N) : GhostModel.model :=
  N.iter n
    (fun st =>
       match GhostModel.recordGhostMove 0 (Pos 0 0) (Pos 50 0) d st with
       | Some (_, st') => st'
       | None => st
       end)
    GhostModel.initialModel.


(** The tracker after the agent stood on cell (0, 0) and then twice on
    cell (1, 0). *)
Definition twoMatches : tracker :=
  recordPosition (recordPosition (recordPosition emptyTracker (Pos 0 0)) (Pos 10 0))
                 (Pos 10 0).

(** A number that is neither an infinity nor [NaN]. *)
Definition finite (v : num) : Prop := exists q : Q, v = Fin q.

(** A lower bound that a maximum of finite values can hold: [-Infinity]
    or a finite number. *)
Definition lowerBound (a : num) : Prop := a = NegInf \/ finite a.

(** What the searches need of their inputs: at least one ghost, a state
    for every ghost, and a table in the model for every ghost index. *)
Definition wellFormed (st : GhostModel.model) (ghostPositions : list pos)
    (ghostStates : list ghostState) : Prop :=
  ghostPositions <> [] /\
  (length ghostPositions <= length ghostStates)%nat /\
  forall i : nat, (i < length ghostPositions)%nat ->
                  is_Some (GhostModel.ghostObservations st !! i).

(** A probability of at least 0.01. *)
Definition retained (q : Q) : bool := Qle_bool 0.01 q.

(** The sum of [p d * value d] over the directions [d] of [l]. *)
Fixpoint weightedSum (p value : direction -> Q) (l : list direction) : Q :=
  match l with
  | [] => 0
  | d :: rest => p d * value d + weightedSum p value rest
  end.

(** Four probabilities as a function of the direction. *)
Definition fourProbs (pU pD pL pR : Q) (d : direction) : Q :=
  match d with
  | UP => pU
  | DOWN => pD
  | LEFT => pL
  | RIGHT => pR
  | NONE => 0
  end.

(** The model after ghost 0 was seen 300 times to move Left with the agent
    three cells to its left, and never another way. *)
Definition trainedModel : GhostModel.model :=
  GhostModel.Model
    (<[0%nat := {[GhostModel.getSituation (Pos 30 0) (Pos 0 0)
                  := GhostModel.Bucket 0 0 300 0]}]>
       GhostModel.freshObservations)
    300 100.

(** The two candidate steps of one ghost in the ghosts' turn of minimax,
    written with signs: ten pixels along an axis, towards the agent unless
    the ghost is edible. *)
Definition stepX (pacmanPos gPos : pos) (s : ghostState) : pos :=
  let dx := cx (toGrid pacmanPos) - cx (toGrid gPos) in
  let towards := if isEdible s then -1 else 1 in
  Pos (px gPos + 10 * towards * Z.sgn dx) (py gPos).

Definition stepY (pacmanPos gPos : pos) (s : ghostState) : pos :=
  let dy := cy (toGrid pacmanPos) - cy (toGrid gPos) in
  let towards := if isEdible s then -1 else 1 in
  Pos (px gPos) (py gPos + 10 * towards * Z.sgn dy).




(** The value the search [child] returns after the ghosts took the steps
    predicted for direction [d] of ghost 0; 0 if there is none. *)
Definition childValue (child : list pos -> GhostModel.M (num * nat))
    (map : gameMap) (pacmanPos : pos) (ghostPositions : list pos)
    (st : GhostModel.model) (d : direction) : Q :=
  match predictAll map pacmanPos d 0 ghostPositions st with
  | Some (moved, _) =>
      match child moved st with
      | Some ((Fin q, _), _) => q
      | _ => 0
      end
  | None => 0
  end.

(** The states the learner can be in when the stored item, if there is
    one and it can be read, is an object of the shape that
    [saveGhostModel] writes: the state after the module was evaluated, and
    those reached from it by recording moves (for any index, answered or
    thrown) and by resets. *)
Inductive reachable : GhostModel.model -> Prop :=
  | reachable_initial (saved : option snapshot) : reachable (initialise saved)
  | reachable_record (st st' : GhostModel.model) (ghostIdx : nat)
      (ghostPos pacmanPos : pos) (move : direction) :
      reachable st ->
      GhostModel.recordGhostMove ghostIdx ghostPos pacmanPos move st = Some (tt, st') ->
      reachable st'
  | reachable_reset (st st' : GhostModel.model) :
      reachable st -> resetGhostModel st = Some (tt, st') -> reachable st'.

(** The cells of the map data with their tiles, in the order the scans
    visit them: row by row, each row from left to right. *)
Fixpoint cellsOfRow (y x : Z) (row : list tile) : list (cell * tile) :=
  match row with
  | [] => []
  | t :: rest => (Cell x y, t) :: cellsOfRow y (x + 1) rest
  end.

Fixpoint cellsOf (y : Z) (rows : list (list tile)) : list (cell * tile) :=
  match rows with
  | [] => []
  | row :: rest => cellsOfRow y 0 row ++ cellsOf (y + 1) rest
  end.

(** A cell of the map data that holds a wanted tile. *)
Definition holds (wanted : tile -> bool) (mapData : list (list tile)) (c : cell)
    : Prop :=
  exists t : tile, tileAt mapData (cx c) (cy c) = Some t /\ wanted t = true.

(** [best] is one of [moves] and no move of [moves] scores more. *)
Definition bestAmong (score : direction -> option num) (moves : list direction)
    (best : direction) : Prop :=
  In best moves /\
  exists b : Q, score best = Some (Fin b) /\
    forall (m : direction) (q : Q),
      In m moves -> score m = Some (Fin q) -> (q <= b)%Q.

(** What a step in direction [move] costs the greedy controller: the
    distance to the pellet from the cell it leads to, plus the penalty. *)
Definition greedyCost (tr : tracker) (pacmanPos : pos) (lastMove : option direction)
    (nearest : cell) (move : direction) : option Q :=
  newPos ← stepCell (toGrid pacmanPos) move;
  penalty ← getOscillationPenalty tr pacmanPos move lastMove;
  Some (inject_Z (manhattanDistance newPos nearest) + penalty)%Q.

(** What a step in direction [move] costs the fallback of the A*
    controller: the distance to the goal from the cell it leads to, the
    danger of that cell, and the penalty. *)
Definition fallbackCost (tr : tracker) (pacmanPos : pos) (lastMove : option direction)
    (goalGrid : cell) (cost : cell -> Z) (move : direction) : option Q :=
  newPos ← stepCell (toGrid pacmanPos) move;
  penalty ← getOscillationPenalty tr pacmanPos move lastMove;
  Some (inject_Z (manhattanDistance newPos goalGrid + cost newPos) + penalty)%Q.

(** An upper bound that a minimum of finite values can hold. *)
Definition upperBound (a : num) : Prop := a = PosInf \/ finite a.

(** [best] is one of [moves] and no move of [moves] scores less. *)
Definition leastAmong (score : direction -> option num) (moves : list direction)
    (best : direction) : Prop :=
  In best moves /\
  exists b : Q, score best = Some (Fin b) /\
    forall (m : direction) (q : Q),
      In m moves -> score m = Some (Fin q) -> (b <= q)%Q.

(** How far from the agent a step in direction [move] leaves a ghost. *)
Definition fleeDistance (g : GhostControllers.ghost) (pacmanPos : pos)
    (move : direction) : option Z :=
  newPos ← stepCell (toGrid (GhostControllers.getPosition g)) move;
  Some (manhattanDistance newPos (toGrid pacmanPos)).

(** What the minimax controller of a ghost finds for a step in direction
    [move]: the value of the search with the ghost moved, the agent to
    play, and the nodes it took. *)
Definition ghostMoveValue (map : gameMap) (g : GhostControllers.ghost)
    (pacmanPos : pos) (allGhostPositions : list pos) (ghostStates : list ghostState)
    (depth : nat) (move : direction) : option (num * nat) :=
  '(ddx, ddy) ← delta 10 move;
  minimax map pacmanPos
    (GhostControllers.withGhostAt allGhostPositions (GhostControllers.getIndex g)
       (Pos (px (GhostControllers.getPosition g) + ddx)
            (py (GhostControllers.getPosition g) + ddy)))
    ghostStates (GhostControllers.orThree depth - 1) true NegInf PosInf.

(** What a tree-search controller finds for a root move: the value of the
    search after the step minus the oscillation penalty of the move, and
    the nodes the search took. *)
Definition rootValue (search : pos -> option (num * nat)) (tr : tracker)
    (pacmanPos : pos) (lastMove : option direction) (move : direction)
    : option (num * nat) :=
  '(ddx, ddy) ← delta 10 move;
  '(score, n) ← search (Pos (px pacmanPos + ddx) (py pacmanPos + ddy));
  penalty ← getOscillationPenalty tr pacmanPos move lastMove;
  Some (num_sub score (Fin penalty), n).

(** The nodes that the searches of the root moves took together. *)
Definition rootNodes (search : pos -> option (num * nat)) (tr : tracker)
    (pacmanPos : pos) (lastMove : option direction) (moves : list direction) : nat :=
  sum_list_with
    (fun m => default 0%nat (snd <$> rootValue search tr pacmanPos lastMove m)) moves.

(** A simulated ghost that stays where it is, or that goes ten pixels
    along one axis onto a floor cell. *)
Definition legalStep (map : gameMap) (from to : pos) : Prop :=
  to = from \/
  (isFloorSpace map (toGrid to) = true /\
   ((Z.abs (px to - px from) = 10 /\ py to = py from) \/
    (px to = px from /\ Z.abs (py to - py from) = 10))).

(** Every ghost of [moved] made a legal step from its place in
    [ghostPositions]. *)
Definition legalSteps (map : gameMap) (ghostPositions moved : list pos) : Prop :=
  length moved = length ghostPositions /\
  forall (i : nat) (g g' : pos),
    ghostPositions !! i = Some g -> moved !! i = Some g' -> legalStep map g g'.

(** How many ghosts the game loop sees to have moved between two lists of
    positions. *)
Fixpoint movers (old new : list pos) : nat :=
  match old, new with
  | o :: old', n :: new' =>
      ((if direction_eqb (Game.observedMove o n) NONE then 0 else 1)
       + movers old' new')%nat
  | _, _ => 0%nat
  end.

(** * Properties *)

(** ** Rational arithmetic *)

Lemma Qdiv_lt_pos (a b c : Q) : (0 < c)%Q -> (a < b)%Q -> (a / c < b / c)%Q.
Proof.
  intros Hc Hab. unfold Qdiv. apply Qmult_lt_r; [|exact Hab].
  apply Qinv_lt_0_compat. exact Hc.
Qed.

(** ** Rounding to the nearest double *)

Section DoubleFacts.

Import Double.

Lemma pow2_pos (e : Z) : (0 < pow2 e)%Q.
Proof. apply Qpower_0_lt. reflexivity. Qed.

Lemma pow2_add (a b : Z) : (pow2 (a + b) == pow2 a * pow2 b)%Q.
Proof. apply Qpower_plus. discriminate. Qed.

Lemma pow2_Z (k : Z) : 0 <= k -> (pow2 k == inject_Z (2 ^ k))%Q.
Proof. intros H. unfold pow2. rewrite (Zpower_Qpower 2 k H). reflexivity. Qed.

Lemma pow2_le (a b : Z) : a <= b -> (pow2 a <= pow2 b)%Q.
Proof. intros H. apply Qpower_le_compat_l; [exact H|discriminate]. Qed.

Lemma pow2_succ (a : Z) : (pow2 (a + 1) == 2 * pow2 a)%Q.
Proof. rewrite pow2_add. change (pow2 1) with 2%Q. ring. Qed.

Lemma pow2_inv (a : Z) : (pow2 a * pow2 (- a) == 1)%Q.
Proof. rewrite <- pow2_add. rewrite Z.add_opp_diag_r. reflexivity. Qed.

(** The scale: 2^52 <= x * 2^s < 2^53. *)
Lemma scaleOf_spec (x : Q) :
  (0 < x)%Q ->
  (pow2 52 <= x * pow2 (scaleOf x))%Q /\ (x * pow2 (scaleOf x) < pow2 53)%Q.
Proof.
  intros Hx. destruct x as [a b]. unfold scaleOf. cbn [Qnum Qden].
  assert (Ha : 0 < a) by (unfold Qlt in Hx; cbn in Hx; lia).
  set (la := Z.log2 a). set (lb := Z.log2 (Zpos b)).
  assert (Hla : 0 <= la) by apply Z.log2_nonneg.
  assert (Hlb : 0 <= lb) by apply Z.log2_nonneg.
  destruct (Z.log2_spec a Ha) as [Ha1 Ha2]. fold la in Ha1, Ha2.
  destruct (Z.log2_spec (Zpos b) ltac:(lia)) as [Hb1 Hb2]. fold lb in Hb1, Hb2.
  rewrite Zle_Qle, <- pow2_Z in Ha1 by lia.
  rewrite Zlt_Qlt, <- pow2_Z in Ha2 by lia.
  rewrite Zle_Qle, <- pow2_Z in Hb1 by lia.
  rewrite Zlt_Qlt, <- pow2_Z in Hb2 by lia.
  unfold Z.succ in Ha2, Hb2. rewrite pow2_succ in Ha2, Hb2.
  set (s0 := 52 - la + lb).
  assert (Hs0 : (pow2 s0 * pow2 la == pow2 52 * pow2 lb)%Q).
  { rewrite <- !pow2_add. replace (s0 + la) with (52 + lb) by (unfold s0; lia).
    reflexivity. }
  pose proof (pow2_pos la) as HL. pose proof (pow2_pos lb) as HM.
  pose proof (pow2_pos s0) as HS. pose proof (pow2_pos 52) as H52.
  assert (H53 : (pow2 53 == 2 * pow2 52)%Q) by (apply (pow2_succ 52)).
  assert (Hs1 : (pow2 (s0 + 1) == 2 * pow2 s0)%Q) by apply pow2_succ.
  assert (Hx' : ((a # b) * inject_Z (Zpos b) == inject_Z a)%Q).
  { rewrite Qmake_Qdiv. field. discriminate. }
  set (A := inject_Z a) in *. set (B := inject_Z (Zpos b)) in *.
  set (L := pow2 la) in *. set (M := pow2 lb) in *.
  set (S0 := pow2 s0) in *. set (C := pow2 52) in *.
  set (X := (a # b)%Q) in *.
  assert (HB : (0 < B)%Q) by lra.
  assert (E : (X * S0 * (B * L) == A * (C * M))%Q).
  { transitivity ((X * B) * (S0 * L))%Q; [ring|]. rewrite Hx', Hs0. reflexivity. }
  assert (Hup : (X * S0 < 2 * C)%Q).
  { apply (Qmult_lt_r _ _ (B * L)); [nra|]. rewrite E.
    assert (A * M < 2 * L * B)%Q by nra. nra. }
  assert (Hlow : (C < 2 * (X * S0))%Q).
  { apply (Qmult_lt_r _ _ (B * L)); [nra|].
    assert (E2 : (2 * (X * S0) * (B * L) == 2 * (A * (C * M)))%Q)
      by (rewrite <- E; ring).
    rewrite E2. assert (L * B < 2 * (A * M))%Q by nra. nra. }
  destruct (Qle_bool C (X * S0)) eqn:Htest.
  - apply Qle_bool_iff in Htest. split; [exact Htest|]. rewrite H53. exact Hup.
  - assert (Hlt : (X * S0 < C)%Q).
    { apply Qnot_le_lt. intros Hle. apply Qle_bool_iff in Hle. congruence. }
    rewrite Hs1, H53. split; lra.
Qed.

(** Rounding to the nearest integer. *)
Lemma roundHalfEven_spec (y : Q) :
  let n := inject_Z (roundHalfEven y) in
  (y - (1 # 2) <= n)%Q /\ (n <= y + (1 # 2))%Q /\
  (Qfloor y <= roundHalfEven y <= Qfloor y + 1)%Z.
Proof.
  cbv zeta. unfold roundHalfEven.
  pose proof (Qfloor_le y) as Hlo. pose proof (Qlt_floor y) as Hhi.
  rewrite inject_Z_plus in Hhi. change (inject_Z 1) with 1%Q in Hhi.
  set (F := Qfloor y) in *.
  destruct (Qcompare_spec (y - inject_Z F) (1 # 2)) as [He|Hl|Hg].
  - destruct (Z.even F).
    + split; [lra|]. split; [lra|lia].
    + rewrite inject_Z_plus. change (inject_Z 1) with 1%Q.
      split; [lra|]. split; [lra|lia].
  - split; [lra|]. split; [lra|lia].
  - rewrite inject_Z_plus. change (inject_Z 1) with 1%Q.
    split; [lra|]. split; [lra|lia].
Qed.

(** No integer is nearer. *)
Lemma roundHalfEven_nearest (y : Q) (j : Z) :
  (Qabs (inject_Z (roundHalfEven y) - y) <= Qabs (inject_Z j - y))%Q.
Proof.
  destruct (roundHalfEven_spec y) as (H1 & H2 & H3 & H4).
  pose proof (Qfloor_le y) as Hlo. pose proof (Qlt_floor y) as Hhi.
  rewrite inject_Z_plus in Hhi. change (inject_Z 1) with 1%Q in Hhi.
  set (n := roundHalfEven y) in *. set (F := Qfloor y) in *.
  assert (Hn : (inject_Z n == inject_Z F)%Q \/ (inject_Z n == inject_Z F + 1)%Q).
  { destruct (Z.eq_dec n F) as [->|Hne]; [left; reflexivity|].
    right. replace n with (F + 1) by lia. rewrite inject_Z_plus. reflexivity. }
  assert (Hj : (inject_Z j <= inject_Z F)%Q \/ (inject_Z F + 1 <= inject_Z j)%Q).
  { destruct (Z.le_gt_cases j F) as [Hle|Hgt].
    - left. rewrite <- Zle_Qle. exact Hle.
    - right. change 1%Q with (inject_Z 1). rewrite <- inject_Z_plus, <- Zle_Qle. lia. }
  apply Qabs_case; intros Hs1; apply Qabs_case; intros Hs2;
    destruct Hn as [Hn|Hn]; destruct Hj as [Hj|Hj]; lra.
Qed.

Lemma Qabs_scale (a p : Q) : (0 < p)%Q -> (Qabs (a * p) == Qabs a * p)%Q.
Proof.
  intros Hp. rewrite Qabs_Qmult. rewrite (Qabs_pos p) by lra. reflexivity.
Qed.

(** The value returned is a nearest representable number. *)
Lemma nearest_spec (x f : Q) :
  (0 < x)%Q -> representable f ->
  (Qabs (nearest x - x) <= Qabs (f - x))%Q.
Proof.
  intros Hx (m & k & Hm & Hf).
  destruct (scaleOf_spec x Hx) as [Hlo Hhi]. unfold nearest.
  set (s := scaleOf x) in *. set (y := (x * pow2 s)%Q) in *.
  set (n := roundHalfEven y).
  pose proof (pow2_pos s) as HP. pose proof (pow2_pos (- s)) as HPi.
  pose proof (pow2_inv s) as Hinv.
  assert (E1 : (inject_Z n * pow2 (- s) - x == (inject_Z n - y) * pow2 (- s))%Q).
  { unfold y. transitivity (inject_Z n * pow2 (- s) - x * (pow2 s * pow2 (- s)))%Q;
      [rewrite Hinv; ring|ring]. }
  assert (E2 : (f - x == (f * pow2 s - y) * pow2 (- s))%Q).
  { unfold y. transitivity (f * (pow2 s * pow2 (- s)) - x * (pow2 s * pow2 (- s)))%Q;
      [rewrite Hinv; ring|ring]. }
  rewrite E1, E2, !Qabs_scale by exact HPi.
  apply Qmult_le_compat_r; [|lra].
  assert (EfP : (f * pow2 s == inject_Z m * pow2 (k + s))%Q).
  { rewrite Hf, pow2_add. ring. }
  rewrite EfP.
  destruct (Z.le_gt_cases 0 (k + s)) as [Hks|Hks].
  - rewrite (pow2_Z (k + s) Hks), <- inject_Z_mult. apply roundHalfEven_nearest.
  - pose proof (roundHalfEven_nearest y (2 ^ 52)) as Hedge.
    rewrite <- (pow2_Z 52) in Hedge by lia.
    assert (Hhalf : (pow2 (k + s) <= 1 # 2)%Q).
    { change (1 # 2)%Q with (pow2 (-1)). apply pow2_le. lia. }
    pose proof (pow2_pos (k + s)) as Hpos.
    assert (Hm' : (inject_Z m < 2 * pow2 52)%Q).
    { rewrite <- (pow2_succ 52). change (52 + 1) with 53.
      rewrite (pow2_Z 53) by lia. rewrite <- Zlt_Qlt. lia. }
    set (p := pow2 (k + s)) in *. set (c := pow2 52) in *. set (mq := inject_Z m) in *.
    assert (Hsmall : (mq * p < c)%Q).
    { pose proof (pow2_pos 52) as Hc. fold c in Hc.
      destruct (Qlt_le_dec mq 0) as [Hneg|Hnonneg].
      - assert (0 <= (- mq) * p)%Q by (apply Qmult_le_0_compat; lra). lra.
      - assert (0 <= mq * ((1 # 2) - p))%Q by (apply Qmult_le_0_compat; lra). lra. }
    eapply Qle_trans; [exact Hedge|].
    apply Qabs_case; intros Hs1; apply Qabs_case; intros Hs2; lra.
Qed.

Lemma nearest_representable (x : Q) : (0 < x)%Q -> representable (nearest x).
Proof.
  intros Hx. destruct (scaleOf_spec x Hx) as [Hlo Hhi]. unfold nearest.
  set (s := scaleOf x) in *. set (y := (x * pow2 s)%Q) in *.
  destruct (roundHalfEven_spec y) as (_ & _ & Hn1 & Hn2).
  set (n := roundHalfEven y) in *.
  assert (HF1 : 2 ^ 52 <= Qfloor y).
  { rewrite <- (Qfloor_Z (2 ^ 52)). apply Qfloor_resp_le.
    rewrite <- (pow2_Z 52) by lia. exact Hlo. }
  assert (HF2 : Qfloor y < 2 ^ 53).
  { rewrite Zlt_Qlt. eapply Qle_lt_trans; [apply Qfloor_le|].
    rewrite <- (pow2_Z 53) by lia. exact Hhi. }
  destruct (Z.eq_dec n (2 ^ 53)) as [Heq|Hne].
  - exists (2 ^ 52), (- s + 1). split; [lia|].
    rewrite Heq, pow2_add. change (pow2 1) with 2%Q.
    change (inject_Z (2 ^ 53)) with (inject_Z (2 ^ 52) * 2)%Q. ring.
  - exists n, (- s). split; [lia|reflexivity].
Qed.

Lemma binary64_positive (x : Q) : (0 < x)%Q -> binary64 x = nearest (Qred x).
Proof.
  intros Hx. unfold binary64. cbv zeta.
  assert (Hr : (0 < Qred x)%Q) by (rewrite Qred_correct; exact Hx).
  destruct (Qred x) as [a b]. unfold Qlt in Hr. cbn in Hr |- *.
  destruct a; try lia. reflexivity.
Qed.

Lemma binary64_proper (x y : Q) : (x == y)%Q -> binary64 x = binary64 y.
Proof. intros H. unfold binary64. rewrite (Qred_complete x y H). reflexivity. Qed.

Lemma binary64_nearest (x f : Q) :
  (0 < x)%Q -> representable f ->
  (Qabs (binary64 x - x) <= Qabs (f - x))%Q.
Proof.
  intros Hx Hf. rewrite (binary64_positive x Hx).
  assert (Hr : (0 < Qred x)%Q) by (rewrite Qred_correct; exact Hx).
  pose proof (nearest_spec (Qred x) f Hr Hf) as H.
  rewrite (Qred_correct x) in H at 2 3. exact H.
Qed.

Lemma binary64_representable (x : Q) : (0 < x)%Q -> representable (binary64 x).
Proof.
  intros Hx. rewrite (binary64_positive x Hx). apply nearest_representable.
  rewrite Qred_correct. exact Hx.
Qed.

Lemma binary64_exact (x : Q) :
  (0 < x)%Q -> representable x -> (binary64 x == x)%Q.
Proof.
  intros Hx Hf. pose proof (binary64_nearest x x Hx Hf) as H.
  revert H. apply Qabs_case; intros Hs1; apply Qabs_case; intros Hs2 H; lra.
Qed.

Lemma binary64_monotone (x y : Q) :
  (0 < x)%Q -> (x <= y)%Q -> (binary64 x <= binary64 y)%Q.
Proof.
  intros Hx Hxy.
  assert (Hy : (0 < y)%Q) by lra.
  destruct (Qlt_le_dec x y) as [Hlt|Hge].
  - pose proof (binary64_nearest x (binary64 y) Hx (binary64_representable y Hy)) as H1.
    pose proof (binary64_nearest y (binary64 x) Hy (binary64_representable x Hx)) as H2.
    set (rx := binary64 x) in *. set (ry := binary64 y) in *.
    apply Qnot_lt_le. intros Hbad.
    revert H1 H2.
    apply Qabs_case; intros Hs1; apply Qabs_case; intros Hs2;
      apply Qabs_case; intros Hs3; apply Qabs_case; intros Hs4; intros H1 H2; lra.
  - rewrite (binary64_proper x y) by lra. apply Qle_refl.
Qed.

Lemma grid_representable (j : Z) :
  0 <= j <= 2 ^ 53 -> representable (inject_Z j * pow2 (-53)).
Proof.
  intros Hj. destruct (Z.eq_dec j (2 ^ 53)) as [->|Hne].
  - exists 1, 0. split; [reflexivity|]. vm_compute. reflexivity.
  - exists j, (-53). split; [lia|reflexivity].
Qed.

(** On (0, 1] the error is at most half the spacing of the doubles below
    1, which is 2^-53. *)
Lemma binary64_error (x : Q) :
  (0 < x)%Q -> (x <= 1)%Q -> (Qabs (binary64 x - x) <= pow2 (-54))%Q.
Proof.
  intros Hx H1.
  set (y := (x * pow2 53)%Q). set (j := roundHalfEven y).
  destruct (roundHalfEven_spec y) as (Hj1 & Hj2 & Hj3 & Hj4). fold j in Hj1, Hj2, Hj3, Hj4.
  pose proof (pow2_pos 53) as HP.
  assert (Hy0 : (0 < y)%Q) by (unfold y; nra).
  assert (Hy1 : (y <= pow2 53)%Q) by (unfold y; nra).
  assert (HF0 : 0 <= Qfloor y).
  { change 0 with (Qfloor 0). apply Qfloor_resp_le. lra. }
  assert (HF1 : j <= 2 ^ 53).
  { destruct (Z.le_gt_cases j (2 ^ 53)) as [H|H]; [exact H|exfalso].
    assert (Hq : (inject_Z (2 ^ 53) + 1 <= inject_Z j)%Q).
    { change 1%Q with (inject_Z 1). rewrite <- inject_Z_plus, <- Zle_Qle. lia. }
    rewrite <- (pow2_Z 53) in Hq by lia. lra. }
  pose proof (binary64_nearest x (inject_Z j * pow2 (-53)) Hx
                (grid_representable j ltac:(lia))) as Hnear.
  eapply Qle_trans; [exact Hnear|].
  pose proof (pow2_inv 53) as Hinv. pose proof (pow2_pos (-53)) as HPi.
  assert (E : (inject_Z j * pow2 (-53) - x == (inject_Z j - y) * pow2 (-53))%Q).
  { unfold y. transitivity (inject_Z j * pow2 (-53) - x * (pow2 53 * pow2 (-53)))%Q;
      [rewrite Hinv; ring|ring]. }
  rewrite E, Qabs_scale by exact HPi.
  assert (Hhalf : (pow2 (-54) == (1 # 2) * pow2 (-53))%Q) by (vm_compute; reflexivity).
  rewrite Hhalf. apply Qmult_le_compat_r; [|lra].
  apply Qabs_case; intros Hs; lra.
Qed.

(** Two numbers of (0, 1] that are 2^-52 apart have different doubles. *)
Lemma binary64_separates (a b : Q) :
  (0 < a)%Q -> (b <= 1)%Q -> (a + pow2 (-52) <= b)%Q ->
  (binary64 a < binary64 b)%Q.
Proof.
  intros Ha Hb Hgap.
  set (y := (a * pow2 53)%Q). set (j := (Qfloor y + 1)%Z).
  pose proof (pow2_pos 53) as HP. pose proof (pow2_pos (-53)) as HPi.
  pose proof (pow2_inv 53) as Hinv.
  assert (H52 : (pow2 (-52) == 2 * pow2 (-53))%Q) by (vm_compute; reflexivity).
  pose proof (Qfloor_le y) as Hlo. pose proof (Qlt_floor y) as Hhi. fold j in Hhi.
  assert (Hj : (inject_Z j <= y + 1)%Q).
  { unfold j. rewrite inject_Z_plus. change (inject_Z 1) with 1%Q. lra. }
  assert (Ea : (a == y * pow2 (-53))%Q).
  { unfold y. transitivity (a * (pow2 53 * pow2 (-53)))%Q; [rewrite Hinv; ring|ring]. }
  set (f1 := (inject_Z j * pow2 (-53))%Q).
  set (f2 := (inject_Z (j + 1) * pow2 (-53))%Q).
  assert (Hf1a : (a < f1)%Q).
  { unfold f1. rewrite Ea. apply Qmult_lt_compat_r; [exact HPi|exact Hhi]. }
  assert (Hf12 : (f2 == f1 + pow2 (-53))%Q).
  { unfold f1, f2. rewrite inject_Z_plus. change (inject_Z 1) with 1%Q. ring. }
  assert (Hf1b : (f1 <= a + pow2 (-53))%Q).
  { assert (H : (inject_Z j * pow2 (-53) <= (y + 1) * pow2 (-53))%Q)
      by (apply Qmult_le_compat_r; [exact Hj|lra]).
    assert (E2 : ((y + 1) * pow2 (-53) == y * pow2 (-53) + pow2 (-53))%Q) by ring.
    unfold f1. lra. }
  assert (Hf2b : (f2 <= b)%Q) by lra.
  assert (Hy0 : (0 < y)%Q) by (unfold y; nra).
  assert (HF0 : 0 <= Qfloor y).
  { change 0 with (Qfloor 0). apply Qfloor_resp_le. lra. }
  assert (Hj2 : j + 1 <= 2 ^ 53).
  { destruct (Z.le_gt_cases (j + 1) (2 ^ 53)) as [H|H]; [exact H|exfalso].
    assert (Hq : (pow2 53 < inject_Z (j + 1))%Q).
    { rewrite (pow2_Z 53) by lia. rewrite <- Zlt_Qlt. lia. }
    assert (Hone : (1 < f2)%Q).
    { unfold f2. rewrite <- Hinv. apply Qmult_lt_compat_r; [exact HPi|exact Hq]. }
    lra. }
  assert (R1 : representable f1) by (apply grid_representable; lia).
  assert (R2 : representable f2) by (apply grid_representable; lia).
  assert (P1 : (0 < f1)%Q) by lra.
  assert (P2 : (0 < f2)%Q) by lra.
  pose proof (binary64_monotone a f1 Ha ltac:(lra)) as M1.
  pose proof (binary64_monotone f2 b P2 Hf2b) as M2.
  rewrite (binary64_exact f1 P1 R1) in M1.
  rewrite (binary64_exact f2 P2 R2) in M2.
  lra.
Qed.

Lemma binary64_pos (x : Q) : (0 < x)%Q -> (0 < binary64 x)%Q.
Proof.
  intros Hx. rewrite (binary64_positive x Hx).
  assert (Hr : (0 < Qred x)%Q) by (rewrite Qred_correct; exact Hx).
  destruct (scaleOf_spec (Qred x) Hr) as [Hlo _]. unfold nearest.
  set (s := scaleOf (Qred x)) in *. set (y := (Qred x * pow2 s)%Q) in *.
  destruct (roundHalfEven_spec y) as (_ & _ & Hn1 & _).
  assert (HF1 : 2 ^ 52 <= Qfloor y).
  { rewrite <- (Qfloor_Z (2 ^ 52)). apply Qfloor_resp_le.
    rewrite <- (pow2_Z 52) by lia. exact Hlo. }
  apply Qmult_lt_0_compat; [|apply pow2_pos].
  change 0%Q with (inject_Z 0). rewrite <- Zlt_Qlt. lia.
Qed.

Lemma grid2_representable (j : Z) :
  0 <= j <= 2 ^ 53 -> representable (inject_Z j * pow2 (-52)).
Proof.
  intros Hj. destruct (Z.eq_dec j (2 ^ 53)) as [->|Hne].
  - exists 1, 1. split; [reflexivity|]. vm_compute. reflexivity.
  - exists j, (-52). split; [lia|reflexivity].
Qed.

(** On (0, 2] the error is at most half the spacing of the doubles below
    2, which is 2^-52. *)
Lemma binary64_error2 (x : Q) :
  (0 < x)%Q -> (x <= 2)%Q -> (Qabs (binary64 x - x) <= pow2 (-53))%Q.
Proof.
  intros Hx H1.
  set (y := (x * pow2 52)%Q). set (j := roundHalfEven y).
  destruct (roundHalfEven_spec y) as (Hj1 & Hj2 & Hj3 & Hj4). fold j in Hj1, Hj2, Hj3, Hj4.
  pose proof (pow2_pos 52) as HP.
  assert (H53 : (pow2 53 == 2 * pow2 52)%Q) by (apply (pow2_succ 52)).
  assert (Hy0 : (0 < y)%Q) by (unfold y; nra).
  assert (Hy1 : (y <= pow2 53)%Q) by (unfold y; nra).
  assert (HF0 : 0 <= Qfloor y).
  { change 0 with (Qfloor 0). apply Qfloor_resp_le. lra. }
  assert (HF1 : j <= 2 ^ 53).
  { destruct (Z.le_gt_cases j (2 ^ 53)) as [H|H]; [exact H|exfalso].
    assert (Hq : (inject_Z (2 ^ 53) + 1 <= inject_Z j)%Q).
    { change 1%Q with (inject_Z 1). rewrite <- inject_Z_plus, <- Zle_Qle. lia. }
    rewrite <- (pow2_Z 53) in Hq by lia. lra. }
  pose proof (binary64_nearest x (inject_Z j * pow2 (-52)) Hx
                (grid2_representable j ltac:(lia))) as Hnear.
  eapply Qle_trans; [exact Hnear|].
  pose proof (pow2_inv 52) as Hinv. pose proof (pow2_pos (-52)) as HPi.
  assert (E : (inject_Z j * pow2 (-52) - x == (inject_Z j - y) * pow2 (-52))%Q).
  { unfold y. transitivity (inject_Z j * pow2 (-52) - x * (pow2 52 * pow2 (-52)))%Q;
      [rewrite Hinv; ring|ring]. }
  rewrite E, Qabs_scale by exact HPi.
  assert (Hhalf : (pow2 (-53) == (1 # 2) * pow2 (-52))%Q) by (vm_compute; reflexivity).
  rewrite Hhalf. apply Qmult_le_compat_r; [|lra].
  apply Qabs_case; intros Hs; lra.
Qed.

End DoubleFacts.

(** The division of the processor gives the double that [Double.div]
    gives, on the quotients that the examples below meet and at the ends
    of the range. *)
Lemma div_agrees_with_the_processor :
  forallb
    (fun ct : Z * Z =>
       match Double.valueOf (PrimFloat.div (Double.ofZ ct.1) (Double.ofZ ct.2)) with
       | Some v => Qeq_bool v (Double.div (inject_Z ct.1) (inject_Z ct.2))
       | None => false
       end)
    [(1, 4); (1, 5); (2, 5); (1, 6); (3, 6); (1, 3); (2, 3); (1, 7); (5, 7);
     (166486344, 166486347); (166486345, 166486348);
     (100000001, 100000004); (100000002, 100000005);
     (1, 9007199254740992); (9007199254740991, 9007199254740992)]
  = true.
Proof. vm_compute. reflexivity. Qed.

(** The additions and products of the processor give the doubles that
    [Double.add] and [Double.mul] give, on the sums that the examples
    below meet: the four probabilities 1/6, 1/6, 3/6, 1/6 added up from
    the left and from the right, and the penalty
    50 + 50 * (1 + 2/3) + 50 * (1 + 1/3). *)
Lemma sums_agree_with_the_processor :
  let f := Double.ofZ in
  let q := fun a b : Z => Double.div (inject_Z a) (inject_Z b) in
  forallb
    (fun fv : PrimFloat.float * Q =>
       match Double.valueOf fv.1 with
       | Some v => Qeq_bool v fv.2
       | None => false
       end)
    [(PrimFloat.add
        (PrimFloat.add
           (PrimFloat.add (PrimFloat.div (f 1) (f 6)) (PrimFloat.div (f 1) (f 6)))
           (PrimFloat.div (f 3) (f 6)))
        (PrimFloat.div (f 1) (f 6)),
      Double.add (Double.add (Double.add (q 1 6) (q 1 6)) (q 3 6)) (q 1 6));
     (PrimFloat.add
        (PrimFloat.div (f 1) (f 6))
        (PrimFloat.add (PrimFloat.div (f 1) (f 6))
           (PrimFloat.add (PrimFloat.div (f 3) (f 6)) (PrimFloat.div (f 1) (f 6)))),
      Double.add (q 1 6) (Double.add (q 1 6) (Double.add (q 3 6) (q 1 6))));
     (PrimFloat.add
        (PrimFloat.add
           (PrimFloat.add (f 0) (f 50))
           (PrimFloat.mul (f 50) (PrimFloat.add (f 1) (PrimFloat.div (f 2) (f 3)))))
        (PrimFloat.mul (f 50) (PrimFloat.add (f 1) (PrimFloat.div (f 1) (f 3)))),
      Double.add
        (Double.add (Double.add 0 50) (Double.mul 50 (Double.add 1 (q 2 3))))
        (Double.mul 50 (Double.add 1 (q 1 3))))]
  = true.
Proof. vm_compute. reflexivity. Qed.

(** The same on every quotient [c / t] of a count by a total of at most
    64, and on the sum and the product of that quotient with the double
    nearest to [t / 100]. *)
Lemma rounding_agrees_on_small_counts :
  let agree := fun (f : PrimFloat.float) (v : Q) =>
    match Double.valueOf f with
    | Some w => Qeq_bool w v
    | None => false
    end in
  forallb
    (fun t : nat =>
       forallb
         (fun c : nat =>
            let fc := Double.ofZ (Z.of_nat c) in
            let ft := Double.ofZ (Z.of_nat t) in
            let q := Double.div (inject_Z (Z.of_nat c)) (inject_Z (Z.of_nat t)) in
            let r := Double.div (inject_Z (Z.of_nat t)) (inject_Z 100) in
            let fq := PrimFloat.div fc ft in
            let fr := PrimFloat.div ft (Double.ofZ 100) in
            agree fq q
            && agree (PrimFloat.add fq fr) (Double.add q r)
            && agree (PrimFloat.mul fq fr) (Double.mul q r))
         (seq 1 t))
    (seq 1 64)
  = true.
Proof. vm_compute. reflexivity. Qed.

(** *** Whole numbers in doubles *)

(** A whole number up to 2^53 is a double. *)
Lemma binary64_whole (x : Q) (n : Z) :
  0 <= n <= 2 ^ 53 -> (x == inject_Z n)%Q -> (Double.binary64 x == inject_Z n)%Q.
Proof.
  intros Hn Hx. rewrite (binary64_proper x (inject_Z n) Hx).
  destruct (Z.eq_dec n 0) as [->|Hne]; [reflexivity|].
  apply binary64_exact.
  - change 0%Q with (inject_Z 0). rewrite <- Zlt_Qlt. lia.
  - destruct (Z.eq_dec n (2 ^ 53)) as [->|Hlt].
    + exists 1, 53. split; [reflexivity|]. vm_compute. reflexivity.
    + exists n, 0. split; [lia|]. unfold Double.pow2. simpl. ring.
Qed.

Lemma add_whole (x y : Q) (a b : Z) :
  0 <= a + b <= 2 ^ 53 -> (x == inject_Z a)%Q -> (y == inject_Z b)%Q ->
  (Double.add x y == inject_Z (a + b))%Q.
Proof.
  intros Hn Hx Hy. unfold Double.add. apply binary64_whole; [exact Hn|].
  rewrite Hx, Hy, inject_Z_plus. reflexivity.
Qed.

Lemma mul_whole (x y : Q) (a b : Z) :
  0 <= a * b <= 2 ^ 53 -> (x == inject_Z a)%Q -> (y == inject_Z b)%Q ->
  (Double.mul x y == inject_Z (a * b))%Q.
Proof.
  intros Hn Hx Hy. unfold Double.mul. apply binary64_whole; [exact Hn|].
  rewrite Hx, Hy, inject_Z_mult. reflexivity.
Qed.

Lemma div_proper (x y x' y' : Q) :
  (x == x')%Q -> (y == y')%Q -> Double.div x y = Double.div x' y'.
Proof.
  intros Hx Hy. unfold Double.div. apply binary64_proper. rewrite Hx, Hy. reflexivity.
Qed.

(** ** Anti-oscillation tracker *)

(** The recency factor of the source, [(len - i) / len], is 1 at the oldest
    entry (index 0). *)
Lemma historyTerm_oldest (len : nat) :
  (0 < len)%nat -> (historyTerm len 0 == 100)%Q.
Proof.
  intros Hlen. unfold historyTerm.
  assert (Hpos : (0 < inject_Z (Z.of_nat len))%Q).
  { change 0%Q with (inject_Z 0). rewrite <- Zlt_Qlt. lia. }
  rewrite Z.sub_0_r. field. intros E. rewrite E in Hpos. apply (Qlt_irrefl _ Hpos).
Qed.

(** The amount added for a match strictly decreases with the index: an
    entry pushed later (larger index) adds less than one pushed earlier. *)
Lemma historyTerm_decreasing (len i j : nat) :
  (i < j)%nat -> (j < len)%nat -> (historyTerm len j < historyTerm len i)%Q.
Proof.
  intros Hij Hj. unfold historyTerm.
  assert (Hpos : (0 < inject_Z (Z.of_nat len))%Q).
  { change 0%Q with (inject_Z 0). rewrite <- Zlt_Qlt. lia. }
  assert (Hnum : (inject_Z (Z.of_nat len - Z.of_nat j)
                  < inject_Z (Z.of_nat len - Z.of_nat i))%Q).
  { rewrite <- Zlt_Qlt. lia. }
  pose proof (Qdiv_lt_pos _ _ _ Hpos Hnum) as Hdiv.
  lra.
Qed.

(** C1.  The code does not penalize recent revisits more heavily.  With
    the history [(1,0); (-1,0)] (the cell (-1,0) visited last), stepping
    Right onto the older entry costs 100 and stepping Left onto the most
    recent entry costs 75: the older match contributes the larger amount,
    and the factor is 1 for the oldest entry, not 0. *)
Theorem oscillation_penalty_weighs_older_visit_more :
  moveHistory twoVisits = [Cell 1 0; Cell (-1) 0] /\
  exists older newer : Q,
    getOscillationPenalty twoVisits (Pos 0 0) RIGHT (Some NONE) = Some older /\
    getOscillationPenalty twoVisits (Pos 0 0) LEFT (Some NONE) = Some newer /\
    (older == 100)%Q /\ (newer == 75)%Q /\ (newer < older)%Q.
Proof.
  split; [reflexivity|].
  eexists; eexists.
  split; [vm_compute; reflexivity|].
  split; [vm_compute; reflexivity|].
  repeat split; reflexivity.
Qed.

(** ** The ghosts' turn of minimax *)

Section ChaseStep.

Variables (map : gameMap) (pacmanPos gPos : pos) (s : ghostState).

Let dx : Z := cx (toGrid pacmanPos) - cx (toGrid gPos).
Let dy : Z := cy (toGrid pacmanPos) - cy (toGrid gPos).
Let freeX : bool := isFloorSpace map (toGrid (stepX pacmanPos gPos s)).
Let freeY : bool := isFloorSpace map (toGrid (stepY pacmanPos gPos s)).

Lemma chaseStep_unfold :
  chaseStep map pacmanPos gPos s =
  if (Z.abs dy <? Z.abs dx) && freeX then stepX pacmanPos gPos s
  else if freeY then stepY pacmanPos gPos s
  else gPos.
Proof.
  unfold freeX, freeY, chaseStep, stepX, stepY. fold dx dy.
  set (towards := if isEdible s then -1 else 1).
  assert (HX : (if negb (dx =? 0)
                then if 0 <? dx then 10 * towards else -10 * towards
                else 0) = 10 * towards * Z.sgn dx).
  { destruct (Z.eqb_spec dx 0) as [->|Hne]; simpl; [lia|].
    destruct (Z.ltb_spec 0 dx); [rewrite Z.sgn_pos by lia | rewrite Z.sgn_neg by lia]; lia. }
  assert (HY : (if negb (dy =? 0)
                then if 0 <? dy then 10 * towards else -10 * towards
                else 0) = 10 * towards * Z.sgn dy).
  { destruct (Z.eqb_spec dy 0) as [->|Hne]; simpl; [lia|].
    destruct (Z.ltb_spec 0 dy); [rewrite Z.sgn_pos by lia | rewrite Z.sgn_neg by lia]; lia. }
  rewrite HX, HY. reflexivity.
Qed.





End ChaseStep.

(** Every ghost is moved by [chaseStep] with its own state, provided each
    has a state to read. *)
Lemma chaseAll_lookup (map : gameMap) (pacmanPos : pos)
    (ghostStates : list ghostState) (ghostPositions : list pos) (idx : nat) :
  (idx + length ghostPositions <= length ghostStates)%nat ->
  exists moved : list pos,
    chaseAll map pacmanPos idx ghostPositions ghostStates = Some moved /\
    length moved = length ghostPositions /\
    forall (i : nat) (g : pos), ghostPositions !! i = Some g ->
      exists st : ghostState,
        ghostStates !! (idx + i)%nat = Some st /\
        moved !! i = Some (chaseStep map pacmanPos g st).
Proof.
  revert idx. induction ghostPositions as [|g0 rest IH]; intros idx Hlen.
  - exists []. split; [reflexivity|]. split; [reflexivity|].
    intros i g Hi. discriminate.
  - simpl in Hlen.
    destruct (lookup_lt_is_Some_2 ghostStates idx ltac:(lia)) as [st0 Hst0].
    destruct (IH (S idx) ltac:(lia)) as (moved & Hrun & Hsize & Hall).
    exists (chaseStep map pacmanPos g0 st0 :: moved).
    split; [|split].
    + simpl. rewrite Hst0. simpl. rewrite Hrun. reflexivity.
    + simpl. rewrite Hsize. reflexivity.
    + intros [|i] g Hi; simpl in Hi.
      * injection Hi as <-. exists st0. rewrite Nat.add_0_r. split; [exact Hst0|reflexivity].
      * destruct (Hall i g Hi) as (st & Hst & Hmoved).
        exists st. split; [|exact Hmoved].
        replace (idx + S i)%nat with (S idx + i)%nat by lia. exact Hst.
Qed.





(** ** Ghost model *)

Section GhostModelFacts.

Variables (st : model) (ghostIdx : nat) (ghostPos pacmanPos : pos).

Let situation : string := getSituation ghostPos pacmanPos.

(** An index without a table makes the query throw. *)
Lemma query_unknown_index :
  ghostObservations st !! ghostIdx = None ->
  getGhostMoveProbabilities ghostIdx ghostPos pacmanPos st = None.
Proof.
  intros H. unfold getGhostMoveProbabilities, mbind, M_bind, bind, get, defined.
  rewrite H. reflexivity.
Qed.

(** A situation without a bucket: the uniform distribution, and the state
    as it was. *)
Lemma query_unseen (tbl : gmap string bucket) :
  ghostObservations st !! ghostIdx = Some tbl -> tbl !! situation = None ->
  getGhostMoveProbabilities ghostIdx ghostPos pacmanPos st
  = Some ([(UP, 0.25%Q); (DOWN, 0.25%Q); (LEFT, 0.25%Q); (RIGHT, 0.25%Q)], st).
Proof.
  intros H1 H2. unfold getGhostMoveProbabilities, mbind, M_bind, bind, get, defined.
  rewrite H1. fold situation. rewrite H2. reflexivity.
Qed.

(** A situation with a bucket: the counts plus one over their sum plus
    four, and the state as it was. *)
Lemma query_seen (tbl : gmap string bucket) (obs : bucket) :
  ghostObservations st !! ghostIdx = Some tbl -> tbl !! situation = Some obs ->
  let total := (4 + nUP obs + nDOWN obs + nLEFT obs + nRIGHT obs)%N in
  let p := fun d : direction =>
    (inject_Z (Z.of_N (count obs d + 1)) / inject_Z (Z.of_N total))%Q in
  getGhostMoveProbabilities ghostIdx ghostPos pacmanPos st
  = Some ([(UP, p UP); (DOWN, p DOWN); (LEFT, p LEFT); (RIGHT, p RIGHT)], st).
Proof.
  intros H1 H2. unfold getGhostMoveProbabilities, mbind, M_bind, bind, get, defined.
  rewrite H1. fold situation. rewrite H2. reflexivity.
Qed.

(** The query never writes. *)
Lemma query_state (r : probs) (st' : model) :
  getGhostMoveProbabilities ghostIdx ghostPos pacmanPos st = Some (r, st') ->
  st' = st.
Proof.
  unfold getGhostMoveProbabilities, mbind, M_bind, bind, get, defined, ret.
  destruct (ghostObservations st !! ghostIdx) as [tbl|]; [|discriminate].
  destruct (tbl !! getSituation ghostPos pacmanPos); intros H; congruence.
Qed.

(** What recording a move does to the state. *)
Lemma record_run (tbl : gmap string bucket) (move : direction) :
  move <> NONE ->
  ghostObservations st !! ghostIdx = Some tbl ->
  recordGhostMove ghostIdx ghostPos pacmanPos move st
  = Some (tt,
          Model (<[ghostIdx :=
                     <[situation := incr (default zeroBucket (tbl !! situation)) move]> tbl]>
                   (ghostObservations st))
                (totalObservations st + 1)
                (confidence (totalObservations st + 1))).
Proof.
  intros Hmove Htbl. unfold recordGhostMove, direction_eqb.
  rewrite bool_decide_eq_false_2 by exact Hmove.
  unfold mbind, M_bind, bind, get, defined, put. rewrite Htbl.
  fold situation. destruct (tbl !! situation) as [obs|] eqn:Hobs; simpl.
  - rewrite Hobs. reflexivity.
  - rewrite lookup_insert_eq. rewrite insert_insert_eq. reflexivity.
Qed.

End GhostModelFacts.

(** Recording keeps the tables of all known indices. *)
Lemma record_keeps_known (st st' : model) (ghostIdx : nat) (ghostPos pacmanPos : pos)
    (move : direction) :
  recordGhostMove ghostIdx ghostPos pacmanPos move st = Some (tt, st') ->
  forall i : nat, is_Some (ghostObservations st !! i) ->
                  is_Some (ghostObservations st' !! i).
Proof.
  intros Hrun i Hi.
  destruct (decide (move = NONE)) as [->|Hmove].
  - unfold recordGhostMove in Hrun. simpl in Hrun. injection Hrun as <-. exact Hi.
  - destruct (ghostObservations st !! ghostIdx) as [tbl|] eqn:Htbl.
    + rewrite (record_run st ghostIdx ghostPos pacmanPos tbl move Hmove Htbl) in Hrun.
      injection Hrun as <-. simpl.
      destruct (decide (ghostIdx = i)) as [->|Hne].
      * rewrite lookup_insert_eq. eauto.
      * rewrite lookup_insert_ne by exact Hne. exact Hi.
    + unfold recordGhostMove, direction_eqb in Hrun.
      rewrite bool_decide_eq_false_2 in Hrun by exact Hmove.
      unfold mbind, M_bind, bind, get, defined in Hrun. rewrite Htbl in Hrun.
      discriminate.
Qed.

(** Hence the tables of the indices 0 to 3 are there in every state
    reached from the initial one by recording moves. *)
Lemma record_preserves_known (st st' : model) (ghostIdx : nat)
    (ghostPos pacmanPos : pos) (move : direction) :
  knownGhosts st ->
  recordGhostMove ghostIdx ghostPos pacmanPos move st = Some (tt, st') ->
  knownGhosts st'.
Proof.
  intros Hknown Hrun i Hi.
  apply (record_keeps_known st st' ghostIdx ghostPos pacmanPos move Hrun).
  apply Hknown. exact Hi.
Qed.

Lemma initialModel_known : knownGhosts initialModel.
Proof.
  intros i Hi. unfold initialModel, freshObservations. simpl.
  destruct i as [|[|[|[|i]]]]; try lia; vm_compute; eauto.
Qed.

(** *** Laplace smoothing *)

Lemma Qdiv_lt_cross (a b p q : Z) :
  0 < p -> 0 < q -> a * q < b * p ->
  (inject_Z a / inject_Z p < inject_Z b / inject_Z q)%Q.
Proof.
  intros Hp Hq H.
  destruct p as [|p|p]; try lia. destruct q as [|q|q]; try lia.
  unfold Qdiv, Qlt, Qmult, Qinv, inject_Z. simpl.
  rewrite !Z.mul_1_r. lia.
Qed.

Lemma inject_Z_pos (p : Z) : 0 < p -> ~ (inject_Z p == 0)%Q.
Proof.
  intros Hp E.
  assert (H0 : (0 < inject_Z p)%Q).
  { change 0%Q with (inject_Z 0). rewrite <- Zlt_Qlt. exact Hp. }
  rewrite E in H0. apply (Qlt_irrefl _ H0).
Qed.

(** A smoothed frequency lies strictly between 0 and 1. *)
Lemma smoothed_bounds (x total : N) :
  (x + 1 < total)%N ->
  (0 < inject_Z (Z.of_N (x + 1)) / inject_Z (Z.of_N total))%Q /\
  (inject_Z (Z.of_N (x + 1)) / inject_Z (Z.of_N total) < 1)%Q.
Proof.
  intros H. split.
  - apply (Qdiv_lt_cross 0 (Z.of_N (x + 1)) 1 (Z.of_N total)); lia.
  - apply (Qdiv_lt_cross (Z.of_N (x + 1)) 1 (Z.of_N total) 1); lia.
Qed.

(** The four smoothed frequencies of a bucket add up to 1. *)
Lemma smoothed_sum (a b c d : N) :
  let total := inject_Z (Z.of_N (4 + a + b + c + d)) in
  (inject_Z (Z.of_N (a + 1)) / total + inject_Z (Z.of_N (b + 1)) / total
   + inject_Z (Z.of_N (c + 1)) / total + inject_Z (Z.of_N (d + 1)) / total == 1)%Q.
Proof.
  intros total.
  assert (Hne : ~ (total == 0)%Q) by (apply inject_Z_pos; lia).
  assert (Htot : (total == inject_Z (Z.of_N (a + 1)) + inject_Z (Z.of_N (b + 1))
                           + inject_Z (Z.of_N (c + 1)) + inject_Z (Z.of_N (d + 1)))%Q).
  { unfold total. rewrite <- !inject_Z_plus. apply inject_Z_injective. lia. }
  set (na := inject_Z (Z.of_N (a + 1))) in *.
  set (nb := inject_Z (Z.of_N (b + 1))) in *.
  set (nc := inject_Z (Z.of_N (c + 1))) in *.
  set (nd := inject_Z (Z.of_N (d + 1))) in *.
  transitivity ((na + nb + nc + nd) / total)%Q; [field; exact Hne|].
  rewrite <- Htot. field. exact Hne.
Qed.

(** One more observation of a direction raises its smoothed frequency. *)
Lemma smoothed_grows (x total : N) :
  (x + 1 < total)%N ->
  (inject_Z (Z.of_N (x + 1)) / inject_Z (Z.of_N total)
   < inject_Z (Z.of_N (x + 1 + 1)) / inject_Z (Z.of_N (total + 1)))%Q.
Proof.
  intros H. apply Qdiv_lt_cross; nia.
Qed.

Lemma count_le_total (obs : bucket) (d : direction) :
  (count obs d + 1 < 4 + nUP obs + nDOWN obs + nLEFT obs + nRIGHT obs)%N.
Proof. destruct d; simpl; lia. Qed.

(** The answer of the query for an index with a table: four entries that
    add up to 1, each strictly between 0 and 1, and all one quarter when
    nothing was observed for the situation. *)
Lemma query_distribution (st : model) (ghostIdx : nat)
    (ghostPos pacmanPos : pos) :
  is_Some (ghostObservations st !! ghostIdx) ->
  exists pU pD pL pR : Q,
    getGhostMoveProbabilities ghostIdx ghostPos pacmanPos st
    = Some ([(UP, pU); (DOWN, pD); (LEFT, pL); (RIGHT, pR)], st) /\
    (pU + pD + pL + pR == 1)%Q /\
    ((0 < pU)%Q /\ (pU < 1)%Q) /\ ((0 < pD)%Q /\ (pD < 1)%Q) /\
    ((0 < pL)%Q /\ (pL < 1)%Q) /\ ((0 < pR)%Q /\ (pR < 1)%Q) /\
    ((forall d : direction, observed st ghostIdx ghostPos pacmanPos d = 0%N) ->
     (pU == 0.25)%Q /\ (pD == 0.25)%Q /\ (pL == 0.25)%Q /\ (pR == 0.25)%Q).
Proof.
  intros [tbl Htbl].
  destruct (tbl !! getSituation ghostPos pacmanPos) as [obs|] eqn:Hobs.
  - pose proof (query_seen st ghostIdx ghostPos pacmanPos tbl obs Htbl Hobs) as Hq.
    cbv zeta in Hq.
    eexists; eexists; eexists; eexists. split; [exact Hq|].
    split; [apply (smoothed_sum (nUP obs) (nDOWN obs) (nLEFT obs) (nRIGHT obs))|].
    split; [apply smoothed_bounds, (count_le_total obs UP)|].
    split; [apply smoothed_bounds, (count_le_total obs DOWN)|].
    split; [apply smoothed_bounds, (count_le_total obs LEFT)|].
    split; [apply smoothed_bounds, (count_le_total obs RIGHT)|].
    intros Hzero.
    assert (HU := Hzero UP). assert (HD := Hzero DOWN).
    assert (HL := Hzero LEFT). assert (HR := Hzero RIGHT).
    unfold observed in HU, HD, HL, HR. rewrite Htbl, Hobs in HU, HD, HL, HR.
    simpl in HU, HD, HL, HR. simpl count. rewrite HU, HD, HL, HR.
    repeat split; reflexivity.
  - pose proof (query_unseen st ghostIdx ghostPos pacmanPos tbl Htbl Hobs) as Hq.
    eexists; eexists; eexists; eexists. split; [exact Hq|].
    split; [reflexivity|].
    repeat split; reflexivity.
Qed.

(** *** The query in doubles *)

Section GhostModelInDoubles.

Variables (st : model) (ghostIdx : nat) (ghostPos pacmanPos : pos).

Let situation : string := getSituation ghostPos pacmanPos.

Lemma query64_unknown_index :
  ghostObservations st !! ghostIdx = None ->
  InDoubles.getGhostMoveProbabilities ghostIdx ghostPos pacmanPos st = None.
Proof.
  intros H. unfold InDoubles.getGhostMoveProbabilities, mbind, M_bind, bind, get, defined.
  rewrite H. reflexivity.
Qed.

Lemma query64_unseen (tbl : gmap string bucket) :
  ghostObservations st !! ghostIdx = Some tbl -> tbl !! situation = None ->
  InDoubles.getGhostMoveProbabilities ghostIdx ghostPos pacmanPos st
  = Some ([(UP, 0.25%Q); (DOWN, 0.25%Q); (LEFT, 0.25%Q); (RIGHT, 0.25%Q)], st).
Proof.
  intros H1 H2.
  unfold InDoubles.getGhostMoveProbabilities, mbind, M_bind, bind, get, defined.
  rewrite H1. fold situation. rewrite H2. reflexivity.
Qed.

(** An index with a table always gets four entries, and the state is as
    it was. *)
Lemma query64_answers :
  is_Some (ghostObservations st !! ghostIdx) ->
  exists pU pD pL pR : Q,
    InDoubles.getGhostMoveProbabilities ghostIdx ghostPos pacmanPos st
    = Some ([(UP, pU); (DOWN, pD); (LEFT, pL); (RIGHT, pR)], st).
Proof.
  intros [tbl H1].
  unfold InDoubles.getGhostMoveProbabilities, mbind, M_bind, bind, get, defined.
  rewrite H1. destruct (tbl !! getSituation ghostPos pacmanPos);
    eexists; eexists; eexists; eexists; reflexivity.
Qed.

(** A situation with a bucket whose counts add up to at most 2^53 - 4:
    the sums are exact, and each entry is the double nearest to the count
    plus one over the total plus four. *)
Lemma query64_seen (tbl : gmap string bucket) (obs : bucket) :
  ghostObservations st !! ghostIdx = Some tbl -> tbl !! situation = Some obs ->
  let total := (4 + nUP obs + nDOWN obs + nLEFT obs + nRIGHT obs)%N in
  let p := fun d : direction =>
    Double.div (inject_Z (Z.of_N (count obs d + 1))) (inject_Z (Z.of_N total)) in
  (total <= 2 ^ 53)%N ->
  InDoubles.getGhostMoveProbabilities ghostIdx ghostPos pacmanPos st
  = Some ([(UP, p UP); (DOWN, p DOWN); (LEFT, p LEFT); (RIGHT, p RIGHT)], st).
Proof.
  intros H1 H2 total p Hbound.
  assert (Hb : Z.of_N total <= 2 ^ 53).
  { change (2 ^ 53) with (Z.of_N (2 ^ 53)%N). lia. }
  unfold InDoubles.getGhostMoveProbabilities, mbind, M_bind, bind, get, defined.
  rewrite H1. fold situation. rewrite H2.
  cbn [directions fold_left List.map count]. unfold ret. unfold InDoubles.ofN.
  assert (T1 : (Double.add (inject_Z (Z.of_N (SMOOTHING * 4))) (inject_Z (Z.of_N (nUP obs)))
                == inject_Z (4 + Z.of_N (nUP obs)))%Q).
  { apply add_whole; [unfold total in Hb; lia| reflexivity | reflexivity]. }
  assert (T2 : (Double.add
                  (Double.add (inject_Z (Z.of_N (SMOOTHING * 4))) (inject_Z (Z.of_N (nUP obs))))
                  (inject_Z (Z.of_N (nDOWN obs)))
                == inject_Z (4 + Z.of_N (nUP obs) + Z.of_N (nDOWN obs)))%Q).
  { apply add_whole; [unfold total in Hb; lia| exact T1 | reflexivity]. }
  assert (T3 : (Double.add
                  (Double.add
                     (Double.add (inject_Z (Z.of_N (SMOOTHING * 4)))
                                 (inject_Z (Z.of_N (nUP obs))))
                     (inject_Z (Z.of_N (nDOWN obs))))
                  (inject_Z (Z.of_N (nLEFT obs)))
                == inject_Z (4 + Z.of_N (nUP obs) + Z.of_N (nDOWN obs)
                             + Z.of_N (nLEFT obs)))%Q).
  { apply add_whole; [unfold total in Hb; lia| exact T2 | reflexivity]. }
  assert (T4 : (Double.add
                  (Double.add
                     (Double.add
                        (Double.add (inject_Z (Z.of_N (SMOOTHING * 4)))
                                    (inject_Z (Z.of_N (nUP obs))))
                        (inject_Z (Z.of_N (nDOWN obs))))
                     (inject_Z (Z.of_N (nLEFT obs))))
                  (inject_Z (Z.of_N (nRIGHT obs)))
                == inject_Z (Z.of_N total))%Q).
  { replace (Z.of_N total)
      with (4 + Z.of_N (nUP obs) + Z.of_N (nDOWN obs) + Z.of_N (nLEFT obs)
            + Z.of_N (nRIGHT obs)) by (unfold total; lia).
    apply add_whole; [unfold total in Hb; lia| exact T3 | reflexivity]. }
  assert (C : forall n : N, (n + 1 <= total)%N ->
            (Double.add (inject_Z (Z.of_N n)) (inject_Z (Z.of_N SMOOTHING))
             == inject_Z (Z.of_N (n + 1)))%Q).
  { intros n Hn. replace (Z.of_N (n + 1)) with (Z.of_N n + 1) by lia.
    apply add_whole; [lia| reflexivity | reflexivity]. }
  unfold p. cbn [count].
  rewrite (div_proper _ _ _ _ (C (nUP obs) ltac:(unfold total; lia)) T4).
  rewrite (div_proper _ _ _ _ (C (nDOWN obs) ltac:(unfold total; lia)) T4).
  rewrite (div_proper _ _ _ _ (C (nLEFT obs) ltac:(unfold total; lia)) T4).
  rewrite (div_proper _ _ _ _ (C (nRIGHT obs) ltac:(unfold total; lia)) T4).
  reflexivity.
Qed.

End GhostModelInDoubles.

Lemma Qdiv_le_cross (a b p q : Z) :
  0 < p -> 0 < q -> a * q <= b * p ->
  (inject_Z a / inject_Z p <= inject_Z b / inject_Z q)%Q.
Proof.
  intros Hp Hq H.
  destruct p as [|p|p]; try lia. destruct q as [|q|q]; try lia.
  unfold Qdiv, Qle, Qmult, Qinv, inject_Z. simpl.
  rewrite !Z.mul_1_r. lia.
Qed.

(** A smoothed frequency as a double: within 2^-54 of the quotient, and
    strictly between 0 and 1 as long as the total is at most 2^53. *)
Lemma smoothed64_bounds (x total : N) :
  (x + 1 < total)%N ->
  let q := (inject_Z (Z.of_N (x + 1)) / inject_Z (Z.of_N total))%Q in
  let p := Double.div (inject_Z (Z.of_N (x + 1))) (inject_Z (Z.of_N total)) in
  (Qabs (p - q) <= Double.pow2 (-54))%Q /\
  ((total <= 2 ^ 53)%N -> (0 < p)%Q /\ (p < 1)%Q).
Proof.
  intros H. cbv zeta. unfold Double.div.
  destruct (smoothed_bounds x total H) as [Hq0 Hq1].
  set (q := (inject_Z (Z.of_N (x + 1)) / inject_Z (Z.of_N total))%Q) in *.
  split; [apply binary64_error; [exact Hq0|lra]|].
  intros Htot.
  assert (Htot' : Z.of_N total <= 2 ^ 53).
  { change (2 ^ 53) with (Z.of_N (2 ^ 53)%N). lia. }
  set (lo := (inject_Z 1 * Double.pow2 (-53))%Q).
  set (hi := (inject_Z (2 ^ 53 - 1) * Double.pow2 (-53))%Q).
  assert (Rlo : Double.representable lo) by (apply grid_representable; lia).
  assert (Rhi : Double.representable hi) by (apply grid_representable; lia).
  assert (Hlo : (lo <= q)%Q).
  { change lo with (inject_Z 1 / inject_Z (2 ^ 53))%Q. unfold q.
    apply Qdiv_le_cross; lia. }
  assert (Hhi : (q <= hi)%Q).
  { change hi with (inject_Z (2 ^ 53 - 1) / inject_Z (2 ^ 53))%Q. unfold q.
    apply Qdiv_le_cross; lia. }
  assert (Plo : (0 < lo)%Q) by (vm_compute; reflexivity).
  assert (Phi : (hi < 1)%Q) by (vm_compute; reflexivity).
  pose proof (binary64_monotone lo q Plo Hlo) as M1.
  pose proof (binary64_monotone q hi Hq0 Hhi) as M2.
  rewrite (binary64_exact lo Plo Rlo) in M1.
  rewrite (binary64_exact hi ltac:(lra) Rhi) in M2.
  split; lra.
Qed.

(** The total of a situation, read off the state. *)
Lemma observedTotal_seen (st : model) (ghostIdx : nat) (ghostPos pacmanPos : pos)
    (tbl : gmap string bucket) (obs : bucket) :
  ghostObservations st !! ghostIdx = Some tbl ->
  tbl !! getSituation ghostPos pacmanPos = Some obs ->
  observedTotal st ghostIdx ghostPos pacmanPos
  = (nUP obs + nDOWN obs + nLEFT obs + nRIGHT obs)%N.
Proof.
  intros H1 H2. unfold observedTotal, observed. rewrite H1, H2. reflexivity.
Qed.

(** The answer of the query in doubles for an index with a table, when at
    most 2^53 - 4 moves were counted for the situation: four doubles whose
    sum is within 2^-52 of 1, each strictly between 0 and 1, and all one
    quarter when nothing was observed for the situation. *)
Lemma query64_distribution (st : model) (ghostIdx : nat)
    (ghostPos pacmanPos : pos) :
  is_Some (ghostObservations st !! ghostIdx) ->
  (observedTotal st ghostIdx ghostPos pacmanPos + 4 <= 2 ^ 53)%N ->
  exists pU pD pL pR : Q,
    InDoubles.getGhostMoveProbabilities ghostIdx ghostPos pacmanPos st
    = Some ([(UP, pU); (DOWN, pD); (LEFT, pL); (RIGHT, pR)], st) /\
    (Qabs (pU + pD + pL + pR - 1) <= Double.pow2 (-52))%Q /\
    ((0 < pU)%Q /\ (pU < 1)%Q) /\ ((0 < pD)%Q /\ (pD < 1)%Q) /\
    ((0 < pL)%Q /\ (pL < 1)%Q) /\ ((0 < pR)%Q /\ (pR < 1)%Q) /\
    ((forall d : direction, observed st ghostIdx ghostPos pacmanPos d = 0%N) ->
     (pU == 0.25)%Q /\ (pD == 0.25)%Q /\ (pL == 0.25)%Q /\ (pR == 0.25)%Q).
Proof.
  intros [tbl Htbl] Hbound.
  destruct (tbl !! getSituation ghostPos pacmanPos) as [obs|] eqn:Hobs.
  - rewrite (observedTotal_seen st ghostIdx ghostPos pacmanPos tbl obs Htbl Hobs)
      in Hbound.
    set (total := (4 + nUP obs + nDOWN obs + nLEFT obs + nRIGHT obs)%N).
    assert (Htot : (total <= 2 ^ 53)%N) by (unfold total; lia).
    pose proof (query64_seen st ghostIdx ghostPos pacmanPos tbl obs Htbl Hobs Htot)
      as Hq.
    cbv beta in Hq. fold total in Hq.
    eexists; eexists; eexists; eexists. split; [exact Hq|].
    destruct (smoothed64_bounds (count obs UP) total (count_le_total obs UP))
      as [EU BU].
    destruct (smoothed64_bounds (count obs DOWN) total (count_le_total obs DOWN))
      as [ED BD].
    destruct (smoothed64_bounds (count obs LEFT) total (count_le_total obs LEFT))
      as [EL BL].
    destruct (smoothed64_bounds (count obs RIGHT) total (count_le_total obs RIGHT))
      as [ER BR].
    cbv zeta in EU, ED, EL, ER, BU, BD, BL, BR.
    pose proof (smoothed_sum (nUP obs) (nDOWN obs) (nLEFT obs) (nRIGHT obs)) as Hsum.
    cbv zeta in Hsum. fold total in Hsum. cbn [count] in EU, ED, EL, ER, BU, BD, BL, BR |- *.
    split; [|split; [exact (BU Htot)|split; [exact (BD Htot)|
             split; [exact (BL Htot)|split; [exact (BR Htot)|]]]]].
    + apply Qabs_Qle_condition in EU, ED, EL, ER. apply Qabs_Qle_condition.
      assert (H52 : (Double.pow2 (-52) == 4 * Double.pow2 (-54))%Q)
        by (vm_compute; reflexivity).
      rewrite H52. split; lra.
    + intros Hzero.
      assert (HU := Hzero UP). assert (HD := Hzero DOWN).
      assert (HL := Hzero LEFT). assert (HR := Hzero RIGHT).
      unfold observed in HU, HD, HL, HR. rewrite Htbl, Hobs in HU, HD, HL, HR.
      cbn [count] in HU, HD, HL, HR. unfold total. rewrite HU, HD, HL, HR.
      repeat split; vm_compute; reflexivity.
  - pose proof (query64_unseen st ghostIdx ghostPos pacmanPos tbl Htbl Hobs) as Hq.
    eexists; eexists; eexists; eexists. split; [exact Hq|].
    split; [vm_compute; discriminate|].
    repeat split; reflexivity.
Qed.

(** Four doubles of (0, 1) whose exact sum is within 2^-52 of 1, added up
    in doubles from the left: the result is within 2^-50 of 1. *)
Lemma sum64_near_one (pU pD pL pR : Q) :
  (0 < pU)%Q -> (0 < pD)%Q -> (0 < pL)%Q -> (0 < pR)%Q ->
  (Qabs (pU + pD + pL + pR - 1) <= Double.pow2 (-52))%Q ->
  (Qabs (Double.add (Double.add (Double.add pU pD) pL) pR - 1) <= Double.pow2 (-50))%Q.
Proof.
  intros HU HD HL HR Hsum. unfold Double.add.
  assert (H52 : (Double.pow2 (-52) == 2 * Double.pow2 (-53))%Q)
    by (vm_compute; reflexivity).
  assert (H50 : (Double.pow2 (-50) == 8 * Double.pow2 (-53))%Q)
    by (vm_compute; reflexivity).
  assert (Hsmall : (Double.pow2 (-53) <= 1 # 8)%Q) by (vm_compute; discriminate).
  pose proof (pow2_pos (-53)) as Hpos.
  apply Qabs_Qle_condition in Hsum. rewrite H52 in Hsum.
  set (s1 := Double.binary64 (pU + pD)).
  pose proof (binary64_error2 (pU + pD) ltac:(lra) ltac:(lra)) as E1.
  pose proof (binary64_pos (pU + pD) ltac:(lra)) as P1.
  fold s1 in E1, P1. apply Qabs_Qle_condition in E1.
  set (s2 := Double.binary64 (s1 + pL)).
  pose proof (binary64_error2 (s1 + pL) ltac:(lra) ltac:(lra)) as E2.
  pose proof (binary64_pos (s1 + pL) ltac:(lra)) as P2.
  fold s2 in E2, P2. apply Qabs_Qle_condition in E2.
  pose proof (binary64_error2 (s2 + pR) ltac:(lra) ltac:(lra)) as E3.
  apply Qabs_Qle_condition in E3.
  apply Qabs_Qle_condition. rewrite H50. split; lra.
Qed.

(** C3, as the code has it.  For an opponent index that has a table (the
    code creates one for each of 0 to 3 and for no other), the query
    returns exactly four probabilities, keyed Up, Down, Left, Right,
    whatever was observed, as long as fewer than 2^53 - 3 moves were
    counted for the situation.  They are doubles.  Their sum is 1 within
    floating-point tolerance, not always 1 itself: taken exactly it is
    within 2^-52 of 1, and added up in doubles in the order of the keys it
    is within 2^-50 of 1.  Each probability lies strictly between 0 and 1;
    with nothing observed for the situation each is one quarter.  A
    situation never seen needs no bucket. *)
Theorem move_probabilities_form_distribution (st : model) (ghostIdx : nat)
    (ghostPos pacmanPos : pos) :
  is_Some (ghostObservations st !! ghostIdx) ->
  (observedTotal st ghostIdx ghostPos pacmanPos + 4 <= 2 ^ 53)%N ->
  exists pU pD pL pR : Q,
    InDoubles.getGhostMoveProbabilities ghostIdx ghostPos pacmanPos st
    = Some ([(UP, pU); (DOWN, pD); (LEFT, pL); (RIGHT, pR)], st) /\
    (Qabs (pU + pD + pL + pR - 1) <= Double.pow2 (-52))%Q /\
    (Qabs (Double.add (Double.add (Double.add pU pD) pL) pR - 1)
     <= Double.pow2 (-50))%Q /\
    ((0 < pU)%Q /\ (pU < 1)%Q) /\ ((0 < pD)%Q /\ (pD < 1)%Q) /\
    ((0 < pL)%Q /\ (pL < 1)%Q) /\ ((0 < pR)%Q /\ (pR < 1)%Q) /\
    ((forall d : direction, observed st ghostIdx ghostPos pacmanPos d = 0%N) ->
     (pU == 0.25)%Q /\ (pD == 0.25)%Q /\ (pL == 0.25)%Q /\ (pR == 0.25)%Q).
Proof.
  intros Hidx Hbound.
  destruct (query64_distribution st ghostIdx ghostPos pacmanPos Hidx Hbound)
    as (pU & pD & pL & pR & Hq & Hsum & HU & HD & HL & HR & Hzero).
  exists pU, pD, pL, pR. split; [exact Hq|]. split; [exact Hsum|].
  split; [|tauto].
  apply sum64_near_one; [apply HU|apply HD|apply HL|apply HR|exact Hsum].
Qed.

(** Ghost 0 after it was seen to go Left twice: the doubles nearest to
    1/6, 1/6, 1/2 and 1/6, which add up to 1 - 2^-55. *)
Lemma move_probabilities_form_distribution_witness :
  is_Some (ghostObservations (seenOften LEFT 2) !! 0%nat) /\
  (observedTotal (seenOften LEFT 2) 0 (Pos 0 0) (Pos 50 0) + 4 <= 2 ^ 53)%N /\
  exists pU pD pL pR : Q,
    InDoubles.getGhostMoveProbabilities 0 (Pos 0 0) (Pos 50 0) (seenOften LEFT 2)
    = Some ([(UP, pU); (DOWN, pD); (LEFT, pL); (RIGHT, pR)], seenOften LEFT 2) /\
    (pU + pD + pL + pR == 1 - Double.pow2 (-55))%Q /\
    (0 < pU)%Q /\ (pL < 1)%Q.
Proof.
  assert (Hidx : is_Some (ghostObservations (seenOften LEFT 2) !! 0%nat))
    by (vm_compute; eauto).
  assert (Hbound : (observedTotal (seenOften LEFT 2) 0 (Pos 0 0) (Pos 50 0) + 4
                    <= 2 ^ 53)%N)
    by (vm_compute; discriminate).
  split; [exact Hidx|]. split; [exact Hbound|].
  destruct (move_probabilities_form_distribution (seenOften LEFT 2) 0 (Pos 0 0)
              (Pos 50 0) Hidx Hbound)
    as (pU & pD & pL & pR & Hq & _ & _ & (HU & _) & _ & (_ & HL) & _).
  exists pU, pD, pL, pR. split; [exact Hq|].
  split; [|split; [exact HU|exact HL]].
  vm_compute in Hq. injection Hq as <- <- <- <-. vm_compute. reflexivity.
Defined.

(** C3, as stated, fails twice.  After ghost 0 was seen to go Left twice,
    the four probabilities are doubles that do not add up to 1, neither
    exactly nor when they are added up in doubles from the left or from
    the right.  And for an index the model has no table for, here 4, the
    query throws instead of answering with a distribution. *)
Lemma move_probabilities_miss_one_and_throw :
  (exists pU pD pL pR : Q,
     InDoubles.getGhostMoveProbabilities 0 (Pos 0 0) (Pos 50 0) (seenOften LEFT 2)
     = Some ([(UP, pU); (DOWN, pD); (LEFT, pL); (RIGHT, pR)], seenOften LEFT 2) /\
     ~ (pU + pD + pL + pR == 1)%Q /\
     ~ (Double.add (Double.add (Double.add pU pD) pL) pR == 1)%Q /\
     ~ (Double.add pU (Double.add pD (Double.add pL pR)) == 1)%Q) /\
  InDoubles.getGhostMoveProbabilities 4 (Pos 0 0) (Pos 50 0) initialModel = None.
Proof.
  split; [|vm_compute; reflexivity].
  eexists; eexists; eexists; eexists. split; [vm_compute; reflexivity|].
  repeat split; vm_compute; discriminate.
Qed.

Lemma count_below_total (obs : bucket) (d : direction) :
  (count obs d + 4 <= 4 + nUP obs + nDOWN obs + nLEFT obs + nRIGHT obs)%N.
Proof. destruct d; simpl; lia. Qed.

Lemma Qdiv_plus_inv_le (a b : Z) (p q r : positive) :
  (a * Zpos r + Zpos p) * Zpos q <= b * (Zpos p * Zpos r) ->
  (inject_Z a / inject_Z (Zpos p) + / inject_Z (Zpos r)
   <= inject_Z b / inject_Z (Zpos q))%Q.
Proof.
  intros H.
  unfold Qle, Qplus, Qdiv, Qmult, Qinv, inject_Z. cbn [Qnum Qden].
  rewrite !Z.mul_1_r, !Pos.mul_1_l, !Z.mul_1_l. rewrite !Pos2Z.inj_mul.
  exact H.
Qed.

(** Two smoothed frequencies, before and after one more observation of
    the direction, are at least 2^-52 apart as long as the total before
    is at most 10^8 + 4. *)
Lemma smoothed_gap (x total : N) :
  (x + 4 <= total)%N -> (total <= 100000004)%N ->
  (inject_Z (Z.of_N (x + 1)) / inject_Z (Z.of_N total) + Double.pow2 (-52)
   <= inject_Z (Z.of_N (x + 1 + 1)) / inject_Z (Z.of_N (total + 1)))%Q.
Proof.
  intros Hx Htot.
  set (a := Z.of_N (x + 1)).
  assert (Ea : Z.of_N (x + 1 + 1) = a + 1) by (unfold a; lia).
  rewrite Ea.
  assert (Ha0 : 0 < a) by (unfold a; lia).
  assert (Hap : a + 3 <= Z.of_N total) by (unfold a; lia).
  assert (Hp8 : Z.of_N total <= 100000004) by lia.
  assert (Ep : Z.of_N (total + 1) = Z.of_N total + 1) by lia.
  rewrite Ep. clearbody a. clear Ea Ep Hx Htot.
  destruct (Z.of_N total) as [|p|p]; try lia.
  change (Double.pow2 (-52)) with (/ inject_Z (Zpos (2 ^ 52)))%Q.
  replace (Z.pos p + 1) with (Z.pos (p + 1)) by lia.
  apply Qdiv_plus_inv_le.
  rewrite Pos2Z.inj_add.
  assert (Hsq : Z.pos p * (Z.pos p + 1) <= 100000004 * 100000005) by nia.
  change (Z.pos (2 ^ 52)) with 4503599627370496.
  nia.
Qed.

(** What the learner holds after ghost 0 was seen [n + 1] times to go Up
    in the one situation: a bucket with that count and no other. *)
Lemma seenOften_up (n : N) :
  exists tbl : gmap string bucket,
    ghostObservations (seenOften UP (N.succ n)) !! 0%nat = Some tbl /\
    tbl !! getSituation (Pos 0 0) (Pos 50 0) = Some (Bucket (N.succ n) 0 0 0).
Proof.
  induction n as [|n IH] using N.peano_ind.
  - eexists. split; vm_compute; reflexivity.
  - destruct IH as (tbl & Htbl & Hobs).
    unfold seenOften in *. rewrite N.iter_succ.
    set (st := N.iter (N.succ n) _ initialModel) in *.
    rewrite (record_run st 0 (Pos 0 0) (Pos 50 0) tbl UP ltac:(discriminate) Htbl).
    cbn [ghostObservations]. eexists. split; [apply lookup_insert_eq|].
    rewrite lookup_insert_eq. rewrite Hobs. cbn [default from_option id incr nUP nDOWN nLEFT nRIGHT].
    replace (N.succ n + 1)%N with (N.succ (N.succ n)) by lia. reflexivity.
Qed.

(** C8, as the code has it.  As long as fewer than 2^53 - 4 moves were
    counted for the situation, recording a move [d] for a ghost never
    lowers the probability the model gives to [d] for that ghost in that
    situation, and with at most 10^8 moves counted it raises it strictly:
    the query after the recording returns more for [d] than the query
    before it. *)
Theorem record_move_raises_probability (st : model) (ghostIdx : nat)
    (ghostPos pacmanPos ghostPos' pacmanPos' : pos) (d : direction) :
  d <> NONE ->
  is_Some (ghostObservations st !! ghostIdx) ->
  getSituation ghostPos' pacmanPos' = getSituation ghostPos pacmanPos ->
  (observedTotal st ghostIdx ghostPos pacmanPos + 5 <= 2 ^ 53)%N ->
  exists (st' : model) (before after : probs) (qb qa : Q),
    InDoubles.getGhostMoveProbabilities ghostIdx ghostPos' pacmanPos' st
    = Some (before, st) /\
    recordGhostMove ghostIdx ghostPos pacmanPos d st = Some (tt, st') /\
    InDoubles.getGhostMoveProbabilities ghostIdx ghostPos' pacmanPos' st'
    = Some (after, st') /\
    probOf before d = Some qb /\ probOf after d = Some qa /\
    (qb <= qa)%Q /\
    ((observedTotal st ghostIdx ghostPos pacmanPos <= 100000000)%N -> (qb < qa)%Q).
Proof.
  intros Hd [tbl Htbl] Hsit Hbound.
  pose proof (record_run st ghostIdx ghostPos pacmanPos tbl d Hd Htbl) as Hrec.
  set (situation := getSituation ghostPos pacmanPos) in *.
  set (obs' := incr (default zeroBucket (tbl !! situation)) d) in *.
  set (st' := Model _ _ _) in Hrec.
  assert (Htbl' : ghostObservations st' !! ghostIdx = Some (<[situation := obs']> tbl)).
  { unfold st'. simpl. apply lookup_insert_eq. }
  assert (Hobs' : <[situation := obs']> tbl !! getSituation ghostPos' pacmanPos'
                  = Some obs').
  { rewrite Hsit. apply lookup_insert_eq. }
  destruct (tbl !! situation) as [obs|] eqn:Hobs.
  - rewrite (observedTotal_seen st ghostIdx ghostPos pacmanPos tbl obs Htbl Hobs)
      in Hbound |- *.
    set (total := (4 + nUP obs + nDOWN obs + nLEFT obs + nRIGHT obs)%N).
    assert (Hc : count obs' d = (count obs d + 1)%N)
      by (unfold obs'; simpl; destruct d; try congruence; reflexivity).
    assert (Ht : (4 + nUP obs' + nDOWN obs' + nLEFT obs' + nRIGHT obs' = total + 1)%N)
      by (unfold obs', total; simpl; destruct d; try congruence; simpl; lia).
    assert (Hobs0 : tbl !! getSituation ghostPos' pacmanPos' = Some obs)
      by (rewrite Hsit; exact Hobs).
    pose proof (query64_seen st ghostIdx ghostPos' pacmanPos' tbl obs Htbl Hobs0
                  ltac:(lia)) as Hbefore.
    pose proof (query64_seen st' ghostIdx ghostPos' pacmanPos' _ obs' Htbl' Hobs'
                  ltac:(lia)) as Hafter.
    cbv beta in Hbefore, Hafter.
    exists st'. eexists; eexists.
    exists (Double.div (inject_Z (Z.of_N (count obs d + 1))) (inject_Z (Z.of_N total))).
    exists (Double.div (inject_Z (Z.of_N (count obs' d + 1)))
              (inject_Z (Z.of_N (4 + nUP obs' + nDOWN obs' + nLEFT obs' + nRIGHT obs')))).
    split; [exact Hbefore|]. split; [exact Hrec|]. split; [exact Hafter|].
    split; [destruct d; try congruence; reflexivity|].
    split; [destruct d; try congruence; reflexivity|].
    rewrite Hc, Ht.
    destruct (smoothed_bounds (count obs d) total (count_le_total obs d)) as [Hpos _].
    pose proof (smoothed_grows (count obs d) total (count_le_total obs d)) as Hgrow.
    split.
    + unfold Double.div. apply binary64_monotone; [exact Hpos|].
      apply Qlt_le_weak. exact Hgrow.
    + intros Hsmall. unfold Double.div. apply binary64_separates.
      * exact Hpos.
      * apply Qlt_le_weak.
        apply (smoothed_bounds (count obs d + 1) (total + 1)).
        pose proof (count_le_total obs d). fold total in H. lia.
      * apply smoothed_gap; [apply (count_below_total obs d)|unfold total; lia].
  - assert (Hobs0 : tbl !! getSituation ghostPos' pacmanPos' = None)
      by (rewrite Hsit; exact Hobs).
    pose proof (query64_unseen st ghostIdx ghostPos' pacmanPos' tbl Htbl Hobs0) as Hbefore.
    pose proof (query64_seen st' ghostIdx ghostPos' pacmanPos' _ obs' Htbl' Hobs'
                  ltac:(unfold obs'; destruct d; vm_compute; discriminate)) as Hafter.
    cbv beta in Hafter.
    exists st'. eexists; eexists.
    exists 0.25%Q.
    exists (Double.div (inject_Z (Z.of_N (count obs' d + 1)))
              (inject_Z (Z.of_N (4 + nUP obs' + nDOWN obs' + nLEFT obs' + nRIGHT obs')))).
    split; [exact Hbefore|]. split; [exact Hrec|]. split; [exact Hafter|].
    split; [destruct d; try congruence; reflexivity|].
    split; [destruct d; try congruence; reflexivity|].
    unfold obs'. split; [|intros _]; destruct d; try congruence; vm_compute;
      first [reflexivity | discriminate].
Qed.

(** Ghost 0 is seen to move Left for the first time: the probability of
    Left in that situation goes from 1/4 to the double nearest to 2/5. *)
Lemma record_move_raises_probability_witness :
  LEFT <> NONE /\
  is_Some (ghostObservations initialModel !! 0%nat) /\
  (observedTotal initialModel 0 (Pos 0 0) (Pos 50 0) + 5 <= 2 ^ 53)%N /\
  exists (st' : model) (before after : probs) (qb qa : Q),
    InDoubles.getGhostMoveProbabilities 0 (Pos 0 0) (Pos 50 0) initialModel
      = Some (before, initialModel) /\
    recordGhostMove 0 (Pos 0 0) (Pos 50 0) LEFT initialModel = Some (tt, st') /\
    InDoubles.getGhostMoveProbabilities 0 (Pos 0 0) (Pos 50 0) st' = Some (after, st') /\
    probOf before LEFT = Some qb /\ probOf after LEFT = Some qa /\
    qb = 0.25%Q /\ qa = Double.div 2 5 /\ (qb < qa)%Q.
Proof.
  assert (Hd : LEFT <> NONE) by discriminate.
  assert (H : is_Some (ghostObservations initialModel !! 0%nat))
    by (vm_compute; eauto).
  assert (Hb : (observedTotal initialModel 0 (Pos 0 0) (Pos 50 0) + 5 <= 2 ^ 53)%N)
    by (vm_compute; discriminate).
  split; [exact Hd|]. split; [exact H|]. split; [exact Hb|].
  destruct (record_move_raises_probability initialModel 0 (Pos 0 0) (Pos 50 0)
              (Pos 0 0) (Pos 50 0) LEFT Hd H eq_refl Hb)
    as (st' & before & after & qb & qa & Hbefore & Hr & Ha & Hpb & Hpa & _ & Hlt).
  exists st', before, after, qb, qa.
  split; [exact Hbefore|]. split; [exact Hr|]. split; [exact Ha|].
  split; [exact Hpb|]. split; [exact Hpa|].
  assert (Hsmall : (observedTotal initialModel 0 (Pos 0 0) (Pos 50 0) <= 100000000)%N)
    by (vm_compute; discriminate).
  split; [|split; [|exact (Hlt Hsmall)]].
  - vm_compute in Hbefore. injection Hbefore as <-.
    vm_compute in Hpb. injection Hpb as <-. reflexivity.
  - vm_compute in Hr. injection Hr as <-.
    vm_compute in Ha. injection Ha as <-.
    vm_compute in Hpa. injection Hpa as <-. vm_compute. reflexivity.
Defined.

(** C8, as stated, fails.  After ghost 0 was seen 166486343 times to go
    Up in one situation, and never another way, the probability of Up is
    a double that one more observation of Up leaves as it is: the two
    quotients, 166486344/166486347 and 166486345/166486348, are nearest
    to the same double. *)
Lemma record_move_leaves_probability_unchanged :
  exists (st' : model) (before after : probs) (q : Q),
    InDoubles.getGhostMoveProbabilities 0 (Pos 0 0) (Pos 50 0) (seenOften UP 166486343)
    = Some (before, seenOften UP 166486343) /\
    recordGhostMove 0 (Pos 0 0) (Pos 50 0) UP (seenOften UP 166486343) = Some (tt, st') /\
    InDoubles.getGhostMoveProbabilities 0 (Pos 0 0) (Pos 50 0) st' = Some (after, st') /\
    probOf before UP = Some q /\ probOf after UP = Some q.
Proof.
  destruct (seenOften_up 166486342) as (tbl & Htbl & Hobs).
  change (N.succ 166486342) with 166486343%N in Htbl, Hobs.
  set (st := seenOften UP 166486343) in *.
  pose proof (record_run st 0 (Pos 0 0) (Pos 50 0) tbl UP ltac:(discriminate) Htbl)
    as Hrec.
  rewrite Hobs in Hrec. cbn [default from_option id incr nUP nDOWN nLEFT nRIGHT] in Hrec.
  set (st' := Model _ _ _) in Hrec.
  pose proof (query64_seen st 0 (Pos 0 0) (Pos 50 0) tbl _ Htbl Hobs
                ltac:(vm_compute; discriminate)) as Hbefore.
  pose proof (query64_seen st' 0 (Pos 0 0) (Pos 50 0) _ _
                ltac:(apply lookup_insert_eq) ltac:(apply lookup_insert_eq)
                ltac:(vm_compute; discriminate)) as Hafter.
  cbv beta in Hbefore, Hafter.
  exists st'. eexists; eexists; eexists.
  split; [exact Hbefore|]. split; [exact Hrec|]. split; [exact Hafter|].
  split; [reflexivity|]. vm_compute. reflexivity.
Qed.

(** C10.  The query is read-only: when it answers, the learner's
    variables (the table, the counter, the confidence) are exactly what
    they were; and for a situation without a bucket it answers with four
    quarters and the table of that ghost still has no bucket for it. *)
Theorem move_probabilities_read_only (st : model) (ghostIdx : nat)
    (ghostPos pacmanPos : pos) :
  (forall (r : probs) (st' : model),
      getGhostMoveProbabilities ghostIdx ghostPos pacmanPos st = Some (r, st') ->
      ghostObservations st' = ghostObservations st /\
      totalObservations st' = totalObservations st /\
      st' = st) /\
  (forall tbl : gmap string bucket,
      ghostObservations st !! ghostIdx = Some tbl ->
      tbl !! getSituation ghostPos pacmanPos = None ->
      exists st' : model,
        getGhostMoveProbabilities ghostIdx ghostPos pacmanPos st
        = Some ([(UP, 0.25%Q); (DOWN, 0.25%Q); (LEFT, 0.25%Q); (RIGHT, 0.25%Q)], st') /\
        ghostObservations st' !! ghostIdx = Some tbl /\
        totalObservations st' = totalObservations st).
Proof.
  split.
  - intros r st' Hq. apply query_state in Hq. subst st'. auto.
  - intros tbl Htbl Hobs. exists st.
    split; [apply (query_unseen st ghostIdx ghostPos pacmanPos tbl Htbl Hobs)|].
    split; [exact Htbl|reflexivity].
Qed.

(** A query for ghost 2 on the fresh model: the table of ghost 2 is still
    empty afterwards. *)
Lemma move_probabilities_read_only_witness :
  exists st' : model,
    getGhostMoveProbabilities 2 (Pos 0 0) (Pos 50 0) initialModel
    = Some ([(UP, 0.25%Q); (DOWN, 0.25%Q); (LEFT, 0.25%Q); (RIGHT, 0.25%Q)], st') /\
    ghostObservations st' !! 2%nat = Some ∅ /\
    totalObservations st' = 0%N.
Proof.
  destruct (move_probabilities_read_only initialModel 2 (Pos 0 0) (Pos 50 0))
    as [_ Hunseen].
  apply (Hunseen ∅); vm_compute; reflexivity.
Defined.

(** ** Static evaluator *)

(** The evaluator never reads [isDangerous]: two lists of states with the
    same [isEdible] flags give the same split, hence the same score. *)
Lemma splitGhosts_ignores_isDangerous (ghostPositions : list pos)
    (states states' : list ghostState) :
  List.map isEdible states = List.map isEdible states' ->
  forall (i : nat) (dangerous edible : list pos),
    splitGhosts i ghostPositions states dangerous edible
    = splitGhosts i ghostPositions states' dangerous edible.
Proof.
  intros Hsame. induction ghostPositions as [|g rest IH]; intros i dangerous edible.
  - reflexivity.
  - simpl.
    assert (Hi : isEdible <$> (states !! i) = isEdible <$> (states' !! i)).
    { rewrite <- !list_lookup_fmap. change (fmap isEdible) with (List.map isEdible).
      rewrite Hsame. reflexivity. }
    destruct (states !! i) as [s|], (states' !! i) as [s'|]; simpl in Hi;
      try discriminate; [|reflexivity].
    injection Hi as Hi. rewrite Hi. destruct (isEdible s'); apply IH.
Qed.

Lemma evaluateState_ignores_isDangerous (map : gameMap) (pacmanPos : pos)
    (ghostPositions : list pos) (states states' : list ghostState) :
  List.map isEdible states = List.map isEdible states' ->
  evaluateState map pacmanPos ghostPositions states
  = evaluateState map pacmanPos ghostPositions states'.
Proof.
  intros Hsame. unfold evaluateState.
  rewrite (splitGhosts_ignores_isDangerous ghostPositions states states' Hsame).
  reflexivity.
Qed.

(** C6.  The evaluator counts a respawning ghost (neither edible nor
    dangerous) as dangerous.  With such a ghost on the agent's cell and
    nothing else on the map the score is -2000, the same as for a ghost
    flagged dangerous, while the score without the ghost is 0. *)
Theorem evaluator_penalizes_respawning_ghost :
  isEdible respawning = false /\ isDangerous respawning = false /\
  evaluateState wallMap (Pos 0 0) [Pos 0 0] [respawning] = Some (-2000)%Q /\
  evaluateState wallMap (Pos 0 0) [Pos 0 0] [GhostState false true] = Some (-2000)%Q /\
  evaluateState wallMap (Pos 0 0) [] [] = Some 0%Q.
Proof.
  repeat split; vm_compute; reflexivity.
Qed.

(** ** A-star *)

Import AStar.

(** A neighbour is never taken up while the score stored for the expanded
    node is 0: [0 || Infinity] is [Infinity], and so is the tentative
    score. *)
Lemma relax_zero_score (map : gameMap) (goalGrid current neighbor : cell)
    (s : search) :
  gScore s !! current = Some 0 -> relax map goalGrid current s neighbor = s.
Proof.
  intros H. unfold relax. rewrite H. simpl.
  destruct (isFloorSpace map neighbor); reflexivity.
Qed.

Lemma relax_nodes (map : gameMap) (goalGrid current neighbor : cell) (s : search) :
  nodesEvaluated (relax map goalGrid current s neighbor) = nodesEvaluated s.
Proof.
  unfold relax. destruct (negb (isFloorSpace map neighbor)); [reflexivity|].
  destruct (score_succ (orInfinity (gScore s !! current))) as [g|]; [|reflexivity].
  destruct (score_ltb (Finite g) (orInfinity (gScore s !! neighbor))); reflexivity.
Qed.

Lemma relax_all_nodes (map : gameMap) (goalGrid current : cell)
    (neighbors : list cell) (s : search) :
  nodesEvaluated (fold_left (relax map goalGrid current) neighbors s)
  = nodesEvaluated s.
Proof.
  revert s. induction neighbors as [|n rest IH]; intros s; [reflexivity|].
  simpl. rewrite IH. apply relax_nodes.
Qed.

Lemma relax_all_zero_score (map : gameMap) (goalGrid current : cell)
    (neighbors : list cell) (s : search) :
  gScore s !! current = Some 0 ->
  fold_left (relax map goalGrid current) neighbors s = s.
Proof.
  intros H. induction neighbors as [|n rest IH]; [reflexivity|].
  simpl. rewrite relax_zero_score by exact H. exact IH.
Qed.

(** From its entry point a search never expands more than the start node:
    the start has score 0, so none of its neighbours is opened, and the
    search answers [NONE] with a count of 1 whatever the map and the
    goal. *)
Lemma astar_stops_after_one_node (map : gameMap) (start goal : pos) :
  astar map start goal = Some (NONE, 1).
Proof.
  unfold astar. set (startGrid := toGrid start). set (goalGrid := toGrid goal).
  unfold initialSearch. cbn [searchLoop openSet].
  unfold expand. cbn [lowest openSet fScore fold_left cameFrom nodesEvaluated gScore].
  destruct (bool_decide (startGrid = goalGrid)) eqn:Hgoal.
  - rewrite map_size_empty. cbn [reconstruct]. rewrite lookup_empty.
    cbn. reflexivity.
  - cbn [mbind option_bind].
    rewrite relax_all_zero_score by (cbn [gScore]; apply lookup_insert_eq).
    cbn [nodesEvaluated List.filter]. rewrite bool_decide_eq_true_2 by reflexivity.
    cbn. reflexivity.
Qed.

Lemma pathResult_nodes (startGrid : cell) (path : list cell) (nodes : Z) :
  (pathResult startGrid path nodes).2 = nodes.
Proof. destruct path as [|c0 [|c1 rest]]; reflexivity. Qed.

(** No search that starts a pass with at most 500 nodes counted ever
    reports more than 501. *)
Lemma searchLoop_count_bound (map : gameMap) (startGrid goalGrid : cell)
    (fuel : nat) :
  forall (s : search) (r : direction * Z),
    nodesEvaluated s <= 500 ->
    searchLoop fuel map startGrid goalGrid s = Some r ->
    r.2 <= 501.
Proof.
  induction fuel as [|fuel' IH]; intros s r Hn Hrun.
  - simpl in Hrun. destruct (openSet s); [|discriminate].
    injection Hrun as <-. cbn [snd]. lia.
  - cbn [searchLoop] in Hrun. destruct (openSet s) as [|c0 open] eqn:Hopen.
    + injection Hrun as <-. cbn [snd]. lia.
    + unfold expand in Hrun. rewrite Hopen in Hrun.
      destruct (lowest (fScore s) (c0 :: open)) as [current|].
      * destruct (bool_decide (current = goalGrid)).
        -- destruct (reconstruct _ _ _ _) as [path|]; cbn [mbind option_bind] in Hrun;
             [|discriminate].
           injection Hrun as <-. rewrite pathResult_nodes. lia.
        -- cbv beta iota zeta in Hrun. rewrite relax_all_nodes in Hrun.
           cbn [nodesEvaluated] in Hrun.
           destruct (500 <? nodesEvaluated s + 1) eqn:Hcap.
           ++ injection Hrun as <-. cbn [snd]. lia.
           ++ eapply IH; [|exact Hrun].
              rewrite relax_all_nodes. cbn [nodesEvaluated].
              apply Z.ltb_ge in Hcap. lia.
      * injection Hrun as <-. cbn [snd]. lia.
Qed.

(** One pass of the loop that starts with 500 nodes counted and does not
    take the goal from the open set ends the search with a count of 501:
    the count is raised before it is tested against 500.  By
    [astar_stops_after_one_node] no call of [astar] comes to such a pass. *)
Lemma cap_pass_counts_501 (fuel : nat) (map : gameMap)
    (startGrid goalGrid current : cell) (s : search) :
  nodesEvaluated s = 500 ->
  lowest (fScore s) (openSet s) = Some current ->
  current <> goalGrid ->
  searchLoop (S fuel) map startGrid goalGrid s = Some (NONE, 501).
Proof.
  intros Hn Hlow Hgoal.
  destruct (openSet s) as [|c0 open] eqn:Hopen; [discriminate|].
  cbn [searchLoop]. rewrite Hopen. unfold expand. rewrite Hopen, Hlow.
  rewrite bool_decide_eq_false_2 by exact Hgoal.
  rewrite relax_all_nodes. cbn [nodesEvaluated]. rewrite Hn. reflexivity.
Qed.


(** C9, at the tunnel scenario.  The code that names the direction of a
    first edge is as C9 has it: Left for the edge from the left
    mouth (0, 10) to the right mouth (18, 10), Right for the edge back.
    But a search never comes to it.  From the left mouth to the right
    mouth, or to the cell (17, 10) just past it, and from the right mouth
    to the left one, [astar] answers [NONE] after one node on every map,
    for the reason given at C5. *)
Theorem astar_tunnel_scenario_returns_none :
  toGrid (Pos 0 100) = Cell 0 TUNNEL_ROW /\
  toGrid (Pos 180 100) = Cell (MAP_WIDTH - 1) TUNNEL_ROW /\
  firstDirection (Cell 0 TUNNEL_ROW) (Cell (MAP_WIDTH - 1) TUNNEL_ROW) = LEFT /\
  firstDirection (Cell (MAP_WIDTH - 1) TUNNEL_ROW) (Cell 0 TUNNEL_ROW) = RIGHT /\
  forall map : gameMap,
    astar map (Pos 0 100) (Pos 180 100) = Some (NONE, 1) /\
    astar map (Pos 0 100) (Pos 170 100) = Some (NONE, 1) /\
    astar map (Pos 180 100) (Pos 0 100) = Some (NONE, 1).
Proof.
  split; [reflexivity|]. split; [reflexivity|].
  split; [reflexivity|]. split; [reflexivity|].
  intros map. repeat split; apply astar_stops_after_one_node.
Qed.

(** ** Minimax: pruning *)

Lemma num_max_finite (a : num) (q : Q) : lowerBound a -> finite (num_max a (Fin q)).
Proof.
  intros [->|[x ->]].
  - exists q. reflexivity.
  - unfold num_max, num_ltb. destruct (Qltb x q); eexists; reflexivity.
Qed.

Lemma no_cut (a : num) : finite a -> num_leb PosInf a = false.
Proof. intros [q ->]. reflexivity. Qed.

Section Maximize.

Variables (pacmanPos : pos).

(** The plain maximum over finite values is finite. *)
Lemma maximizeAll_finite (child : pos -> option (num * nat)) :
  (forall (p : pos) (v : num) (n : nat), child p = Some (v, n) -> finite v) ->
  forall (moves : list direction) (maxEval : num) (nodes : nat) (r : num * nat),
    maximizeAll child pacmanPos moves maxEval nodes = Some r ->
    finite maxEval \/ (maxEval = NegInf /\ moves <> []) ->
    finite r.1.
Proof.
  intros Hchild moves. induction moves as [|move rest IH];
    intros maxEval nodes r Hrun Hstart.
  - simpl in Hrun. injection Hrun as <-. simpl.
    destruct Hstart as [H|[_ H]]; [exact H|congruence].
  - simpl in Hrun.
    destruct (delta 10 move) as [[ddx ddy]|]; simpl in Hrun; [|discriminate].
    destruct (child _) as [[v n]|] eqn:Hc; simpl in Hrun; [|discriminate].
    destruct (Hchild _ _ _ Hc) as [q ->].
    apply (IH _ _ _ Hrun). left. apply num_max_finite.
    destruct Hstart as [H|[-> _]]; [right; exact H|left; reflexivity].
Qed.

(** With [beta = Infinity] and finite values underneath, the loop with
    the [break] never breaks: it is the plain maximum. *)
Lemma maximize_never_cuts (child : pos -> num -> option (num * nat))
    (child' : pos -> option (num * nat)) :
  (forall (p : pos) (a : num), lowerBound a -> child p a = child' p) ->
  (forall (p : pos) (v : num) (n : nat), child' p = Some (v, n) -> finite v) ->
  forall (moves : list direction) (maxEval alpha : num) (nodes : nat),
    lowerBound alpha ->
    maximize child pacmanPos PosInf moves maxEval alpha nodes
    = maximizeAll child' pacmanPos moves maxEval nodes.
Proof.
  intros Hsame Hfin moves. induction moves as [|move rest IH];
    intros maxEval alpha nodes Halpha; [reflexivity|].
  cbn -[num_max num_leb].
  destruct (delta 10 move) as [[ddx ddy]|]; cbn -[num_max num_leb]; [|reflexivity].
  rewrite (Hsame _ _ Halpha).
  destruct (child' _) as [[v n]|] eqn:Hc; cbn -[num_max num_leb]; [|reflexivity].
  destruct (Hfin _ _ _ Hc) as [q ->].
  rewrite (no_cut _ (num_max_finite alpha q Halpha)).
  apply IH. right. apply num_max_finite. exact Halpha.
Qed.

End Maximize.

(** The searches at a positive depth, one step unfolded. *)
Lemma minimaxNoPruning_step (map : gameMap) (pacmanPos : pos)
    (ghostPositions : list pos) (ghostStates : list ghostState) (depth' : nat)
    (isMaximizing : bool) :
  minimaxNoPruning map pacmanPos ghostPositions ghostStates (S depth') isMaximizing
  = match getValidMoves map pacmanPos with
    | [] =>
        v ← evaluateState map pacmanPos ghostPositions ghostStates;
        Some (Fin v, 1%nat)
    | validMoves =>
        if isMaximizing then
          maximizeAll
            (fun newPos =>
               minimaxNoPruning map newPos ghostPositions ghostStates depth' false)
            pacmanPos validMoves NegInf 1%nat
        else
          newGhostPositions ← chaseAll map pacmanPos 0 ghostPositions ghostStates;
          '(evalScore, n) ←
            minimaxNoPruning map pacmanPos newGhostPositions ghostStates depth' true;
          Some (num_min PosInf evalScore, S n)
    end.
Proof. reflexivity. Qed.

Lemma minimax_step (map : gameMap) (pacmanPos : pos)
    (ghostPositions : list pos) (ghostStates : list ghostState) (depth' : nat)
    (isMaximizing : bool) (alpha beta : num) :
  minimax map pacmanPos ghostPositions ghostStates (S depth') isMaximizing alpha beta
  = match getValidMoves map pacmanPos with
    | [] =>
        v ← evaluateState map pacmanPos ghostPositions ghostStates;
        Some (Fin v, 1%nat)
    | validMoves =>
        if isMaximizing then
          maximize
            (fun newPos a =>
               minimax map newPos ghostPositions ghostStates depth' false a beta)
            pacmanPos beta validMoves NegInf alpha 1%nat
        else
          newGhostPositions ← chaseAll map pacmanPos 0 ghostPositions ghostStates;
          '(evalScore, n) ←
            minimax map pacmanPos newGhostPositions ghostStates depth' true alpha beta;
          Some (num_min PosInf evalScore, S n)
    end.
Proof. reflexivity. Qed.

(** Every value of the search without pruning is finite. *)
Lemma minimaxNoPruning_finite (map : gameMap) (ghostStates : list ghostState)
    (depth : nat) :
  forall (pacmanPos : pos) (ghostPositions : list pos) (isMaximizing : bool)
         (v : num) (n : nat),
    minimaxNoPruning map pacmanPos ghostPositions ghostStates depth isMaximizing
    = Some (v, n) ->
    finite v.
Proof.
  induction depth as [|depth' IH]; intros pacmanPos ghostPositions isMaximizing v n Hrun.
  - simpl in Hrun.
    destruct (evaluateState _ _ _ _) as [q|]; simpl in Hrun; [|discriminate].
    injection Hrun as <- _. exists q. reflexivity.
  - rewrite minimaxNoPruning_step in Hrun.
    destruct (getValidMoves map pacmanPos) as [|m moves] eqn:Hmoves.
    + destruct (evaluateState _ _ _ _) as [q|]; simpl in Hrun; [|discriminate].
      injection Hrun as <- _. exists q. reflexivity.
    + destruct isMaximizing.
      * apply (maximizeAll_finite pacmanPos _
                 (fun p v n => IH p ghostPositions false v n) _ _ _ _ Hrun).
        right. split; [reflexivity|discriminate].
      * destruct (chaseAll _ _ _ _ _) as [moved|]; cbn [mbind option_bind] in Hrun;
          [|discriminate].
        destruct (minimaxNoPruning _ _ _ _ _ _) as [[v' n']|] eqn:Hc;
          cbn [mbind option_bind] in Hrun; [|discriminate].
        destruct (IH _ _ _ _ _ Hc) as [q ->].
        injection Hrun as <- _. exists q. reflexivity.
Qed.

(** The search called with [beta = Infinity] and a lower bound that is not
    [Infinity] is the search without pruning: same value, same nodes. *)
Lemma minimax_is_minimaxNoPruning (map : gameMap) (ghostStates : list ghostState)
    (depth : nat) :
  forall (pacmanPos : pos) (ghostPositions : list pos) (isMaximizing : bool)
         (alpha : num),
    lowerBound alpha ->
    minimax map pacmanPos ghostPositions ghostStates depth isMaximizing alpha PosInf
    = minimaxNoPruning map pacmanPos ghostPositions ghostStates depth isMaximizing.
Proof.
  induction depth as [|depth' IH];
    intros pacmanPos ghostPositions isMaximizing alpha Halpha; [reflexivity|].
  rewrite minimax_step, minimaxNoPruning_step.
  destruct (getValidMoves map pacmanPos) as [|m moves]; [reflexivity|].
  destruct isMaximizing.
  - apply maximize_never_cuts.
    + intros p a Ha. apply IH. exact Ha.
    + intros p v n. apply minimaxNoPruning_finite.
    + exact Halpha.
  - destruct (chaseAll _ _ _ _ _) as [moved|]; cbn [mbind option_bind]; [|reflexivity].
    rewrite IH by exact Halpha. reflexivity.
Qed.

(** *** The searches answer *)

Lemma splitGhosts_total (ghostStates : list ghostState) (ghostPositions : list pos) :
  forall (i : nat) (dangerous edible : list pos),
    (i + length ghostPositions <= length ghostStates)%nat ->
    is_Some (splitGhosts i ghostPositions ghostStates dangerous edible).
Proof.
  induction ghostPositions as [|g rest IH]; intros i dangerous edible Hlen.
  - simpl. eauto.
  - simpl in Hlen |- *.
    destruct (lookup_lt_is_Some_2 ghostStates i ltac:(lia)) as [s Hs].
    rewrite Hs. destruct (isEdible s); apply IH; lia.
Qed.

Lemma evaluateState_total (map : gameMap) (pacmanPos : pos)
    (ghostPositions : list pos) (ghostStates : list ghostState) :
  (length ghostPositions <= length ghostStates)%nat ->
  is_Some (evaluateState map pacmanPos ghostPositions ghostStates).
Proof.
  intros Hlen. unfold evaluateState.
  destruct (splitGhosts_total ghostStates ghostPositions 0 [] [] ltac:(simpl; lia))
    as [[dangerous edible] Hsplit].
  rewrite Hsplit. simpl. eauto.
Qed.

Lemma validMove_not_NONE (map : gameMap) (p : pos) (m : direction) :
  In m (getValidMoves map p) -> m <> NONE.
Proof.
  unfold getValidMoves. intros H. apply filter_In in H as [H _].
  simpl in H. intuition congruence.
Qed.

Lemma delta_defined (unit : Z) (m : direction) : m <> NONE -> is_Some (delta unit m).
Proof. destruct m; simpl; eauto. congruence. Qed.

Lemma maximizeAll_total (child : pos -> option (num * nat)) (pacmanPos : pos) :
  (forall p : pos, is_Some (child p)) ->
  forall (moves : list direction) (maxEval : num) (nodes : nat),
    (forall m : direction, In m moves -> m <> NONE) ->
    is_Some (maximizeAll child pacmanPos moves maxEval nodes).
Proof.
  intros Hchild moves. induction moves as [|move rest IH]; intros maxEval nodes Hmoves.
  - simpl. eauto.
  - cbn -[num_max].
    destruct (delta_defined 10 move (Hmoves move (or_introl eq_refl))) as [[ddx ddy] ->].
    cbn -[num_max].
    destruct (Hchild (Pos (px pacmanPos + ddx) (py pacmanPos + ddy))) as [[v n] ->].
    cbn -[num_max]. apply IH. intros m Hm. apply Hmoves. right. exact Hm.
Qed.

(** With a state for every ghost the search without pruning answers, at
    every depth. *)
Lemma minimaxNoPruning_total (map : gameMap) (ghostStates : list ghostState)
    (depth : nat) :
  forall (pacmanPos : pos) (ghostPositions : list pos) (isMaximizing : bool),
    (length ghostPositions <= length ghostStates)%nat ->
    is_Some (minimaxNoPruning map pacmanPos ghostPositions ghostStates depth
               isMaximizing).
Proof.
  induction depth as [|depth' IH]; intros pacmanPos ghostPositions isMaximizing Hlen.
  - simpl. destruct (evaluateState_total map pacmanPos _ _ Hlen) as [v ->].
    simpl. eauto.
  - rewrite minimaxNoPruning_step.
    destruct (getValidMoves map pacmanPos) as [|m moves] eqn:Hmoves.
    + destruct (evaluateState_total map pacmanPos _ _ Hlen) as [v ->]. simpl. eauto.
    + destruct isMaximizing.
      * apply maximizeAll_total.
        -- intros p. apply IH. exact Hlen.
        -- intros m' Hm'. apply (validMove_not_NONE map pacmanPos).
           rewrite Hmoves. exact Hm'.
      * destruct (chaseAll_lookup map pacmanPos ghostStates ghostPositions 0
                    ltac:(simpl; lia)) as (moved & -> & Hsize & _).
        cbn [mbind option_bind].
        destruct (IH pacmanPos moved true ltac:(lia)) as [[v n] ->].
        cbn [mbind option_bind]. eauto.
Qed.

Lemma getOscillationPenalty_total (tr : tracker) (p : pos) (move : direction)
    (lastMove : option direction) :
  move <> NONE -> is_Some (getOscillationPenalty tr p move lastMove).
Proof.
  intros Hm. unfold getOscillationPenalty.
  destruct (delta_defined 1 move Hm) as [[ddx ddy] ->]. eauto.
Qed.

Section Root.

Import PacmanControllers.

Variables (tr : tracker) (pacmanPos : pos) (lastMove : option direction).

Lemma rootLoop_ext (search search' : pos -> option (num * nat)) :
  (forall p : pos, search p = search' p) ->
  forall (moves : list direction) (best : direction) (bestSc : num) (nodes : nat),
    rootLoop search tr pacmanPos lastMove moves best bestSc nodes
    = rootLoop search' tr pacmanPos lastMove moves best bestSc nodes.
Proof.
  intros Hsame moves. induction moves as [|move rest IH]; intros best bestSc nodes;
    [reflexivity|].
  cbn -[num_sub num_ltb].
  destruct (delta 10 move) as [[ddx ddy]|]; cbn -[num_sub num_ltb]; [|reflexivity].
  rewrite Hsame. destruct (search' _) as [[score n]|]; cbn -[num_sub num_ltb];
    [|reflexivity].
  destruct (getOscillationPenalty tr pacmanPos move lastMove) as [penalty|];
    cbn -[num_sub num_ltb]; [|reflexivity].
  rewrite !IH. reflexivity.
Qed.

Lemma rootLoop_total (search : pos -> option (num * nat)) :
  (forall p : pos, is_Some (search p)) ->
  forall (moves : list direction) (best : direction) (bestSc : num) (nodes : nat),
    (forall m : direction, In m moves -> m <> NONE) ->
    is_Some (rootLoop search tr pacmanPos lastMove moves best bestSc nodes).
Proof.
  intros Hsearch moves. induction moves as [|move rest IH];
    intros best bestSc nodes Hmoves.
  - simpl. eauto.
  - cbn -[num_sub num_ltb].
    assert (Hm : move <> NONE) by (apply Hmoves; left; reflexivity).
    destruct (delta_defined 10 move Hm) as [[ddx ddy] ->]. cbn -[num_sub num_ltb].
    destruct (Hsearch (Pos (px pacmanPos + ddx) (py pacmanPos + ddy))) as [[sc n] ->].
    cbn -[num_sub num_ltb].
    destruct (getOscillationPenalty_total tr pacmanPos move lastMove Hm) as [pen ->].
    cbn -[num_sub num_ltb].
    destruct (num_ltb _ _); apply IH; intros m' Hm'; apply Hmoves; right; exact Hm'.
Qed.

Lemma decide_ext (search search' : pos -> option (num * nat)) (map : gameMap) :
  (forall p : pos, search p = search' p) ->
  decide search tr map pacmanPos lastMove = decide search' tr map pacmanPos lastMove.
Proof.
  intros Hsame. unfold decide.
  destruct (getValidMoves map pacmanPos) as [|first rest]; [reflexivity|].
  rewrite (rootLoop_ext search search' Hsame). reflexivity.
Qed.

Lemma decide_total (search : pos -> option (num * nat)) (map : gameMap) :
  (forall p : pos, is_Some (search p)) ->
  is_Some (decide search tr map pacmanPos lastMove).
Proof.
  intros Hsearch. unfold decide.
  destruct (getValidMoves map pacmanPos) as [|first rest] eqn:Hmoves; [eauto|].
  destruct (rootLoop_total search Hsearch (first :: rest) first NegInf 0%nat)
    as [[[best bestSc] nodes] Hloop].
  - intros m Hm. apply (validMove_not_NONE map pacmanPos). rewrite Hmoves. exact Hm.
  - cbv beta iota. rewrite Hloop. simpl. eauto.
Qed.

End Root.

(** C4.  For every map, position of the agent, positions and states of
    the ghosts (one state per ghost), depth and last move, the minimax
    controller and the same controller over the search without pruning
    reach the same decision: the same move and the same best score; and
    for every root move the two searches return the same finite value. *)
Theorem pruning_preserves_minimax_decision (tr : tracker) (map : gameMap)
    (pacmanPos : pos) (ghostPositions : list pos) (ghostStates : list ghostState)
    (depth : nat) (lastMove : option direction) :
  (length ghostPositions <= length ghostStates)%nat ->
  (exists dec : PacmanControllers.decision,
      PacmanControllers.minimax tr map pacmanPos ghostPositions ghostStates depth
        lastMove = Some dec /\
      PacmanControllers.minimaxNoPruning tr map pacmanPos ghostPositions ghostStates
        depth lastMove = Some dec) /\
  (forall (newPos : pos) (d : nat),
      exists (value : Q) (pruned plain : nat),
        minimax map newPos ghostPositions ghostStates d false NegInf PosInf
        = Some (Fin value, pruned) /\
        minimaxNoPruning map newPos ghostPositions ghostStates d false
        = Some (Fin value, plain)).
Proof.
  intros Hlen. split.
  - unfold PacmanControllers.minimax, PacmanControllers.minimaxNoPruning.
    set (d := (PacmanControllers.orFour depth - 1)%nat).
    destruct (decide_total tr pacmanPos lastMove
                (fun newPos => minimaxNoPruning map newPos ghostPositions ghostStates d false)
                map) as [dec Hdec].
    { intros p. apply minimaxNoPruning_total. exact Hlen. }
    exists dec. split; [|exact Hdec].
    rewrite <- Hdec. apply decide_ext.
    intros p. apply minimax_is_minimaxNoPruning. left. reflexivity.
  - intros newPos d.
    destruct (minimaxNoPruning_total map ghostStates d newPos ghostPositions false Hlen)
      as [[v n] Hrun].
    destruct (minimaxNoPruning_finite _ _ _ _ _ _ _ _ Hrun) as [q ->].
    exists q, n, n. split; [|exact Hrun].
    rewrite minimax_is_minimaxNoPruning by (left; reflexivity). exact Hrun.
Qed.

(** A decision on the open map with one dangerous ghost three cells to
    the right, searched three plies deep. *)
Lemma pruning_preserves_minimax_decision_witness :
  (length [Pos 30 0] <= length [GhostState false true])%nat /\
  exists dec : PacmanControllers.decision,
    PacmanControllers.minimax twoVisits openMap (Pos 0 0) [Pos 30 0]
      [GhostState false true] 3 (Some NONE) = Some dec /\
    PacmanControllers.minimaxNoPruning twoVisits openMap (Pos 0 0) [Pos 30 0]
      [GhostState false true] 3 (Some NONE) = Some dec /\
    PacmanControllers.bestMove dec = UP.
Proof.
  assert (Hlen : (length [Pos 30 0] <= length [GhostState false true])%nat)
    by (simpl; lia).
  split; [exact Hlen|].
  destruct (pruning_preserves_minimax_decision twoVisits openMap (Pos 0 0) [Pos 30 0]
              [GhostState false true] 3 (Some NONE) Hlen)
    as [(dec & Hpruned & Hplain) _].
  exists dec. split; [exact Hpruned|]. split; [exact Hplain|].
  vm_compute in Hplain. injection Hplain as <-. reflexivity.
Defined.

(** ** Expectimax *)

(** The test of the loop, [prob < 0.01], skips exactly the directions that
    are not retained, and a direction is retained when its probability is at
    least 0.01. *)
Lemma skip_iff_not_retained (q : Q) :
  num_ltb (Fin q) (Fin 0.01) = negb (retained q).
Proof. reflexivity. Qed.

Lemma retained_spec (q : Q) : retained q = true <-> (0.01 <= q)%Q.
Proof. unfold retained. apply Qle_bool_iff. Qed.

Lemma run_bind {A B : Type} (c : M A) (k : A -> M B) (st st' : model) (a : A) :
  c st = Some (a, st') -> (c ≫= k) st = k a st'.
Proof. intros H. unfold mbind, M_bind, bind. rewrite H. reflexivity. Qed.

Lemma run_defined {A : Type} (o : option A) (a : A) (st : model) :
  o = Some a -> defined o st = Some (a, st).
Proof. intros ->. reflexivity. Qed.

(** The query answers, with four entries, for an index with a table. *)
Lemma query_total (st : model) (ghostIdx : nat) (ghostPos pacmanPos : pos) :
  is_Some (ghostObservations st !! ghostIdx) ->
  exists pU pD pL pR : Q,
    getGhostMoveProbabilities ghostIdx ghostPos pacmanPos st
    = Some ([(UP, pU); (DOWN, pD); (LEFT, pL); (RIGHT, pR)], st).
Proof.
  intros [tbl Htbl].
  destruct (tbl !! getSituation ghostPos pacmanPos) as [obs|] eqn:Hobs.
  - pose proof (query_seen st ghostIdx ghostPos pacmanPos tbl obs Htbl Hobs) as Hq.
    cbv zeta in Hq. eauto.
  - pose proof (query_unseen st ghostIdx ghostPos pacmanPos tbl Htbl Hobs) as Hq.
    eauto.
Qed.

Lemma mostLikely_not_NONE (otherProbs : probs) (dirs : list direction) :
  (forall d : direction, In d dirs -> d <> NONE) ->
  forall (bestProb : num) (bestDir : direction),
    bestDir <> NONE -> mostLikely otherProbs dirs bestProb bestDir <> NONE.
Proof.
  induction dirs as [|d rest IH]; intros Hdirs bestProb bestDir Hbest; [exact Hbest|].
  simpl. destruct (num_ltb bestProb (probNum otherProbs d)).
  - apply IH; [intros d' Hd'; apply Hdirs; right; exact Hd'|].
    apply Hdirs. left. reflexivity.
  - apply IH; [intros d' Hd'; apply Hdirs; right; exact Hd'|exact Hbest].
Qed.

Lemma directions_not_NONE (d : direction) : In d directions -> d <> NONE.
Proof. simpl. intuition congruence. Qed.

Section Predict.

Variables (map : gameMap) (pacmanPos : pos) (dir : direction) (st : model).
Hypothesis dir_moves : dir <> NONE.

(** The predicted step of one ghost is computed without touching the
    model. *)
Lemma predictStep_run (idx : nat) (gPos : pos) :
  is_Some (ghostObservations st !! idx) ->
  exists p : pos, predictStep map pacmanPos dir idx gPos st = Some (p, st).
Proof.
  intros Hidx. unfold predictStep.
  destruct (delta_defined 10 dir dir_moves) as [d0 Hd0].
  rewrite (run_bind _ _ st st d0) by (apply run_defined; exact Hd0).
  destruct (0 <? idx)%nat.
  - destruct (query_total st idx gPos pacmanPos Hidx) as (pU & pD & pL & pR & Hq).
    destruct (delta_defined 10
                (mostLikely [(UP, pU); (DOWN, pD); (LEFT, pL); (RIGHT, pR)]
                   directions (Fin 0) UP)) as [d1 Hd1].
    { apply mostLikely_not_NONE; [apply directions_not_NONE|discriminate]. }
    erewrite run_bind; [|erewrite run_bind; [|exact Hq]; apply run_defined; exact Hd1].
    eexists. reflexivity.
  - erewrite run_bind; [|reflexivity]. eexists. reflexivity.
Qed.

Lemma predictAll_run (ghostPositions : list pos) :
  forall idx : nat,
    (forall i : nat, (idx <= i < idx + length ghostPositions)%nat ->
                     is_Some (ghostObservations st !! i)) ->
    exists moved : list pos,
      predictAll map pacmanPos dir idx ghostPositions st = Some (moved, st) /\
      length moved = length ghostPositions.
Proof.
  induction ghostPositions as [|g rest IH]; intros idx Hidx.
  - exists []. split; reflexivity.
  - simpl in Hidx. cbn [predictAll].
    destruct (predictStep_run idx g (Hidx idx ltac:(lia))) as [p Hp].
    destruct (IH (S idx)) as (moved & Hmoved & Hlen).
    { intros i Hi. apply Hidx. lia. }
    erewrite run_bind; [|exact Hp].
    erewrite run_bind; [|exact Hmoved].
    exists (p :: moved). split; [reflexivity|]. simpl. rewrite Hlen. reflexivity.
Qed.

End Predict.

Lemma expectimax_step (map : gameMap) (pacmanPos : pos) (ghostPositions : list pos)
    (ghostStates : list ghostState) (depth' : nat) (isMaximizing : bool) :
  expectimax map pacmanPos ghostPositions ghostStates (S depth') isMaximizing
  = match getValidMoves map pacmanPos with
    | [] =>
        v ← defined (evaluateState map pacmanPos ghostPositions ghostStates);
        ret (Fin v, 1%nat)
    | validMoves =>
        if isMaximizing then
          maximizeM
            (fun newPos =>
               expectimax map newPos ghostPositions ghostStates depth' false)
            pacmanPos validMoves NegInf 1%nat
        else
          blinky ← defined (ghostPositions !! 0%nat);
          p ← getGhostMoveProbabilities 0 blinky pacmanPos;
          expectLoop
            (fun newGhostPositions =>
               expectimax map pacmanPos newGhostPositions ghostStates depth' true)
            map pacmanPos ghostPositions p directions (Fin 0) 1%nat
    end.
Proof. reflexivity. Qed.

(** The maximizing loop of expectimax over children that answer with
    finite values and leave the model alone. *)
Lemma maximizeM_run (child : pos -> M (num * nat)) (pacmanPos : pos) (st : model) :
  (forall p : pos, exists (q : Q) (n : nat), child p st = Some ((Fin q, n), st)) ->
  forall (moves : list direction) (maxEval : num) (nodes : nat),
    (forall m : direction, In m moves -> m <> NONE) ->
    lowerBound maxEval ->
    exists (v : num) (n : nat),
      maximizeM child pacmanPos moves maxEval nodes st = Some ((v, n), st) /\
      (finite maxEval \/ moves <> [] -> finite v).
Proof.
  intros Hchild moves. induction moves as [|move rest IH];
    intros maxEval nodes Hmoves Hbound.
  - exists maxEval, nodes. split; [reflexivity|].
    intros [H|H]; [exact H|congruence].
  - cbn [maximizeM].
    destruct (delta_defined 10 move (Hmoves move (or_introl eq_refl))) as [d Hd].
    erewrite run_bind; [|apply run_defined; exact Hd].
    destruct (Hchild (Pos (px pacmanPos + d.1) (py pacmanPos + d.2))) as (q & n & Hc).
    erewrite run_bind; [|exact Hc]. cbn [fst snd].
    destruct (IH (num_max maxEval (Fin q)) (nodes + n)%nat) as (v & n' & Hrun & Hfin).
    + intros m Hm. apply Hmoves. right. exact Hm.
    + right. apply num_max_finite. exact Hbound.
    + exists v, n'. split; [exact Hrun|]. intros _. apply Hfin. left.
      apply num_max_finite. exact Hbound.
Qed.

Section ExpectLoop.

Variables (child : list pos -> M (num * nat)) (map : gameMap) (pacmanPos : pos)
          (ghostPositions : list pos) (st : model) (pU pD pL pR : Q).

Hypothesis child_run :
  forall moved : list pos, length moved = length ghostPositions ->
    exists (q : Q) (n : nat), child moved st = Some ((Fin q, n), st).

Hypothesis tables :
  forall i : nat, (i < length ghostPositions)%nat ->
                  is_Some (ghostObservations st !! i).

Let p : probs := [(UP, pU); (DOWN, pD); (LEFT, pL); (RIGHT, pR)].

Let value : direction -> Q := childValue child map pacmanPos ghostPositions st.

Lemma probNum_four (d : direction) :
  d <> NONE -> probNum p d = Fin (fourProbs pU pD pL pR d).
Proof. destruct d; try congruence; reflexivity. Qed.

Lemma childValue_run (d : direction) :
  d <> NONE ->
  exists (moved : list pos) (n : nat),
    predictAll map pacmanPos d 0 ghostPositions st = Some (moved, st) /\
    child moved st = Some ((Fin (value d), n), st).
Proof.
  intros Hd.
  destruct (predictAll_run map pacmanPos d st Hd ghostPositions 0)
    as (moved & Hmoved & Hlen).
  { intros i Hi. apply tables. lia. }
  destruct (child_run moved Hlen) as (q & n & Hc).
  exists moved, n. split; [exact Hmoved|].
  unfold value, childValue. rewrite Hmoved, Hc. reflexivity.
Qed.

(** The loop adds [prob * value] for each retained direction to what it
    starts with, and nothing else. *)
Lemma expectLoop_run (dirs : list direction) :
  forall (acc : Q) (nodes : nat),
    (forall d : direction, In d dirs -> d <> NONE) ->
    exists (total : Q) (n : nat),
      expectLoop child map pacmanPos ghostPositions p dirs (Fin acc) nodes st
      = Some ((Fin total, n), st) /\
      (total == acc + weightedSum (fourProbs pU pD pL pR) value
                        (List.filter (fun d => retained (fourProbs pU pD pL pR d)) dirs))%Q.
Proof.
  induction dirs as [|d rest IH]; intros acc nodes Hdirs.
  - exists acc, nodes. split; [reflexivity|]. simpl. ring.
  - assert (Hd : d <> NONE) by (apply Hdirs; left; reflexivity).
    assert (Hrest : forall d' : direction, In d' rest -> d' <> NONE)
      by (intros d' Hd'; apply Hdirs; right; exact Hd').
    cbn [expectLoop List.filter]. rewrite (probNum_four d Hd).
    rewrite skip_iff_not_retained.
    destruct (retained (fourProbs pU pD pL pR d)); cbn [negb].
    + destruct (childValue_run d Hd) as (moved & n & Hmoved & Hc).
      erewrite run_bind; [|exact Hmoved].
      erewrite run_bind; [|exact Hc]. cbn [fst snd num_mul num_add].
      destruct (IH (acc + fourProbs pU pD pL pR d * value d)%Q (nodes + n)%nat Hrest)
        as (total & n' & Hrun & Hsum).
      exists total, n'. split; [exact Hrun|].
      rewrite Hsum. cbn [weightedSum]. ring.
    + destruct (IH acc nodes Hrest) as (total & n' & Hrun & Hsum).
      exists total, n'. split; [exact Hrun|exact Hsum].
Qed.

End ExpectLoop.

(** On well-formed inputs expectimax answers with a finite value and
    leaves the model as it was, at every depth and in either turn. *)
Lemma expectimax_run (map : gameMap) (ghostStates : list ghostState) (st : model)
    (depth : nat) :
  forall (pacmanPos : pos) (ghostPositions : list pos) (isMaximizing : bool),
    wellFormed st ghostPositions ghostStates ->
    exists (q : Q) (n : nat),
      expectimax map pacmanPos ghostPositions ghostStates depth isMaximizing st
      = Some ((Fin q, n), st).
Proof.
  induction depth as [|depth' IH];
    intros pacmanPos ghostPositions isMaximizing (Hne & Hlen & Htbl).
  - cbn [expectimax].
    destruct (evaluateState_total map pacmanPos _ _ Hlen) as [v Hv].
    erewrite run_bind; [|apply run_defined; exact Hv]. eauto.
  - rewrite expectimax_step.
    destruct (getValidMoves map pacmanPos) as [|m moves] eqn:Hmoves.
    + destruct (evaluateState_total map pacmanPos _ _ Hlen) as [v Hv].
      erewrite run_bind; [|apply run_defined; exact Hv]. eauto.
    + destruct isMaximizing.
      * destruct (maximizeM_run
                    (fun newPos => expectimax map newPos ghostPositions ghostStates
                                     depth' false)
                    pacmanPos st) with (moves := m :: moves) (maxEval := NegInf)
                    (nodes := 1%nat) as (v & n & Hrun & Hfin).
        -- intros p. apply IH. repeat split; assumption.
        -- intros m' Hm'. apply (validMove_not_NONE map pacmanPos).
           rewrite Hmoves. exact Hm'.
        -- left. reflexivity.
        -- destruct Hfin as [q ->]; [right; discriminate|]. eauto.
      * destruct ghostPositions as [|blinky others] eqn:Hghosts; [congruence|].
        rewrite <- Hghosts in *.
        assert (Hb : ghostPositions !! 0%nat = Some blinky) by (subst; reflexivity).
        erewrite run_bind; [|apply run_defined; exact Hb].
        destruct (query_total st 0 blinky pacmanPos) as (pU & pD & pL & pR & Hq).
        { apply Htbl. subst. simpl. lia. }
        erewrite run_bind; [|exact Hq].
        destruct (expectLoop_run
                    (fun moved => expectimax map pacmanPos moved ghostStates depth' true)
                    map pacmanPos ghostPositions st pU pD pL pR) with
                    (dirs := directions) (acc := 0%Q) (nodes := 1%nat)
          as (total & n & Hrun & _).
        -- intros moved Hmoved. apply IH. repeat split.
           ++ intros ->. subst. discriminate.
           ++ lia.
           ++ intros i Hi. apply Htbl. lia.
        -- exact Htbl.
        -- apply directions_not_NONE.
        -- eauto.
Qed.

(** C7.  In the ghosts' turn of expectimax, at a state that is not
    terminal (depth left, a legal move for the agent), the value returned
    is the sum, over the directions of ghost 0 whose learned probability
    is at least 0.01, of that probability times the value of the search
    one ply deeper, in the agent's turn, after the ghosts took their
    predicted steps.  The probabilities are the ones the model returns
    (they add up to 1 over all four directions) and are used as they
    are. *)
Theorem expectimax_ghost_turn_is_weighted_sum (map : gameMap) (st : model)
    (pacmanPos : pos) (ghostPositions : list pos) (ghostStates : list ghostState)
    (depth' : nat) :
  getValidMoves map pacmanPos <> [] ->
  wellFormed st ghostPositions ghostStates ->
  exists (blinky : pos) (pU pD pL pR : Q) (value : direction -> Q)
         (total : Q) (nodes : nat),
    ghostPositions !! 0%nat = Some blinky /\
    getGhostMoveProbabilities 0 blinky pacmanPos st
    = Some ([(UP, pU); (DOWN, pD); (LEFT, pL); (RIGHT, pR)], st) /\
    (pU + pD + pL + pR == 1)%Q /\
    (forall d : direction, In d directions ->
       exists (moved : list pos) (n : nat),
         predictAll map pacmanPos d 0 ghostPositions st = Some (moved, st) /\
         expectimax map pacmanPos moved ghostStates depth' true st
         = Some ((Fin (value d), n), st)) /\
    expectimax map pacmanPos ghostPositions ghostStates (S depth') false st
    = Some ((Fin total, nodes), st) /\
    (total == weightedSum (fourProbs pU pD pL pR) value
                (List.filter (fun d => retained (fourProbs pU pD pL pR d)) directions))%Q.
Proof.
  intros Hmoves (Hne & Hlen & Htbl).
  destruct ghostPositions as [|blinky others] eqn:Hghosts; [congruence|].
  rewrite <- Hghosts in *.
  assert (Hb : ghostPositions !! 0%nat = Some blinky) by (subst; reflexivity).
  assert (H0 : is_Some (ghostObservations st !! 0%nat))
    by (apply Htbl; subst; simpl; lia).
  destruct (query_distribution st 0 blinky pacmanPos H0)
    as (pU & pD & pL & pR & Hq & Hsum1 & _).
  set (child := fun moved : list pos =>
                  expectimax map pacmanPos moved ghostStates depth' true).
  assert (Hchild : forall moved : list pos, length moved = length ghostPositions ->
             exists (q : Q) (n : nat), child moved st = Some ((Fin q, n), st)).
  { intros moved Hmoved. apply expectimax_run. repeat split.
    - intros ->. subst. discriminate.
    - lia.
    - intros i Hi. apply Htbl. lia. }
  destruct (expectLoop_run child map pacmanPos ghostPositions st pU pD pL pR
              Hchild Htbl directions 0%Q 1%nat directions_not_NONE)
    as (total & n & Hrun & Hsum).
  exists blinky, pU, pD, pL, pR,
         (childValue child map pacmanPos ghostPositions st), total, n.
  split; [exact Hb|]. split; [exact Hq|]. split; [exact Hsum1|].
  split; [|split].
  - intros d Hd.
    apply (childValue_run child map pacmanPos ghostPositions st Hchild Htbl d
             (directions_not_NONE d Hd)).
  - rewrite expectimax_step.
    destruct (getValidMoves map pacmanPos) as [|m moves]; [congruence|].
    erewrite run_bind; [|apply run_defined; exact Hb].
    erewrite run_bind; [|exact Hq]. exact Hrun.
  - rewrite Hsum. ring.
Qed.

(** After 300 observations of Left only Left is retained (the other three
    directions have probability 1/304 each), and the value of the ghosts'
    turn is 301/304 of the value below it: the weight is not scaled back
    to 1. *)
Lemma expectimax_ghost_turn_is_weighted_sum_witness :
  getValidMoves openMap (Pos 0 0) <> [] /\
  wellFormed trainedModel [Pos 30 0] [GhostState false true] /\
  exists (total below : Q) (nodes n : nat),
    expectimax openMap (Pos 0 0) [Pos 30 0] [GhostState false true] 1 false
      trainedModel = Some ((Fin total, nodes), trainedModel) /\
    expectimax openMap (Pos 0 0) [Pos 20 0] [GhostState false true] 0 true
      trainedModel = Some ((Fin below, n), trainedModel) /\
    (total == (301 # 304) * below)%Q.
Proof.
  assert (Hmoves : getValidMoves openMap (Pos 0 0) <> []) by discriminate.
  assert (Hwf : wellFormed trainedModel [Pos 30 0] [GhostState false true]).
  { split; [discriminate|]. split; [simpl; lia|].
    intros i Hi. simpl in Hi. destruct i as [|i]; [|lia]. vm_compute. eauto. }
  split; [exact Hmoves|]. split; [exact Hwf|].
  destruct (expectimax_ghost_turn_is_weighted_sum openMap trainedModel (Pos 0 0)
              [Pos 30 0] [GhostState false true] 0 Hmoves Hwf)
    as (blinky & pU & pD & pL & pR & value & total & nodes
        & Hb & Hq & _ & Hvalue & Hrun & Hsum).
  injection Hb as <-.
  vm_compute in Hq. injection Hq as <- <- <- <-.
  destruct (Hvalue LEFT ltac:(simpl; tauto)) as (moved & n & Hmoved & Hbelow).
  vm_compute in Hmoved. injection Hmoved as <-.
  exists total, (value LEFT), nodes, n.
  split; [exact Hrun|]. split; [exact Hbelow|].
  rewrite Hsum. vm_compute List.filter. cbn [weightedSum fourProbs]. ring.
Defined.

(** * Further properties of the embedded code *)

(** ** Distances *)

(** X1.  The tunnel-aware distance is symmetric, never negative, zero from
    a cell to itself, and never larger than the Manhattan distance. *)
Theorem tunnelAwareDistance_bounds (a b : cell) :
  0 <= tunnelAwareDistance a b <= manhattanDistance a b /\
  tunnelAwareDistance a b = tunnelAwareDistance b a /\
  tunnelAwareDistance a a = 0.
Proof.
  unfold tunnelAwareDistance, manhattanDistance, TUNNEL_ROW, MAP_WIDTH.
  repeat split; lia.
Qed.

(** The least of a direct distance and two detours, when each of the
    three changes by at most one. *)
Lemma detour_step (d d' l l' r r' lg rg : Z) :
  Z.abs (d - d') <= 1 -> Z.abs (l - l') <= 1 -> Z.abs (r - r') <= 1 ->
  Z.min d (Z.min (l + 1 + rg) (r + 1 + lg))
  <= 1 + Z.min d' (Z.min (l' + 1 + rg) (r' + 1 + lg)) /\
  Z.min d' (Z.min (l' + 1 + rg) (r' + 1 + lg))
  <= 1 + Z.min d (Z.min (l + 1 + rg) (r + 1 + lg)).
Proof. lia. Qed.

(** The same from one tunnel mouth to the other, [w] cells apart. *)
Lemma detour_wrap (d d' l l' r r' lg rg w : Z) :
  0 <= w -> d = lg -> d' = rg -> l = 0 -> r = w -> l' = w -> r' = 0 ->
  Z.min d (Z.min (l + 1 + rg) (r + 1 + lg))
  <= 1 + Z.min d' (Z.min (l' + 1 + rg) (r' + 1 + lg)) /\
  Z.min d' (Z.min (l' + 1 + rg) (r' + 1 + lg))
  <= 1 + Z.min d (Z.min (l + 1 + rg) (r + 1 + lg)).
Proof. lia. Qed.

(** X2.  Along every edge the search follows (the four grid neighbours and
    the tunnel connection between the two mouths) the tunnel-aware
    distance to a goal changes by at most one: the heuristic is
    consistent for the unit edge cost. *)
Theorem tunnelAwareDistance_consistent (current neighbor goalGrid : cell) :
  In neighbor (neighborsOf current) ->
  tunnelAwareDistance current goalGrid <= 1 + tunnelAwareDistance neighbor goalGrid /\
  tunnelAwareDistance neighbor goalGrid <= 1 + tunnelAwareDistance current goalGrid.
Proof.
  unfold neighborsOf. intros Hin. apply in_app_or in Hin.
  destruct current as [x y]. cbn [cx cy] in Hin.
  unfold tunnelAwareDistance, TUNNEL_ROW, MAP_WIDTH in *. cbv zeta.
  destruct Hin as [Hin|Hin].
  - cbn [In] in Hin.
    destruct Hin as [<-|[<-|[<-|[<-|[]]]]]; cbn [cx cy]; apply detour_step; lia.
  - destruct (Z.eqb_spec y 10) as [->|Hy]; [|destruct Hin].
    destruct (Z.eqb_spec x 0) as [->|Hx].
    + destruct Hin as [<-|[]]. cbn [cx cy].
      apply (detour_wrap _ _ _ _ _ _ _ _ 18); lia.
    + destruct (Z.eqb_spec x (19 - 1)) as [->|Hx']; [|destruct Hin].
      destruct Hin as [<-|[]]. cbn [cx cy].
      apply and_comm. apply (detour_wrap _ _ _ _ _ _ _ _ 18); lia.
Qed.

(** The right tunnel mouth seen from the left one, for a goal next to the
    right mouth. *)
Lemma tunnelAwareDistance_consistent_witness :
  In (Cell 18 10) (neighborsOf (Cell 0 10)) /\
  tunnelAwareDistance (Cell 0 10) (Cell 17 10)
  <= 1 + tunnelAwareDistance (Cell 18 10) (Cell 17 10) /\
  tunnelAwareDistance (Cell 18 10) (Cell 17 10)
  <= 1 + tunnelAwareDistance (Cell 0 10) (Cell 17 10).
Proof.
  assert (Hin : In (Cell 18 10) (neighborsOf (Cell 0 10))).
  { vm_compute. tauto. }
  split; [exact Hin|].
  exact (tunnelAwareDistance_consistent (Cell 0 10) (Cell 18 10) (Cell 17 10) Hin).
Defined.

(** ** Situations *)

Lemma round10_shift (p k : Z) : round10 (p + 10 * k) = round10 p + k.
Proof.
  unfold round10. replace (p + 10 * k + 5) with (p + 5 + k * 10) by lia.
  apply Z.div_add. lia.
Qed.

(** X3.  The situation key only sees the relative position in cells: moving
    ghost and agent together by whole cells leaves the key as it is. *)
Theorem getSituation_shift (ghostPos pacmanPos : pos) (a b : Z) :
  getSituation (Pos (px ghostPos + 10 * a) (py ghostPos + 10 * b))
               (Pos (px pacmanPos + 10 * a) (py pacmanPos + 10 * b))
  = getSituation ghostPos pacmanPos.
Proof.
  unfold getSituation. cbn [px py]. rewrite !round10_shift.
  replace (round10 (px pacmanPos) + a - (round10 (px ghostPos) + a))
    with (round10 (px pacmanPos) - round10 (px ghostPos)) by lia.
  replace (round10 (py pacmanPos) + b - (round10 (py ghostPos) + b))
    with (round10 (py pacmanPos) - round10 (py ghostPos)) by lia.
  reflexivity.
Qed.

(** ** Ghost model: recording *)

(** The answer of the query as a function of the ghost's table. *)
Lemma query_from_table (st : model) (ghostIdx : nat) (ghostPos pacmanPos : pos) :
  fst <$> getGhostMoveProbabilities ghostIdx ghostPos pacmanPos st
  = (tbl ← ghostObservations st !! ghostIdx;
     fst <$> getGhostMoveProbabilities 0 ghostPos pacmanPos
               (Model {[0%nat := tbl]} 0 0)).
Proof.
  destruct (ghostObservations st !! ghostIdx) as [tbl|] eqn:Htbl.
  - assert (H0 : ghostObservations (Model {[0%nat := tbl]} 0 0) !! 0%nat = Some tbl)
      by apply lookup_singleton_eq.
    cbn [mbind option_bind].
    destruct (tbl !! getSituation ghostPos pacmanPos) as [obs|] eqn:Hobs.
    + rewrite (query_seen st ghostIdx ghostPos pacmanPos tbl obs Htbl Hobs).
      rewrite (query_seen _ 0 ghostPos pacmanPos tbl obs H0 Hobs). reflexivity.
    + rewrite (query_unseen st ghostIdx ghostPos pacmanPos tbl Htbl Hobs).
      rewrite (query_unseen _ 0 ghostPos pacmanPos tbl H0 Hobs). reflexivity.
  - rewrite (query_unknown_index st ghostIdx ghostPos pacmanPos Htbl). reflexivity.
Qed.

(** X4.  Error behaviour of the learner on an index.  The query answers
    exactly when the index has a table; recording a real move succeeds
    exactly when the index has a table; recording [NONE] always succeeds
    and changes nothing, not even for an index without a table. *)
Theorem ghost_model_answers_iff_known (st : model) (ghostIdx : nat)
    (ghostPos pacmanPos : pos) (move : direction) :
  (is_Some (getGhostMoveProbabilities ghostIdx ghostPos pacmanPos st)
   <-> is_Some (ghostObservations st !! ghostIdx)) /\
  (move <> NONE ->
   (is_Some (recordGhostMove ghostIdx ghostPos pacmanPos move st)
    <-> is_Some (ghostObservations st !! ghostIdx))) /\
  recordGhostMove ghostIdx ghostPos pacmanPos NONE st = Some (tt, st).
Proof.
  split; [|split].
  - split.
    + intros [r Hr]. destruct (ghostObservations st !! ghostIdx) eqn:E; [eauto|].
      rewrite (query_unknown_index st ghostIdx ghostPos pacmanPos E) in Hr.
      discriminate.
    + intros H. destruct (query_total st ghostIdx ghostPos pacmanPos H)
        as (pU & pD & pL & pR & Hq). rewrite Hq. eauto.
  - intros Hmove. split.
    + intros [r Hr]. destruct (ghostObservations st !! ghostIdx) eqn:E; [eauto|].
      unfold recordGhostMove, direction_eqb in Hr.
      rewrite bool_decide_eq_false_2 in Hr by exact Hmove.
      unfold mbind, M_bind, bind, get, defined in Hr. rewrite E in Hr. discriminate.
    + intros [tbl Htbl].
      rewrite (record_run st ghostIdx ghostPos pacmanPos tbl move Hmove Htbl). eauto.
  - reflexivity.
Qed.

Lemma ghost_model_answers_iff_known_witness :
  LEFT <> NONE /\
  is_Some (recordGhostMove 1 (Pos 0 0) (Pos 50 0) LEFT initialModel) /\
  ~ is_Some (recordGhostMove 7 (Pos 0 0) (Pos 50 0) LEFT initialModel).
Proof.
  assert (Hd : LEFT <> NONE) by discriminate.
  destruct (ghost_model_answers_iff_known initialModel 1 (Pos 0 0) (Pos 50 0) LEFT)
    as (_ & Hrec1 & _).
  destruct (ghost_model_answers_iff_known initialModel 7 (Pos 0 0) (Pos 50 0) LEFT)
    as (_ & Hrec7 & _).
  split; [exact Hd|]. split.
  - apply (Hrec1 Hd). vm_compute. eauto.
  - intros H. apply (Hrec7 Hd) in H. vm_compute in H. destruct H as [x Hx].
    discriminate.
Defined.

(** X5.  Bookkeeping of a recording.  For a real move and an index with a
    table, the count of that move in that situation goes up by one, every
    other count of the ghost in that situation stays, the total goes up
    by one, and the confidence is the rounded half of the new total,
    capped at 100. *)
Theorem record_move_counts (st : model) (ghostIdx : nat)
    (ghostPos pacmanPos : pos) (move : direction) :
  move <> NONE ->
  is_Some (ghostObservations st !! ghostIdx) ->
  exists st' : model,
    recordGhostMove ghostIdx ghostPos pacmanPos move st = Some (tt, st') /\
    observed st' ghostIdx ghostPos pacmanPos move
    = (observed st ghostIdx ghostPos pacmanPos move + 1)%N /\
    (forall d : direction, d <> move ->
       observed st' ghostIdx ghostPos pacmanPos d
       = observed st ghostIdx ghostPos pacmanPos d) /\
    totalObservations st' = (totalObservations st + 1)%N /\
    ghostModelConfidence st' = N.min 100 ((totalObservations st + 2) / 2) /\
    (ghostModelConfidence st' <= 100)%N.
Proof.
  intros Hmove [tbl Htbl].
  pose proof (record_run st ghostIdx ghostPos pacmanPos tbl move Hmove Htbl) as Hrun.
  eexists. split; [exact Hrun|].
  unfold observed. cbn [ghostObservations totalObservations ghostModelConfidence].
  rewrite Htbl, !lookup_insert_eq.
  split; [|split; [|split; [|split]]].
  - destruct (tbl !! getSituation ghostPos pacmanPos) as [obs|]; cbn [default];
      destruct move; try congruence; cbn; lia.
  - intros d Hd.
    destruct (tbl !! getSituation ghostPos pacmanPos) as [obs|]; cbn [default];
      destruct move, d; try congruence; reflexivity.
  - reflexivity.
  - unfold confidence. f_equal. f_equal. lia.
  - unfold confidence. apply N.le_min_l.
Qed.

Lemma record_move_counts_witness :
  exists st' : model,
    recordGhostMove 0 (Pos 30 0) (Pos 0 0) LEFT trainedModel = Some (tt, st') /\
    observed st' 0 (Pos 30 0) (Pos 0 0) LEFT = 301%N /\
    totalObservations st' = 301%N /\
    ghostModelConfidence st' = 100%N.
Proof.
  destruct (record_move_counts trainedModel 0 (Pos 30 0) (Pos 0 0) LEFT)
    as (st' & Hrun & Hcount & _ & Htotal & Hconf & _).
  - discriminate.
  - vm_compute. eauto.
  - exists st'. split; [exact Hrun|].
    rewrite Hcount, Htotal, Hconf. repeat split; reflexivity.
Defined.

(** X6.  A recording is local.  After recording a move for one ghost in one
    situation, the query answers as before for every other ghost and for
    every other situation of the same ghost. *)
Theorem record_move_is_local (st st' : model) (ghostIdx ghostIdx' : nat)
    (ghostPos pacmanPos ghostPos' pacmanPos' : pos) (move : direction) :
  recordGhostMove ghostIdx ghostPos pacmanPos move st = Some (tt, st') ->
  ghostIdx' <> ghostIdx \/
  getSituation ghostPos' pacmanPos' <> getSituation ghostPos pacmanPos ->
  fst <$> getGhostMoveProbabilities ghostIdx' ghostPos' pacmanPos' st'
  = fst <$> getGhostMoveProbabilities ghostIdx' ghostPos' pacmanPos' st.
Proof.
  intros Hrun Hother.
  destruct (decide (move = NONE)) as [->|Hmove].
  { cbn in Hrun. injection Hrun as <-. reflexivity. }
  destruct (ghostObservations st !! ghostIdx) as [tbl|] eqn:Htbl.
  2:{ unfold recordGhostMove, direction_eqb in Hrun.
      rewrite bool_decide_eq_false_2 in Hrun by exact Hmove.
      unfold mbind, M_bind, bind, get, defined in Hrun. rewrite Htbl in Hrun.
      discriminate. }
  rewrite (record_run st ghostIdx ghostPos pacmanPos tbl move Hmove Htbl) in Hrun.
  injection Hrun as <-.
  rewrite (query_from_table st), (query_from_table (Model _ _ _)).
  cbn [ghostObservations].
  destruct (decide (ghostIdx' = ghostIdx)) as [->|Hne].
  - destruct Hother as [Hne|Hsit]; [congruence|].
    rewrite lookup_insert_eq, Htbl. cbn [mbind option_bind].
    set (tbl' := <[_ := _]> tbl).
    assert (H0 : ghostObservations (Model {[0%nat := tbl]} 0 0) !! 0%nat = Some tbl)
      by apply lookup_singleton_eq.
    assert (H0' : ghostObservations (Model {[0%nat := tbl']} 0 0) !! 0%nat = Some tbl')
      by apply lookup_singleton_eq.
    assert (Hsame : tbl' !! getSituation ghostPos' pacmanPos'
                    = tbl !! getSituation ghostPos' pacmanPos')
      by (unfold tbl'; apply lookup_insert_ne; congruence).
    destruct (tbl !! getSituation ghostPos' pacmanPos') as [obs|] eqn:Hobs.
    + rewrite (query_seen _ 0 ghostPos' pacmanPos' tbl' obs H0' Hsame).
      rewrite (query_seen _ 0 ghostPos' pacmanPos' tbl obs H0 Hobs). reflexivity.
    + rewrite (query_unseen _ 0 ghostPos' pacmanPos' tbl' H0' Hsame).
      rewrite (query_unseen _ 0 ghostPos' pacmanPos' tbl H0 Hobs). reflexivity.
  - rewrite lookup_insert_ne by congruence. reflexivity.
Qed.

Lemma record_move_is_local_witness :
  exists st' : model,
    recordGhostMove 0 (Pos 30 0) (Pos 0 0) LEFT initialModel = Some (tt, st') /\
    fst <$> getGhostMoveProbabilities 1 (Pos 30 0) (Pos 0 0) st'
    = fst <$> getGhostMoveProbabilities 1 (Pos 30 0) (Pos 0 0) initialModel.
Proof.
  destruct (recordGhostMove 0 (Pos 30 0) (Pos 0 0) LEFT initialModel)
    as [[[] st']|] eqn:Hrun; [|vm_compute in Hrun; discriminate].
  exists st'. split; [reflexivity|].
  apply (record_move_is_local initialModel st' 0 1 (Pos 30 0) (Pos 0 0)
           (Pos 30 0) (Pos 0 0) LEFT Hrun).
  left. discriminate.
Defined.




(** ** Ghost model: loading, reset and the states in between *)

Section EnsureGhosts.

Let step (o : gmap nat (gmap string bucket)) (k : nat) :=
  match o !! k with Some _ => o | None => <[k := ∅]> o end.

Lemma ensure_step_keeps (o : gmap nat (gmap string bucket)) (k i : nat)
    (tbl : gmap string bucket) :
  o !! i = Some tbl -> step o k !! i = Some tbl.
Proof.
  intros Hi. unfold step. destruct (o !! k) eqn:Hk; [exact Hi|].
  rewrite lookup_insert_ne by congruence. exact Hi.
Qed.

Lemma ensure_fold_keeps (l : list nat) (i : nat) (tbl : gmap string bucket) :
  forall o : gmap nat (gmap string bucket),
    o !! i = Some tbl -> fold_left step l o !! i = Some tbl.
Proof.
  induction l as [|k rest IH]; intros o Hi; [exact Hi|].
  cbn [fold_left]. apply IH. apply ensure_step_keeps. exact Hi.
Qed.

Lemma ensure_fold_known (l : list nat) (i : nat) :
  forall o : gmap nat (gmap string bucket),
    In i l -> is_Some (fold_left step l o !! i).
Proof.
  induction l as [|k rest IH]; intros o Hin; [destruct Hin|].
  cbn [fold_left]. destruct Hin as [->|Hin]; [|apply IH; exact Hin].
  assert (Hk : is_Some (step o i !! i)).
  { unfold step. destruct (o !! i) eqn:Hi; [rewrite Hi; eauto|].
    rewrite lookup_insert_eq. eauto. }
  destruct Hk as [tbl Htbl]. rewrite (ensure_fold_keeps rest i tbl _ Htbl). eauto.
Qed.

Lemma ensure_fold_other (l : list nat) (i : nat) :
  forall o : gmap nat (gmap string bucket),
    ~ In i l -> fold_left step l o !! i = o !! i.
Proof.
  induction l as [|k rest IH]; intros o Hin; [reflexivity|].
  cbn [fold_left]. rewrite IH by (intros H; apply Hin; right; exact H).
  unfold step. destruct (o !! k); [reflexivity|].
  apply lookup_insert_ne. intros ->. apply Hin. left. reflexivity.
Qed.

End EnsureGhosts.

Lemma ensureGhosts_known (obs : gmap nat (gmap string bucket)) (i : nat) :
  (i < 4)%nat -> is_Some (ensureGhosts obs !! i).
Proof.
  intros Hi. apply ensure_fold_known.
  destruct i as [|[|[|[|i]]]]; simpl; try lia; tauto.
Qed.

(** Loading keeps every table of the stored model. *)
Lemma ensureGhosts_keeps (obs : gmap nat (gmap string bucket)) (i : nat)
    (tbl : gmap string bucket) :
  obs !! i = Some tbl -> ensureGhosts obs !! i = Some tbl.
Proof. apply ensure_fold_keeps. Qed.

Lemma clearGhosts_known (obs : gmap nat (gmap string bucket)) (i : nat) :
  (i < 4)%nat -> clearGhosts obs !! i = Some ∅.
Proof.
  intros Hi. unfold clearGhosts. cbn [fold_left].
  destruct i as [|[|[|[|i]]]]; try lia;
    repeat (rewrite lookup_insert_ne by lia); apply lookup_insert_eq.
Qed.

Lemma initialise_known (saved : option snapshot) : knownGhosts (initialise saved).
Proof.
  intros i Hi. destruct saved as [data|].
  - change (ghostObservations (initialise (Some data)))
      with (ensureGhosts (default ∅ (observations data))).
    apply ensureGhosts_known. exact Hi.
  - change (ghostObservations (initialise None)) with (clearGhosts ∅).
    rewrite (clearGhosts_known ∅ i Hi). eauto.
Qed.

Lemma reachable_known (st : model) : reachable st -> knownGhosts st.
Proof.
  induction 1 as [saved|st st' ghostIdx ghostPos pacmanPos move _ IH Hrun
                  |st st' _ IH Hrun].
  - apply initialise_known.
  - apply (record_preserves_known st st' ghostIdx ghostPos pacmanPos move IH Hrun).
  - injection Hrun as <-. intros i Hi. cbn [ghostObservations].
    rewrite (clearGhosts_known ∅ i Hi). eauto.
Qed.

(** X8.  When the stored item is absent, cannot be read, or is of the
    shape that [saveGhostModel] writes, then whatever was recorded or
    reset since the module was evaluated, the tables of the ghosts 0 to 3
    exist: for these indices the query always answers with four
    probabilities and leaves the state as it is; and as long as fewer than
    2^53 - 3 moves were counted for the situation, the four doubles add up
    to 1 within 2^-52. *)
Theorem reachable_model_answers (st : model) (ghostIdx : nat)
    (ghostPos pacmanPos : pos) :
  reachable st -> (ghostIdx < 4)%nat ->
  exists pU pD pL pR : Q,
    InDoubles.getGhostMoveProbabilities ghostIdx ghostPos pacmanPos st
    = Some ([(UP, pU); (DOWN, pD); (LEFT, pL); (RIGHT, pR)], st) /\
    ((observedTotal st ghostIdx ghostPos pacmanPos + 4 <= 2 ^ 53)%N ->
     (Qabs (pU + pD + pL + pR - 1) <= Double.pow2 (-52))%Q).
Proof.
  intros Hreach Hidx.
  pose proof (reachable_known st Hreach ghostIdx Hidx) as Htbl.
  destruct (query64_answers st ghostIdx ghostPos pacmanPos Htbl)
    as (pU & pD & pL & pR & Hq).
  exists pU, pD, pL, pR. split; [exact Hq|].
  intros Hbound.
  destruct (query64_distribution st ghostIdx ghostPos pacmanPos Htbl Hbound)
    as (pU' & pD' & pL' & pR' & Hq' & Hsum & _).
  rewrite Hq in Hq'. injection Hq' as -> -> -> ->. exact Hsum.
Qed.

(** A stored model that only knows ghost 2: after loading, ghost 3 is
    answered for as well, with four quarters. *)
Lemma reachable_model_answers_witness :
  let saved := Some (Snapshot (Some {[2%nat := ∅]}) None) in
  reachable (initialise saved) /\ (3 < 4)%nat /\
  InDoubles.getGhostMoveProbabilities 3 (Pos 0 0) (Pos 50 0) (initialise saved)
  = Some ([(UP, 0.25%Q); (DOWN, 0.25%Q); (LEFT, 0.25%Q); (RIGHT, 0.25%Q)],
          initialise saved).
Proof.
  cbv zeta. split; [apply reachable_initial|]. split; [lia|].
  destruct (reachable_model_answers
              (initialise (Some (Snapshot (Some {[2%nat := ∅]}) None)))
              3 (Pos 0 0) (Pos 50 0))
    as (pU & pD & pL & pR & Hq & _).
  - apply reachable_initial.
  - lia.
  - rewrite Hq. vm_compute in Hq. injection Hq as <- <- <- <-. reflexivity.
Defined.

(** X9.  Saving and loading.  Loading what [saveGhostModel] wrote for a
    state whose ghosts 0 to 3 have tables gives that table and that total
    back, with the confidence that belongs to the total, whatever the
    variables held before; without a stored model nothing is assigned. *)
Theorem load_after_save (st st0 : model) :
  knownGhosts st ->
  loadGhostModel (Some (saveGhostModel st)) st0
  = Some (true, Model (ghostObservations st) (totalObservations st)
                  (confidence (totalObservations st))) /\
  loadGhostModel None st0 = Some (false, st0).
Proof.
  intros Hknown. split; [|reflexivity].
  assert (Hens : ensureGhosts (ghostObservations st) = ghostObservations st).
  { apply map_eq. intros i.
    destruct (ghostObservations st !! i) as [tbl|] eqn:Hi.
    - apply ensureGhosts_keeps. exact Hi.
    - destruct (decide (i < 4)%nat) as [Hlt|Hge].
      + destruct (Hknown i Hlt) as [tbl Htbl]. congruence.
      + unfold ensureGhosts. rewrite ensure_fold_other; [exact Hi|].
        simpl. lia. }
  unfold loadGhostModel, saveGhostModel, mbind, M_bind, bind, put, ret.
  cbn -[ensureGhosts confidence]. rewrite Hens. reflexivity.
Qed.

Lemma load_after_save_witness :
  knownGhosts trainedModel /\
  loadGhostModel (Some (saveGhostModel trainedModel)) initialModel
  = Some (true, trainedModel).
Proof.
  assert (Hknown : knownGhosts trainedModel).
  { intros i Hi. destruct i as [|[|[|[|i]]]]; try lia; vm_compute; eauto. }
  split; [exact Hknown|].
  destruct (load_after_save trainedModel initialModel Hknown) as [Hload _].
  rewrite Hload. reflexivity.
Defined.

(** ** Statistics and resets *)

(** X10.  A reset of the statistics keeps what was learned: the table and
    the total are untouched, while the history, the visit counts and the
    counters start again.  A full reset empties the table and the total as
    well, but the confidence it leaves is the one computed from the total
    before the reset, not from the emptied model. *)
Theorem resets_and_learning (w : Stats.world) :
  ghostObservations (Stats.learner (Stats.resetStats w))
  = ghostObservations (Stats.learner w) /\
  totalObservations (Stats.learner (Stats.resetStats w))
  = totalObservations (Stats.learner w) /\
  Stats.tracking (Stats.resetStats w) = emptyTracker /\
  exists w' : Stats.world,
    Stats.fullReset w = Some w' /\
    ghostObservations (Stats.learner w') = freshObservations /\
    totalObservations (Stats.learner w') = 0%N /\
    ghostModelConfidence (Stats.learner w')
    = confidence (totalObservations (Stats.learner w)) /\
    Stats.tracking w' = emptyTracker /\ Stats.statistics w' = Stats.zero.
Proof.
  repeat split. eexists. split; [reflexivity|]. repeat split.
Qed.

(** The loop of [recordDecision] calls over a list of (time, nodes). *)
Lemma recordDecision_invariant (time : Q) (nodes : N) (s : Stats.stats) :
  let s' := Stats.recordDecision time nodes s in
  (Stats.avgDecisionTime s' * inject_Z (Z.of_N (Stats.decisionCount s'))
   == Stats.totalTime s')%Q /\
  Stats.decisionCount s' = (Stats.decisionCount s + 1)%N /\
  Stats.nodesEvaluated s' = (Stats.nodesEvaluated s + nodes)%N.
Proof.
  cbv zeta. unfold Stats.recordDecision. cbn. split; [|split; reflexivity].
  field. apply inject_Z_pos. lia.
Qed.

(** [recordDecision] once per entry of a list of (time, nodes). *)
Lemma recordDecisions_fold (l : list (Q * N)) :
  forall s : Stats.stats,
    let s' := fold_left (fun acc d => Stats.recordDecision d.1 d.2 acc) l s in
    Stats.decisionCount s' = (Stats.decisionCount s + N.of_nat (length l))%N /\
    Stats.nodesEvaluated s'
    = (Stats.nodesEvaluated s + fold_right (fun d n => (d.2 + n)%N) 0%N l)%N /\
    (Stats.totalTime s'
     == Stats.totalTime s + fold_right (fun d t => d.1 + t) 0 l)%Q.
Proof.
  induction l as [|d rest IH]; intros s; cbv zeta.
  - cbn. repeat split; try lia. ring.
  - cbn [fold_left fold_right length].
    destruct (IH (Stats.recordDecision d.1 d.2 s)) as (Hc & Hn & Ht).
    cbv zeta in Hc, Hn, Ht. rewrite Hc, Hn, Ht. cbn.
    repeat split; try lia. ring.
Qed.

(** X11.  The statistics after a run of decisions.  Starting from the
    reset statistics, after one or more decisions were recorded the count
    is their number, the node counter is the sum of their node counts, and
    the average decision time is the mean of their times. *)
Theorem statistics_after_decisions (l : list (Q * N)) :
  l <> [] ->
  let s := fold_left (fun acc d => Stats.recordDecision d.1 d.2 acc) l Stats.zero in
  Stats.decisionCount s = N.of_nat (length l) /\
  Stats.nodesEvaluated s = fold_right (fun d n => (d.2 + n)%N) 0%N l /\
  (Stats.avgDecisionTime s * inject_Z (Z.of_nat (length l))
   == fold_right (fun d t => d.1 + t) 0 l)%Q.
Proof.
  intros Hne. cbv zeta.
  destruct (exists_last Hne) as (front & last & ->).
  rewrite fold_left_app. cbn [fold_left].
  set (s := fold_left _ front Stats.zero).
  destruct (recordDecisions_fold front Stats.zero) as (Hc & Hn & Ht).
  cbv zeta in Hc, Hn, Ht. fold s in Hc, Hn, Ht. cbn in Hc, Hn, Ht.
  destruct (recordDecision_invariant last.1 last.2 s) as (Havg & Hc' & Hn').
  cbv zeta in Havg, Hc', Hn'.
  assert (Hlen : length (front ++ [last]) = S (length front))
    by (rewrite length_app; simpl; lia).
  assert (Hsum : forall (A : Type) (f : Q * N -> A -> A) (a : A),
             fold_right f a (front ++ [last]) = fold_right f (f last a) front)
    by (intros; rewrite fold_right_app; reflexivity).
  split; [rewrite Hc', Hc, Hlen; lia|]. split.
  - rewrite Hn', Hn, Hsum. clear. induction front as [|d rest IH]; cbn; [lia|].
    rewrite <- IH. lia.
  - rewrite Hlen.
    replace (Z.of_nat (S (length front)))
      with (Z.of_N (Stats.decisionCount (Stats.recordDecision last.1 last.2 s)))
      by (rewrite Hc', Hc; lia).
    rewrite Havg. unfold Stats.recordDecision. cbn [Stats.totalTime].
    rewrite Ht, Hsum. clear. induction front as [|d rest IH]; cbn; [ring|].
    rewrite <- IH. ring.
Qed.

Lemma statistics_after_decisions_witness :
  let s := fold_left (fun acc d => Stats.recordDecision d.1 d.2 acc)
             [(3 # 1, 10%N); (5 # 1, 20%N)] Stats.zero in
  Stats.decisionCount s = 2%N /\ Stats.nodesEvaluated s = 30%N /\
  (Stats.avgDecisionTime s == 4)%Q.
Proof.
  cbv zeta.
  destruct (statistics_after_decisions [(3 # 1, 10%N); (5 # 1, 20%N)])
    as (Hc & Hn & _); [discriminate|].
  cbv zeta in Hc, Hn. split; [exact Hc|]. split; [exact Hn|]. reflexivity.
Defined.

(** ** Anti-oscillation tracker: penalty and recording *)

Section HistoryLoop.

Variables (len : nat) (posKey : cell).

Lemma historyLoop_proper (hist : list cell) :
  forall (i : nat) (a b : Q), (a == b)%Q ->
    (historyLoop len i hist posKey a == historyLoop len i hist posKey b)%Q.
Proof.
  induction hist as [|h rest IH]; intros i a b Hab; [exact Hab|].
  cbn [historyLoop]. apply IH. destruct (bool_decide (h = posKey)); [|exact Hab].
  rewrite Hab. reflexivity.
Qed.

(** What the loop starts with passes through it unchanged. *)
Lemma historyLoop_shift (hist : list cell) :
  forall (i : nat) (acc d : Q),
    (historyLoop len i hist posKey (acc + d)
     == historyLoop len i hist posKey acc + d)%Q.
Proof.
  induction hist as [|h rest IH]; intros i acc d; [reflexivity|].
  cbn [historyLoop]. destruct (bool_decide (h = posKey)); [|apply IH].
  rewrite <- IH. apply historyLoop_proper. ring.
Qed.

Lemma historyTerm_pos (i : nat) : (i <= len)%nat -> (0 < len)%nat ->
  (50 <= historyTerm len i)%Q.
Proof.
  intros Hi Hlen. unfold historyTerm.
  assert (H : (0 <= inject_Z (Z.of_nat len - Z.of_nat i) / inject_Z (Z.of_nat len))%Q).
  { apply Qle_shift_div_l.
    - change 0%Q with (inject_Z 0). rewrite <- Zlt_Qlt. lia.
    - rewrite Qmult_0_l. change 0%Q with (inject_Z 0). rewrite <- Zle_Qle. lia. }
  lra.
Qed.

(** The loop never lowers the penalty. *)
Lemma historyLoop_grows (hist : list cell) :
  forall (i : nat) (acc : Q),
    (i + length hist <= len)%nat ->
    (acc <= historyLoop len i hist posKey acc)%Q.
Proof.
  induction hist as [|h rest IH]; intros i acc Hlen; [apply Qle_refl|].
  cbn [historyLoop]. cbn [length] in Hlen.
  destruct (bool_decide (h = posKey)).
  - apply Qle_trans with (acc + historyTerm len i)%Q.
    + pose proof (historyTerm_pos i ltac:(lia) ltac:(lia)). lra.
    + apply IH. lia.
  - apply IH. lia.
Qed.

(** Without a match the loop adds nothing. *)
Lemma historyLoop_no_match (hist : list cell) :
  ~ In posKey hist ->
  forall (i : nat) (acc : Q), historyLoop len i hist posKey acc = acc.
Proof.
  induction hist as [|h rest IH]; intros Hin i acc; [reflexivity|].
  cbn [historyLoop]. rewrite bool_decide_eq_false_2.
  - apply IH. intros H. apply Hin. right. exact H.
  - intros ->. apply Hin. left. reflexivity.
Qed.

End HistoryLoop.

(** *** The penalty in doubles *)

(** Without a match the loop adds nothing. *)
Lemma historyLoop64_no_match (len : nat) (posKey : cell) (hist : list cell) :
  ~ In posKey hist ->
  forall (i : nat) (acc : Q), InDoubles.historyLoop len i hist posKey acc = acc.
Proof.
  induction hist as [|h rest IH]; intros Hin i acc; [reflexivity|].
  cbn [InDoubles.historyLoop]. rewrite bool_decide_eq_false_2.
  - apply IH. intros H. apply Hin. right. exact H.
  - intros ->. apply Hin. left. reflexivity.
Qed.

(** X12.  Reversing costs exactly 50 more where the amounts are whole.
    For the same tracker and position, when the cell the move leads to is
    not in the history and was visited at most 10^6 times, the penalty of
    a move that is the opposite of the last move is the penalty without a
    last move plus 50, in doubles; a last move that is [NONE] or not the
    opposite adds nothing, whatever the history. *)
Theorem reversal_adds_fifty (tr : tracker) (p : pos) (move last : direction) :
  move <> NONE ->
  exists (base withLast : Q) (target : cell),
    InDoubles.getOscillationPenalty tr p move None = Some base /\
    InDoubles.getOscillationPenalty tr p move (Some last) = Some withLast /\
    (exists ddx ddy : Z, delta 1 move = Some (ddx, ddy) /\
       target = Cell (cx (toGrid p) + ddx) (cy (toGrid p) + ddy)) /\
    (opposites last = Some move ->
     ~ In target (moveHistory tr) ->
     (default 0%N (positionVisitCount tr !! target) <= 1000000)%N ->
     (withLast == base + 50)%Q) /\
    (opposites last <> Some move -> withLast = base).
Proof.
  intros Hmove. unfold InDoubles.getOscillationPenalty.
  destruct (delta_defined 1 move Hmove) as [[ddx ddy] Hdelta]. rewrite Hdelta.
  set (posKey := Cell _ _). set (hist := moveHistory tr).
  eexists; eexists; exists posKey. split; [reflexivity|]. split; [reflexivity|].
  split; [exists ddx, ddy; split; reflexivity|].
  split.
  - intros Hopp Hin Hvisits.
    assert (Hlast : last <> NONE) by (intros ->; discriminate).
    unfold direction_eqb. rewrite (bool_decide_eq_false_2 _ Hlast).
    rewrite bool_decide_eq_true_2 by (symmetry; exact Hopp). cbn [negb andb].
    rewrite !(historyLoop64_no_match (length hist) posKey hist Hin).
    assert (H50 : (Double.add 0 50 == inject_Z 50)%Q)
      by (apply (add_whole 0 50 0 50); [lia|reflexivity|reflexivity]).
    set (v := default 0%N (positionVisitCount tr !! posKey)) in *.
    destruct (2 <? v)%N; [|rewrite H50; reflexivity].
    set (sq := Z.of_N ((v - 2) ^ 2)).
    assert (Hsq : 0 <= sq <= 1000000 * 1000000).
    { unfold sq. rewrite N2Z.inj_pow. change (Z.of_N 2) with 2. rewrite Z.pow_2_r.
      assert (0 <= Z.of_N (v - 2) <= 1000000) by lia. nia. }
    assert (HX : (Double.mul (Double.binary64 (InDoubles.ofN ((v - 2) ^ 2))) 30
                  == inject_Z (sq * 30))%Q).
    { apply mul_whole; [lia| |reflexivity].
      apply binary64_whole; [lia|reflexivity]. }
    rewrite (add_whole _ _ 50 (sq * 30) ltac:(lia) H50 HX).
    rewrite (add_whole 0 _ 0 (sq * 30) ltac:(lia) ltac:(reflexivity) HX).
    rewrite !inject_Z_plus. ring.
  - intros Hopp.
    rewrite (bool_decide_eq_false_2 (Some move = opposites last))
      by (intros H; apply Hopp; symmetry; exact H).
    rewrite andb_false_r. reflexivity.
Qed.

(** Reversing from Left to Right into a cell that is not in the history:
    nothing without the reversal, 50 with it. *)
Lemma reversal_adds_fifty_witness :
  RIGHT <> NONE /\
  exists base withLast : Q,
    InDoubles.getOscillationPenalty twoVisits (Pos 10 0) RIGHT None = Some base /\
    InDoubles.getOscillationPenalty twoVisits (Pos 10 0) RIGHT (Some LEFT)
    = Some withLast /\
    (withLast == base + 50)%Q /\ (base == 0)%Q.
Proof.
  assert (Hmove : RIGHT <> NONE) by discriminate.
  split; [exact Hmove|].
  destruct (reversal_adds_fifty twoVisits (Pos 10 0) RIGHT LEFT Hmove)
    as (base & withLast & target & Hbase & Hwith & (ddx & ddy & Hdelta & ->) & Hrev & _).
  injection Hdelta as <- <-.
  exists base, withLast. split; [exact Hbase|]. split; [exact Hwith|].
  split.
  - apply Hrev.
    + reflexivity.
    + vm_compute. intros [H|[H|[]]]; discriminate.
    + vm_compute. discriminate.
  - vm_compute in Hbase. injection Hbase as <-. reflexivity.
Defined.

(** With matches in the history the sums are rounded, and a reversal can
    cost less than 50: after the agent stood on (0, 0) and twice on
    (1, 0), the move Right from (0, 0) costs 150 without a last move and
    less than 200 after the last move Left. *)
Lemma reversal_after_matches_is_rounded :
  exists base withLast : Q,
    InDoubles.getOscillationPenalty twoMatches (Pos 0 0) RIGHT None = Some base /\
    InDoubles.getOscillationPenalty twoMatches (Pos 0 0) RIGHT (Some LEFT)
    = Some withLast /\
    (base == 150)%Q /\ (withLast < 200)%Q /\
    (withLast == 200 - Double.pow2 (-45))%Q.
Proof.
  eexists; eexists. split; [vm_compute; reflexivity|].
  split; [vm_compute; reflexivity|].
  repeat split; vm_compute; reflexivity.
Qed.

(** X13.  The penalty is defined for every real move and is never
    negative; it is 0 when the move is no reversal of the last move, the
    cell it leads to is not in the history and that cell was visited at
    most twice.  For the move [NONE] the function throws. *)
Theorem penalty_nonnegative (tr : tracker) (p : pos) (move : direction)
    (lastMove : option direction) :
  getOscillationPenalty tr p NONE lastMove = None /\
  (move <> NONE ->
   exists (q : Q) (target : cell),
     getOscillationPenalty tr p move lastMove = Some q /\
     (exists ddx ddy : Z, delta 1 move = Some (ddx, ddy) /\
        target = Cell (cx (toGrid p) + ddx) (cy (toGrid p) + ddy)) /\
     (0 <= q)%Q /\
     ((forall last : direction, lastMove = Some last -> opposites last <> Some move) ->
      ~ In target (moveHistory tr) ->
      (default 0%N (positionVisitCount tr !! target) <= 2)%N ->
      q = 0%Q)).
Proof.
  split; [reflexivity|]. intros Hmove.
  unfold getOscillationPenalty.
  destruct (delta_defined 1 move Hmove) as [[ddx ddy] Hdelta]. rewrite Hdelta.
  set (posKey := Cell _ _). set (hist := moveHistory tr).
  eexists; exists posKey. split; [reflexivity|].
  split; [exists ddx, ddy; split; reflexivity|].
  set (penalty0 := match lastMove with Some _ => _ | None => _ end).
  split.
  - assert (H0 : (0 <= penalty0)%Q).
    { unfold penalty0. destruct lastMove as [last|]; [|apply Qle_refl].
      destruct (_ && _); [discriminate|apply Qle_refl]. }
    pose proof (historyLoop_grows (length hist) posKey hist 0 penalty0
                  ltac:(simpl; lia)) as Hgrow.
    destruct (2 <? default 0%N (positionVisitCount tr !! posKey))%N.
    + assert (Hsq : (0 <= inject_Z (Z.of_N
                            ((default 0%N (positionVisitCount tr !! posKey) - 2) ^ 2)) * 30)%Q).
      { apply Qmult_le_0_compat; [|discriminate].
        change 0%Q with (inject_Z 0). rewrite <- Zle_Qle. lia. }
      lra.
    + lra.
  - intros Hlast Hin Hvisits.
    assert (H0 : penalty0 = 0%Q).
    { unfold penalty0. destruct lastMove as [last|]; [|reflexivity].
      rewrite (bool_decide_eq_false_2 (Some move = opposites last))
        by (intros H; apply (Hlast last eq_refl); symmetry; exact H).
      rewrite andb_false_r. reflexivity. }
    rewrite H0.
    rewrite (historyLoop_no_match (length hist) posKey hist Hin).
    apply N.ltb_ge in Hvisits. rewrite Hvisits. reflexivity.
Qed.

(** After the last move Left, the move Up from (0, 0) into a cell never
    visited costs nothing. *)
Lemma penalty_nonnegative_witness :
  UP <> NONE /\
  getOscillationPenalty twoVisits (Pos 0 0) UP (Some LEFT) = Some 0%Q.
Proof.
  assert (Hmove : UP <> NONE) by discriminate.
  split; [exact Hmove|].
  destruct (penalty_nonnegative twoVisits (Pos 0 0) UP (Some LEFT))
    as (_ & Hreal).
  destruct (Hreal Hmove)
    as (q & target & Hq & (ddx & ddy & Hdelta & ->) & _ & Hzero).
  injection Hdelta as <- <-.
  rewrite Hq. f_equal. apply Hzero.
  - intros last [= <-]. discriminate.
  - vm_compute. intros [H|[H|[]]]; discriminate.
  - vm_compute. discriminate.
Defined.

(** X14.  What one history match costs.  A match at index [i] of a history
    of [len] entries adds more than 50 and at most 100, exactly 100 at
    index 0 (the oldest entry), and less the later the entry was pushed. *)
Theorem history_match_cost (len i j : nat) :
  (i < len)%nat ->
  (50 < historyTerm len i)%Q /\ (historyTerm len i <= 100)%Q /\
  (historyTerm len 0 == 100)%Q /\
  ((i < j)%nat -> (j < len)%nat -> (historyTerm len j < historyTerm len i)%Q).
Proof.
  intros Hi.
  assert (Hpos : (0 < inject_Z (Z.of_nat len))%Q).
  { change 0%Q with (inject_Z 0). rewrite <- Zlt_Qlt. lia. }
  split; [|split; [|split]].
  - unfold historyTerm.
    assert (H : (0 < inject_Z (Z.of_nat len - Z.of_nat i) / inject_Z (Z.of_nat len))%Q).
    { apply Qlt_shift_div_l; [exact Hpos|].
      rewrite Qmult_0_l. change 0%Q with (inject_Z 0). rewrite <- Zlt_Qlt. lia. }
    lra.
  - unfold historyTerm.
    assert (H : (inject_Z (Z.of_nat len - Z.of_nat i) / inject_Z (Z.of_nat len) <= 1)%Q).
    { apply Qle_shift_div_r; [exact Hpos|].
      rewrite Qmult_1_l. rewrite <- Zle_Qle. lia. }
    lra.
  - apply historyTerm_oldest. lia.
  - apply historyTerm_decreasing.
Qed.

Lemma history_match_cost_witness :
  (0 < 2)%nat /\ (historyTerm 2 1 < historyTerm 2 0)%Q /\ (historyTerm 2 1 == 75)%Q.
Proof.
  split; [lia|].
  destruct (history_match_cost 2 0 1 ltac:(lia)) as (_ & _ & _ & Hdec).
  split; [apply Hdec; lia|reflexivity].
Defined.

(** X15.  Recording a position.  On a history of at most 16 entries,
    [recordPosition] appends the cell of the position, drops the oldest
    entry when that makes 17, so that the history never holds more than
    16, raises the visit count of that cell by one and leaves the count
    of every other cell as it is. *)
Theorem recordPosition_history (tr : tracker) (p : pos) :
  (length (moveHistory tr) <= 16)%nat ->
  let tr' := recordPosition tr p in
  (length (moveHistory tr') <= 16)%nat /\
  List.last (moveHistory tr') (toGrid p) = toGrid p /\
  ((length (moveHistory tr) < 16)%nat ->
   moveHistory tr' = moveHistory tr ++ [toGrid p]) /\
  ((length (moveHistory tr) = 16)%nat ->
   moveHistory tr' = List.tl (moveHistory tr) ++ [toGrid p]) /\
  positionVisitCount tr' !! toGrid p
  = Some (default 0%N (positionVisitCount tr !! toGrid p) + 1)%N /\
  (forall c : cell, c <> toGrid p ->
     positionVisitCount tr' !! c = positionVisitCount tr !! c).
Proof.
  intros Hlen. cbv zeta. unfold recordPosition. cbn [moveHistory positionVisitCount].
  unfold HISTORY_LENGTH. rewrite length_app. cbn [length].
  split; [|split; [|split; [|split; [|split]]]].
  - destruct (Nat.ltb_spec 16 (length (moveHistory tr) + 1)).
    + destruct (moveHistory tr) as [|h rest]; cbn in *; [lia|].
      rewrite length_app. cbn. lia.
    + rewrite length_app. cbn. lia.
  - destruct (Nat.ltb_spec 16 (length (moveHistory tr) + 1)).
    + destruct (moveHistory tr) as [|h rest]; cbn [List.tl app]; [reflexivity|].
      apply last_last.
    + apply last_last.
  - intros H. destruct (Nat.ltb_spec 16 (length (moveHistory tr) + 1)); [lia|].
    reflexivity.
  - intros H. destruct (Nat.ltb_spec 16 (length (moveHistory tr) + 1)); [|lia].
    destruct (moveHistory tr) as [|h rest]; [discriminate|]. reflexivity.
  - apply lookup_insert_eq.
  - intros c Hc. apply lookup_insert_ne. congruence.
Qed.

(** Seventeen positions in a row: the first is forgotten. *)
Lemma recordPosition_history_witness :
  let full := fold_left recordPosition
                (List.map (fun k => Pos (10 * Z.of_nat k) 0) (seq 0 16)) emptyTracker in
  (length (moveHistory full) <= 16)%nat /\
  length (moveHistory (recordPosition full (Pos 160 0))) = 16%nat /\
  List.hd (Cell 0 0) (moveHistory (recordPosition full (Pos 160 0))) = Cell 1 0.
Proof.
  cbv zeta.
  set (full := fold_left recordPosition _ emptyTracker).
  assert (Hlen : (length (moveHistory full) <= 16)%nat) by (vm_compute; lia).
  split; [exact Hlen|].
  destruct (recordPosition_history full (Pos 160 0) Hlen)
    as (_ & _ & _ & Hfull & _).
  rewrite (Hfull ltac:(vm_compute; reflexivity)).
  split; vm_compute; reflexivity.
Defined.

(** ** Static evaluator: inputs and bounds *)

Lemma splitGhosts_needs_states (ghostStates : list ghostState)
    (ghostPositions : list pos) :
  forall (i : nat) (dangerous edible : list pos),
    is_Some (splitGhosts i ghostPositions ghostStates dangerous edible) ->
    ghostPositions = [] \/ (i + length ghostPositions <= length ghostStates)%nat.
Proof.
  induction ghostPositions as [|g rest IH]; intros i dangerous edible Hsome;
    [left; reflexivity|].
  right. cbn [splitGhosts] in Hsome. cbn [length].
  destruct (ghostStates !! i) as [s|] eqn:Hs; [|destruct Hsome; discriminate].
  apply lookup_lt_Some in Hs.
  destruct (isEdible s); apply IH in Hsome; destruct Hsome as [->|H]; cbn; lia.
Qed.

(** X16.  What the evaluator needs and what it reads.  It answers exactly
    when there is a state for every ghost position (extra states are
    ignored), and its score depends on the states only through their
    [isEdible] flags: [isDangerous] is never read. *)
Theorem evaluator_inputs (map : gameMap) (pacmanPos : pos)
    (ghostPositions : list pos) (states states' : list ghostState) :
  (is_Some (evaluateState map pacmanPos ghostPositions states)
   <-> (length ghostPositions <= length states)%nat) /\
  (List.map isEdible states = List.map isEdible states' ->
   evaluateState map pacmanPos ghostPositions states
   = evaluateState map pacmanPos ghostPositions states').
Proof.
  split; [split|].
  - intros Hsome. unfold evaluateState in Hsome.
    destruct (splitGhosts 0 ghostPositions states [] []) as [r|] eqn:Hsplit;
      [|destruct Hsome; discriminate].
    destruct (splitGhosts_needs_states states ghostPositions 0 [] []
                ltac:(rewrite Hsplit; eauto)) as [->|H]; simpl in *; lia.
  - apply evaluateState_total.
  - apply evaluateState_ignores_isDangerous.
Qed.

Lemma evaluator_inputs_witness :
  List.map isEdible [respawning] = List.map isEdible [GhostState false true] /\
  evaluateState openMap (Pos 0 0) [Pos 20 0] [respawning]
  = evaluateState openMap (Pos 0 0) [Pos 20 0] [GhostState false true] /\
  ~ is_Some (evaluateState openMap (Pos 0 0) [Pos 20 0] []).
Proof.
  destruct (evaluator_inputs openMap (Pos 0 0) [Pos 20 0] [respawning]
              [GhostState false true]) as (_ & Hread).
  destruct (evaluator_inputs openMap (Pos 0 0) [Pos 20 0] [] []) as (Hsome & _).
  split; [reflexivity|]. split; [apply Hread; reflexivity|].
  intros H. apply Hsome in H. simpl in H. lia.
Defined.

Lemma dangerTerm_nonneg (dist : Z) : (0 <= dangerTerm dist)%Q.
Proof.
  unfold dangerTerm.
  destruct (Z.ltb_spec dist 2); [discriminate|].
  assert (Hd : (0 < inject_Z dist)%Q)
    by (change 0%Q with (inject_Z 0); rewrite <- Zlt_Qlt; lia).
  destruct (Z.ltb_spec dist 4).
  - apply Qle_shift_div_l; [exact Hd|]. rewrite Qmult_0_l. discriminate.
  - destruct (Z.ltb_spec dist 8); [|apply Qle_refl].
    apply Qle_shift_div_l; [exact Hd|]. rewrite Qmult_0_l. discriminate.
Qed.

Lemma danger_fold_le (dists : list Z) :
  forall acc : Q,
    (fold_left (fun sc dist => sc - dangerTerm dist) dists acc <= acc)%Q.
Proof.
  induction dists as [|d rest IH]; intros acc; [apply Qle_refl|].
  cbn [fold_left]. eapply Qle_trans; [apply IH|].
  pose proof (dangerTerm_nonneg d). lra.
Qed.

Lemma danger_fold_close (dists : list Z) (d : Z) :
  In d dists -> d < 2 ->
  forall acc : Q,
    (fold_left (fun sc dist => sc - dangerTerm dist) dists acc <= acc - 2000)%Q.
Proof.
  intros Hin Hd. induction dists as [|d0 rest IH]; intros acc; [destruct Hin|].
  cbn [fold_left]. destruct Hin as [->|Hin].
  - eapply Qle_trans; [apply danger_fold_le|].
    unfold dangerTerm. apply Z.ltb_lt in Hd. rewrite Hd. apply Qle_refl.
  - eapply Qle_trans; [apply (IH Hin)|].
    pose proof (dangerTerm_nonneg d0). lra.
Qed.

(** The minimum of a list is at most each of its entries. *)
Lemma num_min_list_le (l : list Z) (d k : Z) :
  In d l -> d <= k -> num_ltb (Fin (inject_Z k)) (num_min_list l) = false.
Proof.
  intros Hin Hk. unfold num_min_list.
  assert (Hgen : forall (l : list Z) (acc : num),
             (In d l \/ exists q : Q, acc = Fin q /\ (q <= inject_Z d)%Q) ->
             (acc = PosInf \/ exists q : Q, acc = Fin q) ->
             exists q : Q,
               fold_left (fun m x => num_min m (Fin (inject_Z x))) l acc = Fin q /\
               (q <= inject_Z d)%Q).
  { clear. intros l. induction l as [|x rest IH]; intros acc Hd Hacc.
    - destruct Hd as [[]|Hd]. exact Hd.
    - cbn [fold_left]. apply IH.
      + destruct Hd as [[->|Hin]|(q & -> & Hq)].
        * right. destruct Hacc as [->|[q ->]].
          -- exists (inject_Z d). split; [reflexivity|apply Qle_refl].
          -- cbn. destruct (Qltb (inject_Z d) q) eqn:E.
             ++ exists (inject_Z d). split; [reflexivity|apply Qle_refl].
             ++ exists q. split; [reflexivity|].
                unfold Qltb in E. apply negb_false_iff, Qle_bool_iff in E. exact E.
        * left. exact Hin.
        * right. cbn. destruct (Qltb (inject_Z x) q) eqn:E.
          -- exists (inject_Z x). split; [reflexivity|].
             unfold Qltb in E. apply negb_true_iff in E.
             destruct (Qlt_le_dec (inject_Z x) q) as [Hlt|Hle].
             ++ apply Qlt_le_weak in Hlt. eapply Qle_trans; eauto.
             ++ apply Qle_bool_iff in Hle. congruence.
          -- exists q. split; [reflexivity|exact Hq].
      + right. destruct Hacc as [->|[q ->]]; cbn.
        * eauto.
        * destruct (Qltb (inject_Z x) q); eauto. }
  destruct (Hgen l PosInf (or_introl Hin) (or_introl eq_refl)) as (q & -> & Hq).
  cbn. unfold Qltb. apply negb_false_iff, Qle_bool_iff.
  eapply Qle_trans; [exact Hq|]. rewrite <- Zle_Qle. exact Hk.
Qed.

Lemma splitGhosts_none_edible (ghostStates : list ghostState)
    (ghostPositions : list pos) :
  Forall (fun s => isEdible s = false) ghostStates ->
  forall (i : nat) (dangerous edible : list pos),
    (i + length ghostPositions <= length ghostStates)%nat ->
    splitGhosts i ghostPositions ghostStates dangerous edible
    = Some (dangerous ++ ghostPositions, edible).
Proof.
  intros Hall. induction ghostPositions as [|g rest IH];
    intros i dangerous edible Hlen.
  - cbn. rewrite app_nil_r. reflexivity.
  - cbn [splitGhosts]. cbn [length] in Hlen.
    destruct (lookup_lt_is_Some_2 ghostStates i ltac:(lia)) as [s Hs].
    rewrite Hs.
    assert (He : isEdible s = false).
    { rewrite Forall_forall in Hall. apply Hall.
      apply list_elem_of_lookup. eauto. }
    rewrite He. rewrite IH by lia. rewrite <- app_assoc. reflexivity.
Qed.

(** X17.  A ghost within one cell dominates the score.  When no ghost is
    edible and some ghost is at Manhattan distance 0 or 1 from the agent,
    the score is at most -1500: the 2000 taken for that ghost outweigh
    whatever the agent's cell is worth, and the term that rewards
    closeness to a pellet is not added. *)
Theorem evaluator_close_ghost (map : gameMap) (pacmanPos ghost : pos)
    (ghostPositions : list pos) (ghostStates : list ghostState) :
  (length ghostPositions <= length ghostStates)%nat ->
  Forall (fun s => isEdible s = false) ghostStates ->
  In ghost ghostPositions ->
  manhattanDistance (toGrid pacmanPos) (toGrid ghost) < 2 ->
  exists score : Q,
    evaluateState map pacmanPos ghostPositions ghostStates = Some score /\
    (score <= -1500)%Q.
Proof.
  intros Hlen Hall Hin Hclose. unfold evaluateState.
  rewrite (splitGhosts_none_edible ghostStates ghostPositions Hall 0 [] [])
    by (simpl; lia).
  cbn [app mbind option_bind fold_left length].
  set (dists := List.map _ ghostPositions).
  assert (Hd : In (manhattanDistance (toGrid pacmanPos) (toGrid ghost)) dists).
  { unfold dists. apply in_map_iff. eauto. }
  pose proof (danger_fold_close dists _ Hd Hclose 0%Q) as Hscore1.
  set (score1 := fold_left _ dists 0%Q) in *.
  change (Fin 8) with (Fin (inject_Z 8)).
  rewrite (num_min_list_le dists _ 8 Hd ltac:(lia)).
  assert (Hlen0 : (length ghostPositions =? 0)%nat = false).
  { destruct ghostPositions; [destruct Hin|reflexivity]. }
  rewrite Hlen0. cbn [orb andb Nat.eqb].
  eexists. split; [reflexivity|].
  destruct (tileAt _ _ _) as [[| | | |]|];
    rewrite ?(bool_decide_eq_true_2 _ eq_refl);
    rewrite ?bool_decide_eq_false_2 by discriminate;
    repeat match goal with
           | |- context [if ?b then _ else _] => destruct b
           end; lra.
Qed.

Lemma evaluator_close_ghost_witness :
  exists score : Q,
    evaluateState openMap (Pos 0 0) [Pos 80 0; Pos 10 0]
      [GhostState false true; respawning] = Some score /\
    (score <= -1500)%Q.
Proof.
  apply (evaluator_close_ghost openMap (Pos 0 0) (Pos 10 0)).
  - simpl. lia.
  - repeat constructor.
  - simpl. tauto.
  - vm_compute. reflexivity.
Defined.

(** ** Nearest pellet *)

Section Scan.

Variables (wanted : tile -> bool) (from : cell).

(** One step of the scans, on one cell with its tile. *)
Let visit (best : option (cell * Z)) (ct : cell * tile) : option (cell * Z) :=
  if wanted ct.2 then
    let dist := manhattanDistance from ct.1 in
    match best with
    | Some (_, minDist) => if dist <? minDist then Some (ct.1, dist) else best
    | None => Some (ct.1, dist)
    end
  else best.

Lemma scanRow_visits (row : list tile) :
  forall (y x : Z) (best : option (cell * Z)),
    scanRow wanted from y x row best = fold_left visit (cellsOfRow y x row) best.
Proof.
  induction row as [|t rest IH]; intros y x best; [reflexivity|].
  cbn [scanRow cellsOfRow fold_left]. rewrite IH. reflexivity.
Qed.

Lemma scanRows_visits (rows : list (list tile)) :
  forall (y : Z) (best : option (cell * Z)),
    scanRows wanted from y rows best = fold_left visit (cellsOf y rows) best.
Proof.
  induction rows as [|row rest IH]; intros y best; [reflexivity|].
  cbn [scanRows cellsOf]. rewrite fold_left_app, IH, scanRow_visits. reflexivity.
Qed.

(** What is known about [best] after the cells of [seen]. *)
Let sound (seen : list (cell * tile)) (best : option (cell * Z)) : Prop :=
  match best with
  | None => forall ct : cell * tile, In ct seen -> wanted ct.2 = false
  | Some (c, minDist) =>
      minDist = manhattanDistance from c /\
      (exists t : tile, In (c, t) seen /\ wanted t = true) /\
      forall ct : cell * tile, In ct seen -> wanted ct.2 = true ->
                               minDist <= manhattanDistance from ct.1
  end.

Lemma visit_sound (l : list (cell * tile)) :
  forall (seen : list (cell * tile)) (best : option (cell * Z)),
    sound seen best -> sound (seen ++ l) (fold_left visit l best).
Proof.
  induction l as [|ct rest IH]; intros seen best Hbest.
  - rewrite app_nil_r. exact Hbest.
  - cbn [fold_left].
    replace (seen ++ ct :: rest) with ((seen ++ [ct]) ++ rest)
      by (rewrite <- app_assoc; reflexivity).
    apply IH. unfold visit, sound in *. destruct ct as [c t]. cbn [fst snd].
    destruct (wanted t) eqn:Hw.
    + destruct best as [[c0 m0]|].
      * destruct Hbest as (Hm & (t0 & Hin0 & Hw0) & Hmin).
        destruct (Z.ltb_spec (manhattanDistance from c) m0).
        -- split; [reflexivity|]. split.
           ++ exists t. split; [apply in_or_app; right; left; reflexivity|exact Hw].
           ++ intros ct Hin Hwct. apply in_app_or in Hin.
              destruct Hin as [Hin|[<-|[]]]; [|cbn; lia].
              specialize (Hmin ct Hin Hwct). lia.
        -- split; [exact Hm|]. split.
           ++ exists t0. split; [apply in_or_app; left; exact Hin0|exact Hw0].
           ++ intros ct Hin Hwct. apply in_app_or in Hin.
              destruct Hin as [Hin|[<-|[]]]; [apply Hmin; assumption|cbn; lia].
      * split; [reflexivity|]. split.
        -- exists t. split; [apply in_or_app; right; left; reflexivity|exact Hw].
        -- intros ct Hin Hwct. apply in_app_or in Hin.
           destruct Hin as [Hin|[<-|[]]]; [|cbn; lia].
           rewrite (Hbest ct Hin) in Hwct. discriminate.
    + destruct best as [[c0 m0]|].
      * destruct Hbest as (Hm & (t0 & Hin0 & Hw0) & Hmin).
        split; [exact Hm|]. split.
        -- exists t0. split; [apply in_or_app; left; exact Hin0|exact Hw0].
        -- intros ct Hin Hwct. apply in_app_or in Hin.
           destruct Hin as [Hin|[<-|[]]]; [apply Hmin; assumption|].
           cbn in Hwct. congruence.
      * intros ct Hin. apply in_app_or in Hin.
        destruct Hin as [Hin|[<-|[]]]; [apply Hbest; exact Hin|exact Hw].
Qed.

End Scan.

Lemma cellsOfRow_In (row : list tile) :
  forall (y0 x0 : Z) (c : cell) (t : tile),
    In (c, t) (cellsOfRow y0 x0 row) <->
    cy c = y0 /\ x0 <= cx c /\ nth_error row (Z.to_nat (cx c - x0)) = Some t.
Proof.
  induction row as [|t0 rest IH]; intros y0 x0 c t.
  - cbn. split; [tauto|]. intros (_ & _ & H). destruct (Z.to_nat _); discriminate.
  - cbn [cellsOfRow In]. rewrite IH. split.
    + intros [Heq|(Hy & Hx & Hnth)].
      * injection Heq as <- <-. cbn. rewrite Z.sub_diag. repeat split; lia.
      * split; [exact Hy|]. split; [lia|].
        replace (Z.to_nat (cx c - x0)) with (S (Z.to_nat (cx c - (x0 + 1)))) by lia.
        exact Hnth.
    + intros (Hy & Hx & Hnth).
      destruct (Z.eq_dec (cx c) x0) as [Hxe|Hxn].
      * left. rewrite Hxe, Z.sub_diag in Hnth. cbn in Hnth. injection Hnth as <-.
        destruct c as [x y]. cbn in *. subst. reflexivity.
      * right. split; [exact Hy|]. split; [lia|].
        replace (Z.to_nat (cx c - x0)) with (S (Z.to_nat (cx c - (x0 + 1)))) in Hnth
          by lia.
        exact Hnth.
Qed.

Lemma cellsOf_In (rows : list (list tile)) :
  forall (y0 : Z) (c : cell) (t : tile),
    In (c, t) (cellsOf y0 rows) <->
    y0 <= cy c /\ 0 <= cx c /\
    exists row : list tile,
      nth_error rows (Z.to_nat (cy c - y0)) = Some row /\
      nth_error row (Z.to_nat (cx c)) = Some t.
Proof.
  induction rows as [|row0 rest IH]; intros y0 c t.
  - cbn. split; [tauto|]. intros (_ & _ & row & H & _).
    destruct (Z.to_nat _); discriminate.
  - cbn [cellsOf]. rewrite in_app_iff, cellsOfRow_In, IH. split.
    + intros [(Hy & Hx & Hnth)|(Hy & Hx & row & Hrow & Hnth)].
      * split; [lia|]. split; [exact Hx|]. exists row0.
        rewrite Hy, Z.sub_diag. rewrite Z.sub_0_r in Hnth. split; [reflexivity|exact Hnth].
      * split; [lia|]. split; [exact Hx|]. exists row.
        replace (Z.to_nat (cy c - y0)) with (S (Z.to_nat (cy c - (y0 + 1)))) by lia.
        split; [exact Hrow|exact Hnth].
    + intros (Hy & Hx & row & Hrow & Hnth).
      destruct (Z.eq_dec (cy c) y0) as [Hye|Hyn].
      * left. rewrite Hye, Z.sub_diag in Hrow. cbn in Hrow. injection Hrow as <-.
        split; [exact Hye|]. split; [exact Hx|]. rewrite Z.sub_0_r. exact Hnth.
      * right. split; [lia|]. split; [exact Hx|]. exists row.
        replace (Z.to_nat (cy c - y0)) with (S (Z.to_nat (cy c - (y0 + 1)))) in Hrow
          by lia.
        split; [exact Hrow|exact Hnth].
Qed.

Lemma tileAt_cells (mapData : list (list tile)) (c : cell) (t : tile) :
  tileAt mapData (cx c) (cy c) = Some t <-> In (c, t) (cellsOf 0 mapData).
Proof.
  rewrite cellsOf_In. unfold tileAt. rewrite Z.sub_0_r.
  destruct (Z.ltb_spec (cy c) 0); destruct (Z.ltb_spec (cx c) 0); cbn [orb];
    try (split; [discriminate|intros (? & ? & _); lia]).
  destruct (nth_error mapData (Z.to_nat (cy c))) as [row|].
  - split.
    + intros Hnth. split; [lia|]. split; [lia|]. exists row. split; [reflexivity|exact Hnth].
    + intros (_ & _ & row' & Hrow & Hnth). injection Hrow as <-. exact Hnth.
  - split; [discriminate|]. intros (_ & _ & row' & Hrow & _). discriminate.
Qed.

(** The three pellet searches are one scan with three tests. *)
Lemma scan_nearest (wanted : tile -> bool) (from : cell) (mapData : list (list tile)) :
  match fst <$> scanRows wanted from 0 mapData None with
  | None => forall c : cell, ~ holds wanted mapData c
  | Some nearest =>
      holds wanted mapData nearest /\
      forall c : cell, holds wanted mapData c ->
        manhattanDistance from nearest <= manhattanDistance from c
  end.
Proof.
  rewrite scanRows_visits.
  pose proof (visit_sound wanted from (cellsOf 0 mapData) [] None) as Hsound.
  cbn [app] in Hsound. specialize (Hsound ltac:(intros ct [])).
  destruct (fold_left _ _ None) as [[nearest m]|]; cbn [fmap option_fmap option_map fst].
  - destruct Hsound as (Hm & (t & Hin & Hw) & Hmin). split.
    + exists t. split; [apply tileAt_cells; exact Hin|exact Hw].
    + intros c (tc & Htc & Hwc). rewrite <- Hm.
      apply (Hmin (c, tc)); [apply tileAt_cells; exact Htc|exact Hwc].
  - intros c (tc & Htc & Hwc). apply tileAt_cells in Htc.
    pose proof (Hsound (c, tc) Htc) as Hno. cbn in Hno. congruence.
Qed.

(** X18.  The pellet searches find a nearest pellet.  Each of the three
    searches returns nothing exactly when the map data holds no cell of
    the kind it looks for (any pellet, plain pellets, power pellets), and
    otherwise a cell of that kind at the least Manhattan distance from the
    given cell. *)
Theorem nearest_pellet_is_nearest (map : gameMap) (from : cell) :
  let any := fun t => bool_decide (t = BISCUIT) || bool_decide (t = PILL) in
  let plain := fun t => bool_decide (t = BISCUIT) in
  let power := fun t => bool_decide (t = PILL) in
  let spec := fun (wanted : tile -> bool) (r : option cell) =>
    match r with
    | None => forall c : cell, ~ holds wanted (getMap map) c
    | Some nearest =>
        holds wanted (getMap map) nearest /\
        forall c : cell, holds wanted (getMap map) c ->
          manhattanDistance from nearest <= manhattanDistance from c
    end in
  spec any (findNearestPellet map from) /\
  spec plain (findNearestRegularPellet map from) /\
  spec power (findNearestPowerPellet map from).
Proof.
  cbv zeta. split; [|split]; apply scan_nearest.
Qed.

(** ** The selection loop *)

Lemma Qltb_false (a b : Q) : Qltb a b = false <-> (b <= a)%Q.
Proof. unfold Qltb. rewrite negb_false_iff. apply Qle_bool_iff. Qed.

Lemma Qltb_true (a b : Q) : Qltb a b = true <-> (a < b)%Q.
Proof.
  unfold Qltb. rewrite negb_true_iff. split.
  - intros H. apply Qnot_le_lt. intros Hle. apply Qle_bool_iff in Hle. congruence.
  - intros H. destruct (Qle_bool b a) eqn:E; [|reflexivity].
    apply Qle_bool_iff in E. exfalso. apply (Qlt_not_le _ _ H E).
Qed.

Section ChooseBest.

Variable score : direction -> option num.

(** The loop on moves that all have a finite score: it ends on a move
    that it met, or on the one it started with, and no move it met scores
    more than what it ends with. *)
Lemma chooseBest_run (moves : list direction) :
  (forall m : direction, In m moves -> exists q : Q, score m = Some (Fin q)) ->
  forall (best : direction) (bestSc : num),
    lowerBound bestSc ->
    exists (best' : direction) (sc' : num),
      chooseBest score moves best bestSc = Some (best', sc') /\
      lowerBound sc' /\
      ((best' = best /\ sc' = bestSc) \/ (In best' moves /\ score best' = Some sc')) /\
      num_ltb sc' bestSc = false /\
      (forall (m : direction) (q : Q),
          In m moves -> score m = Some (Fin q) -> num_ltb sc' (Fin q) = false).
Proof.
  induction moves as [|m0 rest IH]; intros Hfin best bestSc Hbound.
  - exists best, bestSc. split; [reflexivity|]. split; [exact Hbound|].
    split; [left; split; reflexivity|]. split.
    + destruct Hbound as [->|[b ->]]; [reflexivity|].
      cbn. apply Qltb_false. apply Qle_refl.
    + intros m q [].
  - cbn [chooseBest].
    destruct (Hfin m0 (or_introl eq_refl)) as [s Hs]. rewrite Hs.
    cbn [mbind option_bind].
    assert (Hrest : forall m : direction, In m rest ->
                      exists q : Q, score m = Some (Fin q))
      by (intros m Hm; apply Hfin; right; exact Hm).
    destruct (num_ltb bestSc (Fin s)) eqn:Hlt.
    + destruct (IH Hrest m0 (Fin s) (or_intror (ex_intro _ s eq_refl)))
        as (best' & sc' & Hrun & Hb' & Hwhere & Hge & Hmax).
      exists best', sc'. split; [exact Hrun|]. split; [exact Hb'|].
      assert (Hs' : exists b' : Q, sc' = Fin b' /\ (s <= b')%Q).
      { destruct Hb' as [->|[b' ->]]; [discriminate Hge|].
        exists b'. split; [reflexivity|]. cbn in Hge. apply Qltb_false in Hge.
        exact Hge. }
      destruct Hs' as (b' & -> & Hsb').
      split; [|split].
      * right. destruct Hwhere as [[-> Heq]|[Hin Hsc]].
        -- split; [left; reflexivity|]. rewrite Hs, Heq. reflexivity.
        -- split; [right; exact Hin|exact Hsc].
      * destruct Hbound as [->|[b ->]]; [reflexivity|].
        cbn in Hlt |- *. apply Qltb_true in Hlt. apply Qltb_false.
        apply Qlt_le_weak. eapply Qlt_le_trans; eauto.
      * intros m q [<-|Hin] Hq.
        -- rewrite Hs in Hq. injection Hq as <-. cbn. apply Qltb_false. exact Hsb'.
        -- apply (Hmax m q Hin Hq).
    + destruct (IH Hrest best bestSc Hbound)
        as (best' & sc' & Hrun & Hb' & Hwhere & Hge & Hmax).
      exists best', sc'. split; [exact Hrun|]. split; [exact Hb'|].
      split; [|split].
      * destruct Hwhere as [H|[Hin Hsc]]; [left; exact H|].
        right. split; [right; exact Hin|exact Hsc].
      * exact Hge.
      * intros m q [<-|Hin] Hq; [|apply (Hmax m q Hin Hq)].
        rewrite Hs in Hq. injection Hq as <-.
        destruct Hbound as [->|[b ->]]; [discriminate Hlt|].
        destruct Hb' as [->|[b' ->]]; [discriminate Hge|].
        cbn in Hlt, Hge |- *. apply Qltb_false in Hlt, Hge. apply Qltb_false.
        eapply Qle_trans; eauto.
Qed.

(** Started on a non-empty list with [-Infinity], the loop ends on a best
    move of the list. *)
Lemma chooseBest_best (first : direction) (rest : list direction) :
  (forall m : direction, In m (first :: rest) ->
     exists q : Q, score m = Some (Fin q)) ->
  exists (best : direction) (b : Q),
    chooseBest score (first :: rest) first NegInf = Some (best, Fin b) /\
    bestAmong score (first :: rest) best.
Proof.
  intros Hfin.
  destruct (chooseBest_run (first :: rest) Hfin first NegInf (or_introl eq_refl))
    as (best & sc & Hrun & Hb & Hwhere & _ & Hmax).
  destruct (Hfin first (or_introl eq_refl)) as [s Hs].
  pose proof (Hmax first s (or_introl eq_refl) Hs) as Hfirst.
  destruct Hb as [->|[b ->]]; [discriminate Hfirst|].
  exists best, b. split; [exact Hrun|].
  assert (Hin : In best (first :: rest) /\ score best = Some (Fin b)).
  { destruct Hwhere as [[_ Heq]|H]; [discriminate Heq|exact H]. }
  destruct Hin as [Hin Hsc]. split; [exact Hin|].
  exists b. split; [exact Hsc|].
  intros m q Hm Hq. specialize (Hmax m q Hm Hq). cbn in Hmax.
  apply Qltb_false in Hmax. exact Hmax.
Qed.

End ChooseBest.

Lemma stepCell_defined (c : cell) (m : direction) :
  m <> NONE -> is_Some (stepCell c m).
Proof. destruct m; cbn; eauto. congruence. Qed.

(** A valid move leads to a floor cell. *)
Lemma validMove_floor (map : gameMap) (p : pos) (m : direction) :
  In m (getValidMoves map p) <->
  exists c : cell, stepCell (toGrid p) m = Some c /\ isFloorSpace map c = true.
Proof.
  unfold getValidMoves. rewrite filter_In. unfold stepCell, toGrid. cbn [cx cy].
  split.
  - intros [Hin Hfloor]. destruct (delta 1 m) as [[ddx ddy]|]; [|discriminate].
    cbn. eauto.
  - intros (c & Hc & Hfloor). destruct m; cbn in Hc |- *; try discriminate;
      injection Hc as <-; (split; [tauto|exact Hfloor]).
Qed.

(** ** Classic ghosts *)

Lemma isValid_In (validMoves : list direction) (m : direction) :
  ClassicGhostAI.isValid validMoves m = true <-> In m validMoves.
Proof.
  unfold ClassicGhostAI.isValid. rewrite existsb_exists. split.
  - intros (v & Hin & Hv). unfold direction_eqb in Hv.
    apply bool_decide_eq_true in Hv. subst. exact Hin.
  - intros Hin. exists m. split; [exact Hin|].
    unfold direction_eqb. apply bool_decide_eq_true. reflexivity.
Qed.

(** [moveToward] answers [NONE] exactly when the ghost has no valid move,
    and a valid move otherwise. *)
Lemma moveToward_valid (map : gameMap) (ghostPos targetPos : pos) :
  let dir := ClassicGhostAI.moveToward map ghostPos targetPos in
  (getValidMoves map ghostPos = [] -> dir = NONE) /\
  (getValidMoves map ghostPos <> [] -> In dir (getValidMoves map ghostPos)).
Proof.
  cbv zeta. unfold ClassicGhostAI.moveToward.
  destruct (getValidMoves map ghostPos) as [|first rest] eqn:Hmoves.
  - split; [reflexivity|congruence].
  - split; [discriminate|]. intros _.
    destruct (List.find _ _) as [m|] eqn:Hfind.
    + apply find_some in Hfind. destruct Hfind as [_ Hvalid].
      apply isValid_In in Hvalid. exact Hvalid.
    + left. reflexivity.
Qed.

(** X19.  The classic ghosts never walk into a wall.  Whatever the index
    of the ghost (Blinky, Pinky, Inky, Clyde or any other), the classic
    controller answers [NONE] when the ghost has no valid move and
    otherwise one of its valid moves, which leads to a floor cell. *)
Theorem classic_ghost_moves_are_valid (map : gameMap) (g : GhostControllers.ghost)
    (pacmanPos : pos) (pacmanDir : direction)
    (allGhosts : list GhostControllers.ghost) :
  let ghostPos := GhostControllers.getPosition g in
  let dir := GhostControllers.classic map g pacmanPos pacmanDir allGhosts in
  (getValidMoves map ghostPos = [] -> dir = NONE) /\
  (getValidMoves map ghostPos <> [] ->
   In dir (getValidMoves map ghostPos) /\
   exists c : cell, stepCell (toGrid ghostPos) dir = Some c /\
                    isFloorSpace map c = true).
Proof.
  cbv zeta.
  assert (H : exists target : pos,
             GhostControllers.classic map g pacmanPos pacmanDir allGhosts
             = ClassicGhostAI.moveToward map (GhostControllers.getPosition g) target).
  { unfold GhostControllers.classic, ClassicGhostAI.blinky, ClassicGhostAI.pinky,
      ClassicGhostAI.inky, ClassicGhostAI.clyde.
    destruct (GhostControllers.getIndex g) as [|[|[|[|i]]]]; try (eexists; reflexivity).
    destruct (8 <? _); eexists; reflexivity. }
  destruct H as [target ->].
  destruct (moveToward_valid map (GhostControllers.getPosition g) target) as [Hnone Hsome].
  split; [exact Hnone|]. intros Hne. split; [apply Hsome; exact Hne|].
  apply validMove_floor. apply Hsome. exact Hne.
Qed.

(** Clyde next to the agent makes for his corner, down and to the left;
    with a wall below him he goes Left. *)
Lemma classic_ghost_moves_are_valid_witness :
  let map := GameMap (fun c => negb (bool_decide (c = Cell 5 6))) [] in
  let clyde := GhostControllers.Ghost (Pos 50 50) 3 in
  getValidMoves map (Pos 50 50) <> [] /\
  GhostControllers.classic map clyde (Pos 50 40) UP [] = LEFT.
Proof.
  cbv zeta.
  set (map := GameMap _ _). set (clyde := GhostControllers.Ghost _ _).
  assert (Hne : getValidMoves map (Pos 50 50) <> []) by discriminate.
  split; [exact Hne|].
  destruct (classic_ghost_moves_are_valid map clyde (Pos 50 40) UP []) as [_ Hvalid].
  destruct (Hvalid Hne) as [_ _]. vm_compute. reflexivity.
Defined.

(** ** Greedy controller *)

(** X20.  The greedy controller.  Boxed in, it answers [NONE] and records
    nothing.  Otherwise it answers one of the valid moves, reports their
    number as node count and records the position; without a pellet on
    the map the answer is the first valid move, and with one it is a move
    for which the distance to the nearest pellet after the step plus the
    oscillation penalty is least among the valid moves. *)
Theorem greedy_choice (tr : tracker) (map : gameMap) (pacmanPos : pos)
    (lastMove : option direction) :
  let validMoves := getValidMoves map pacmanPos in
  (validMoves = [] ->
   PacmanControllers'.greedy tr map pacmanPos lastMove
   = Some (PacmanControllers'.Answer NONE None tr)) /\
  (validMoves <> [] ->
   exists move : direction,
     PacmanControllers'.greedy tr map pacmanPos lastMove
     = Some (PacmanControllers'.Answer move (Some (Z.of_nat (length validMoves)))
               (recordPosition tr pacmanPos)) /\
     In move validMoves /\
     (findNearestPellet map (toGrid pacmanPos) = None ->
      move = List.hd NONE validMoves) /\
     (forall nearest : cell,
        findNearestPellet map (toGrid pacmanPos) = Some nearest ->
        exists cost : Q,
          greedyCost tr pacmanPos lastMove nearest move = Some cost /\
          forall m : direction, In m validMoves ->
            exists costM : Q,
              greedyCost tr pacmanPos lastMove nearest m = Some costM /\
              (cost <= costM)%Q)).
Proof.
  cbv zeta. unfold PacmanControllers'.greedy.
  destruct (getValidMoves map pacmanPos) as [|first rest] eqn:Hmoves.
  - split; [reflexivity|congruence].
  - split; [discriminate|]. intros _.
    destruct (findNearestPellet map (toGrid pacmanPos)) as [nearest|].
    2:{ exists first. split; [reflexivity|]. split; [left; reflexivity|].
        split; [reflexivity|discriminate]. }
    match goal with |- context [chooseBest ?f _ _ _] => set (score := f) end.
    assert (Hscore : forall m : direction, In m (first :: rest) ->
               exists c q : Q,
                 greedyCost tr pacmanPos lastMove nearest m = Some c /\
                 score m = Some (Fin q) /\ (q == - c)%Q).
    { intros m Hm. assert (Hne : m <> NONE).
      { apply (validMove_not_NONE map pacmanPos). rewrite Hmoves. exact Hm. }
      destruct (stepCell_defined (toGrid pacmanPos) m Hne) as [newPos HnewPos].
      destruct (getOscillationPenalty_total tr pacmanPos m lastMove Hne) as [pen Hpen].
      exists (inject_Z (manhattanDistance newPos nearest) + pen)%Q.
      exists (inject_Z (- manhattanDistance newPos nearest) + - pen)%Q.
      unfold greedyCost, score. rewrite HnewPos, Hpen. cbn [mbind option_bind].
      split; [reflexivity|]. split; [reflexivity|].
      rewrite inject_Z_opp. ring. }
    destruct (chooseBest_best score first rest) as (best & b & Hrun & Hin & Hbest).
    { intros m Hm. destruct (Hscore m Hm) as (c & q & _ & Hq & _). eauto. }
    rewrite Hrun. cbn [mbind option_bind].
    exists best. split; [reflexivity|]. split; [exact Hin|].
    split; [discriminate|].
    intros nearest' Hnearest. injection Hnearest as <-.
    destruct Hbest as (b' & Hb' & Hmax).
    destruct (Hscore best Hin) as (c & q & Hc & Hq & Hqc).
    rewrite Hq in Hb'. injection Hb' as <-.
    exists c. split; [exact Hc|].
    intros m Hm. destruct (Hscore m Hm) as (cm & qm & Hcm & Hqm & Hqcm).
    exists cm. split; [exact Hcm|].
    specialize (Hmax m qm Hm Hqm). rewrite Hqc, Hqcm in Hmax. lra.
Qed.

(** Two cells left of the only pellet, on a map without walls: Right. *)
Lemma greedy_choice_witness :
  let map := GameMap (fun _ => true) [[EMPTY; EMPTY; BISCUIT]] in
  getValidMoves map (Pos 0 0) <> [] /\
  PacmanControllers'.chosen <$> PacmanControllers'.greedy emptyTracker map (Pos 0 0) (Some NONE)
  = Some RIGHT.
Proof.
  cbv zeta. set (map := GameMap _ _).
  assert (Hne : getValidMoves map (Pos 0 0) <> []) by discriminate.
  split; [exact Hne|].
  destruct (greedy_choice emptyTracker map (Pos 0 0) (Some NONE)) as [_ Hsome].
  destruct (Hsome Hne) as (move & Hrun & _).
  rewrite Hrun. vm_compute in Hrun. injection Hrun as <-. reflexivity.
Defined.

(** ** The A* controller of the agent *)

Lemma sortGhosts_total (pacmanGrid : cell) (ghostStates : list ghostState)
    (ghostPositions : list pos) :
  forall (g : nat) (edible dangerous : list cell) (closest : option Z),
    (g + length ghostPositions <= length ghostStates)%nat ->
    is_Some (PacmanControllers'.sortGhosts pacmanGrid g ghostPositions ghostStates
               edible dangerous closest).
Proof.
  induction ghostPositions as [|gPos rest IH]; intros g edible dangerous closest Hlen.
  - simpl. eauto.
  - cbn [PacmanControllers'.sortGhosts]. cbn [length] in Hlen.
    destruct (lookup_lt_is_Some_2 ghostStates g ltac:(lia)) as [st ->].
    cbn [mbind option_bind].
    destruct (isEdible st); [apply IH; lia|].
    destruct (isDangerous st); apply IH; lia.
Qed.

Lemma controller_relax_zero_score (map : gameMap) (cost : cell -> Z)
    (goalGrid current neighbor : cell) (s : AStar.search) :
  AStar.gScore s !! current = Some 0 ->
  PacmanControllers'.relax map cost goalGrid current s neighbor = s.
Proof.
  intros H. unfold PacmanControllers'.relax. rewrite H. simpl.
  destruct (isFloorSpace map neighbor); reflexivity.
Qed.

(** The search inside the controller ends after its first node without a
    direction: the start has score 0, which reads as [Infinity]. *)
Lemma controller_search_stops (map : gameMap) (cost : cell -> Z)
    (pacmanGrid goalGrid : cell) :
  PacmanControllers'.searchLoop 501 map cost pacmanGrid goalGrid
    (AStar.Search [pacmanGrid] ∅ (<[pacmanGrid := 0]> ∅)
       (<[pacmanGrid := manhattanDistance pacmanGrid goalGrid]> ∅) 0)
  = Some (None, 1).
Proof.
  cbn [PacmanControllers'.searchLoop AStar.openSet].
  unfold PacmanControllers'.expand.
  cbn [AStar.lowest AStar.openSet AStar.fScore fold_left AStar.cameFrom
       AStar.nodesEvaluated AStar.gScore].
  destruct (bool_decide (pacmanGrid = goalGrid)) eqn:Hgoal.
  - rewrite map_size_empty. cbn [AStar.reconstruct]. rewrite lookup_empty.
    cbn. reflexivity.
  - repeat (rewrite (controller_relax_zero_score map cost goalGrid pacmanGrid _
                       (AStar.Search _ _ _ _ _))
              by (cbn [AStar.gScore]; apply lookup_insert_eq)).
    cbn [AStar.nodesEvaluated List.filter]. rewrite bool_decide_eq_true_2 by reflexivity.
    cbn. reflexivity.
Qed.

(** X21.  The A* controller of the agent never follows a searched path.
    With a state for every ghost it answers.  Without a goal on the map it
    answers the first valid move ([NONE] when boxed in) and reports and
    records nothing.  With a goal its search gives up after one node, so
    the answer always comes from the fallback: [NONE] when boxed in, and
    otherwise a valid move for which the distance to the goal after the
    step, plus the danger of the cell stepped on, plus the oscillation
    penalty is least among the valid moves; the node count reported is 1
    and the position is recorded. *)
Theorem astar_controller_falls_back (tr : tracker) (map : gameMap) (pacmanPos : pos)
    (ghostPositions : list pos) (ghostStates : list ghostState)
    (lastMove : option direction) :
  (length ghostPositions <= length ghostStates)%nat ->
  exists (edible dangerous : list cell) (closest : option Z),
    PacmanControllers'.sortGhosts (toGrid pacmanPos) 0 ghostPositions ghostStates
      [] [] None = Some (edible, dangerous, closest) /\
    let validMoves := getValidMoves map pacmanPos in
    let result :=
      PacmanControllers'.astar tr map pacmanPos ghostPositions ghostStates lastMove in
    (forall huntingGhost : bool,
       PacmanControllers'.chooseGoal map (toGrid pacmanPos) edible closest
       = (None, huntingGhost) ->
       result = Some (PacmanControllers'.Answer (List.hd NONE validMoves) None tr)) /\
    (forall (goalGrid : cell) (huntingGhost : bool),
       PacmanControllers'.chooseGoal map (toGrid pacmanPos) edible closest
       = (Some goalGrid, huntingGhost) ->
       let cost := PacmanControllers'.dangerCost huntingGhost dangerous in
       (validMoves = [] ->
        result = Some (PacmanControllers'.Answer NONE None tr)) /\
       (validMoves <> [] ->
        exists move : direction,
          result = Some (PacmanControllers'.Answer move (Some 1)
                           (recordPosition tr pacmanPos)) /\
          In move validMoves /\
          exists c : Q,
            fallbackCost tr pacmanPos lastMove goalGrid cost move = Some c /\
            forall m : direction, In m validMoves ->
              exists cM : Q,
                fallbackCost tr pacmanPos lastMove goalGrid cost m = Some cM /\
                (c <= cM)%Q)).
Proof.
  intros Hlen.
  destruct (sortGhosts_total (toGrid pacmanPos) ghostStates ghostPositions 0 [] [] None
              ltac:(simpl; lia)) as [[[edible dangerous] closest] Hsort].
  exists edible, dangerous, closest. split; [exact Hsort|].
  cbv zeta. unfold PacmanControllers'.astar. rewrite Hsort. cbn [mbind option_bind].
  split.
  - intros huntingGhost ->. reflexivity.
  - intros goalGrid huntingGhost ->.
    rewrite controller_search_stops. cbn [mbind option_bind].
    destruct (getValidMoves map pacmanPos) as [|first rest] eqn:Hmoves.
    + split; [reflexivity|congruence].
    + split; [discriminate|]. intros _.
      set (cost := PacmanControllers'.dangerCost huntingGhost dangerous).
      match goal with |- context [chooseBest ?f _ _ _] => set (score := f) end.
      assert (Hscore : forall m : direction, In m (first :: rest) ->
                 exists c q : Q,
                   fallbackCost tr pacmanPos lastMove goalGrid cost m = Some c /\
                   score m = Some (Fin q) /\ (q == - c)%Q).
      { intros m Hm. assert (Hne : m <> NONE).
        { apply (validMove_not_NONE map pacmanPos). rewrite Hmoves. exact Hm. }
        destruct (stepCell_defined (toGrid pacmanPos) m Hne) as [newPos HnewPos].
        destruct (getOscillationPenalty_total tr pacmanPos m lastMove Hne) as [pen Hpen].
        exists (inject_Z (manhattanDistance newPos goalGrid + cost newPos) + pen)%Q.
        exists (inject_Z (- manhattanDistance newPos goalGrid - cost newPos) + - pen)%Q.
        unfold fallbackCost, score. rewrite HnewPos, Hpen. cbn [mbind option_bind].
        split; [reflexivity|]. split; [reflexivity|].
        replace (- manhattanDistance newPos goalGrid - cost newPos)
          with (- (manhattanDistance newPos goalGrid + cost newPos)) by lia.
        rewrite inject_Z_opp. ring. }
      destruct (chooseBest_best score first rest) as (best & b & Hrun & Hin & Hbest).
      { intros m Hm. destruct (Hscore m Hm) as (c & q & _ & Hq & _). eauto. }
      rewrite Hrun. cbn [mbind option_bind].
      exists best. split; [reflexivity|]. split; [exact Hin|].
      destruct Hbest as (b' & Hb' & Hmax).
      destruct (Hscore best Hin) as (c & q & Hc & Hq & Hqc).
      rewrite Hq in Hb'. injection Hb' as <-.
      exists c. split; [exact Hc|].
      intros m Hm. destruct (Hscore m Hm) as (cm & qm & Hcm & Hqm & Hqcm).
      exists cm. split; [exact Hcm|].
      specialize (Hmax m qm Hm Hqm). rewrite Hqc, Hqcm in Hmax. lra.
Qed.

(** One pellet two cells to the right and no ghosts: the controller
    reports a single node. *)
Lemma astar_controller_falls_back_witness :
  let map := GameMap (fun _ => true) [[EMPTY; EMPTY; BISCUIT]] in
  (length (@nil pos) <= length (@nil ghostState))%nat /\
  PacmanControllers'.astar emptyTracker map (Pos 0 0) [] [] (Some NONE)
  = Some (PacmanControllers'.Answer RIGHT (Some 1)
            (recordPosition emptyTracker (Pos 0 0))).
Proof.
  cbv zeta. set (map := GameMap _ _).
  assert (Hlen : (length (@nil pos) <= length (@nil ghostState))%nat) by (simpl; lia).
  split; [exact Hlen|].
  destruct (astar_controller_falls_back emptyTracker map (Pos 0 0) [] [] (Some NONE) Hlen)
    as (edible & dangerous & closest & Hsort & _ & Hgoal).
  injection Hsort as <- <- <-.
  destruct (Hgoal (Cell 2 0) false eq_refl) as [_ Hsome].
  destruct (Hsome ltac:(discriminate)) as (move & Hrun & _).
  rewrite Hrun. vm_compute in Hrun. injection Hrun as <-. reflexivity.
Defined.

(** ** The A* controller of the ghosts *)

(** X22.  A ghost steered by A* never gets a direction.  For every map,
    ghost and position of the agent the exported search answers [NONE]
    after a single node, and so does the controller of the ghosts that
    calls it. *)
Theorem ghost_astar_never_moves (map : gameMap) (g : GhostControllers.ghost)
    (pacmanPos : pos) :
  AStar.astar map (GhostControllers.getPosition g) pacmanPos = Some (NONE, 1) /\
  GhostControllers.astar map g pacmanPos = Some NONE.
Proof.
  unfold GhostControllers.astar. rewrite astar_stops_after_one_node.
  split; reflexivity.
Qed.

(** ** The minimax controller of the ghosts *)

Section ChooseLeast.

Variable score : direction -> option num.

Lemma chooseLeast_run (moves : list direction) :
  (forall m : direction, In m moves -> exists q : Q, score m = Some (Fin q)) ->
  forall (best : direction) (bestSc : num),
    upperBound bestSc ->
    exists (best' : direction) (sc' : num),
      chooseLeast score moves best bestSc = Some (best', sc') /\
      upperBound sc' /\
      ((best' = best /\ sc' = bestSc) \/ (In best' moves /\ score best' = Some sc')) /\
      num_ltb bestSc sc' = false /\
      (forall (m : direction) (q : Q),
          In m moves -> score m = Some (Fin q) -> num_ltb (Fin q) sc' = false).
Proof.
  induction moves as [|m0 rest IH]; intros Hfin best bestSc Hbound.
  - exists best, bestSc. split; [reflexivity|]. split; [exact Hbound|].
    split; [left; split; reflexivity|]. split.
    + destruct Hbound as [->|[b ->]]; [reflexivity|].
      cbn. apply Qltb_false. apply Qle_refl.
    + intros m q [].
  - cbn [chooseLeast].
    destruct (Hfin m0 (or_introl eq_refl)) as [s Hs]. rewrite Hs.
    cbn [mbind option_bind].
    assert (Hrest : forall m : direction, In m rest ->
                      exists q : Q, score m = Some (Fin q))
      by (intros m Hm; apply Hfin; right; exact Hm).
    destruct (num_ltb (Fin s) bestSc) eqn:Hlt.
    + destruct (IH Hrest m0 (Fin s) (or_intror (ex_intro _ s eq_refl)))
        as (best' & sc' & Hrun & Hb' & Hwhere & Hge & Hmin).
      exists best', sc'. split; [exact Hrun|]. split; [exact Hb'|].
      assert (Hs' : exists b' : Q, sc' = Fin b' /\ (b' <= s)%Q).
      { destruct Hb' as [->|[b' ->]]; [discriminate Hge|].
        exists b'. split; [reflexivity|]. cbn in Hge. apply Qltb_false in Hge.
        exact Hge. }
      destruct Hs' as (b' & -> & Hsb').
      split; [|split].
      * right. destruct Hwhere as [[-> Heq]|[Hin Hsc]].
        -- split; [left; reflexivity|]. rewrite Hs, Heq. reflexivity.
        -- split; [right; exact Hin|exact Hsc].
      * destruct Hbound as [->|[b ->]]; [reflexivity|].
        cbn in Hlt |- *. apply Qltb_true in Hlt. apply Qltb_false.
        apply Qlt_le_weak. eapply Qle_lt_trans; eauto.
      * intros m q [<-|Hin] Hq.
        -- rewrite Hs in Hq. injection Hq as <-. cbn. apply Qltb_false. exact Hsb'.
        -- apply (Hmin m q Hin Hq).
    + destruct (IH Hrest best bestSc Hbound)
        as (best' & sc' & Hrun & Hb' & Hwhere & Hge & Hmin).
      exists best', sc'. split; [exact Hrun|]. split; [exact Hb'|].
      split; [|split].
      * destruct Hwhere as [H|[Hin Hsc]]; [left; exact H|].
        right. split; [right; exact Hin|exact Hsc].
      * exact Hge.
      * intros m q [<-|Hin] Hq; [|apply (Hmin m q Hin Hq)].
        rewrite Hs in Hq. injection Hq as <-.
        destruct Hbound as [->|[b ->]]; [discriminate Hlt|].
        destruct Hb' as [->|[b' ->]]; [discriminate Hge|].
        cbn in Hlt, Hge |- *. apply Qltb_false in Hlt, Hge. apply Qltb_false.
        eapply Qle_trans; eauto.
Qed.

(** Started on a non-empty list with [Infinity], the loop ends on a move
    of the list that scores least. *)
Lemma chooseLeast_least (first : direction) (rest : list direction) :
  (forall m : direction, In m (first :: rest) ->
     exists q : Q, score m = Some (Fin q)) ->
  exists (best : direction) (b : Q),
    chooseLeast score (first :: rest) first PosInf = Some (best, Fin b) /\
    leastAmong score (first :: rest) best.
Proof.
  intros Hfin.
  destruct (chooseLeast_run (first :: rest) Hfin first PosInf (or_introl eq_refl))
    as (best & sc & Hrun & Hb & Hwhere & _ & Hmin).
  destruct (Hfin first (or_introl eq_refl)) as [s Hs].
  pose proof (Hmin first s (or_introl eq_refl) Hs) as Hfirst.
  destruct Hb as [->|[b ->]]; [discriminate Hfirst|].
  exists best, b. split; [exact Hrun|].
  assert (Hin : In best (first :: rest) /\ score best = Some (Fin b)).
  { destruct Hwhere as [[_ Heq]|H]; [discriminate Heq|exact H]. }
  destruct Hin as [Hin Hsc]. split; [exact Hin|].
  exists b. split; [exact Hsc|].
  intros m q Hm Hq. specialize (Hmin m q Hm Hq). cbn in Hmin.
  apply Qltb_false in Hmin. exact Hmin.
Qed.

End ChooseLeast.

(** The loop of the controller picks what [chooseLeast] picks among the
    values of the moves. *)
Lemma ghost_rootLoop_least (search : pos -> option (num * nat)) (ghostPos : pos)
    (moves : list direction) :
  let value := fun move : direction =>
    '(ddx, ddy) ← delta 10 move;
    search (Pos (px ghostPos + ddx) (py ghostPos + ddy)) in
  (forall m : direction, In m moves ->
     exists (q : Q) (n : nat), value m = Some (Fin q, n)) ->
  forall (best : direction) (bestSc : num) (nodes : nat),
    exists (b : direction) (sc : num) (n : nat),
      GhostControllers.rootLoop search ghostPos moves best bestSc nodes = Some (b, n) /\
      chooseLeast (fun m => fst <$> value m) moves best bestSc = Some (b, sc).
Proof.
  cbv zeta. induction moves as [|m0 rest IH]; intros Hfin best bestSc nodes.
  - exists best, bestSc, nodes. split; reflexivity.
  - cbn [GhostControllers.rootLoop chooseLeast].
    destruct (Hfin m0 (or_introl eq_refl)) as (q & n & Hq).
    assert (Hrest : forall m : direction, In m rest ->
              exists (q : Q) (n : nat),
                (delta 10 m ≫= λ '(ddx, ddy),
                   search (Pos (px ghostPos + ddx) (py ghostPos + ddy)))
                = Some (Fin q, n))
      by (intros m Hm; apply Hfin; right; exact Hm).
    destruct (delta 10 m0) as [[ddx ddy]|]; [|discriminate Hq].
    cbn [mbind option_bind fmap option_fmap option_map] in Hq |- *.
    rewrite Hq. cbn [mbind option_bind fmap option_fmap option_map fst].
    destruct (num_ltb (Fin q) bestSc); apply IH; exact Hrest.
Qed.

(** X23.  The minimax controller of the ghosts.  Without a state for the
    index of the ghost it throws.  Boxed in, the ghost gets [NONE].  An
    edible ghost gets a valid move that leaves it as far from the agent
    as any valid move does, and nothing is reported.  A ghost that is not
    edible gets, provided every ghost position has a state, a valid move
    whose search value (the agent to play, one level less) is least among
    the valid moves. *)
Theorem ghost_minimax_choice (map : gameMap) (g : GhostControllers.ghost)
    (pacmanPos : pos) (allGhostPositions : list pos) (ghostStates : list ghostState)
    (depth : nat) :
  let validMoves := getValidMoves map (GhostControllers.getPosition g) in
  let result :=
    GhostControllers.minimax map g pacmanPos allGhostPositions ghostStates depth in
  let value := ghostMoveValue map g pacmanPos allGhostPositions ghostStates depth in
  (ghostStates !! GhostControllers.getIndex g = None -> result = None) /\
  (forall s : ghostState,
     ghostStates !! GhostControllers.getIndex g = Some s ->
     (validMoves = [] -> result = Some (NONE, None)) /\
     (validMoves <> [] -> isEdible s = true ->
      exists (move : direction) (d : Z),
        result = Some (move, None) /\ In move validMoves /\
        fleeDistance g pacmanPos move = Some d /\
        forall m : direction, In m validMoves ->
          exists dm : Z, fleeDistance g pacmanPos m = Some dm /\ dm <= d) /\
     (validMoves <> [] -> isEdible s = false ->
      (length allGhostPositions <= length ghostStates)%nat ->
      exists (move : direction) (nodes : nat) (v : Q) (n : nat),
        result = Some (move, Some nodes) /\ In move validMoves /\
        value move = Some (Fin v, n) /\
        forall m : direction, In m validMoves ->
          exists (vm : Q) (nm : nat), value m = Some (Fin vm, nm) /\ (v <= vm)%Q)).
Proof.
  cbv zeta. unfold GhostControllers.minimax. split.
  - intros ->. reflexivity.
  - intros s ->. cbn [mbind option_bind].
    destruct (getValidMoves map (GhostControllers.getPosition g))
      as [|first rest] eqn:Hmoves.
    { split; [intros _; destruct (isEdible s); reflexivity|].
      split; intros H; congruence. }
    assert (Hreal : forall m : direction, In m (first :: rest) -> m <> NONE).
    { intros m Hm. apply (validMove_not_NONE map (GhostControllers.getPosition g)).
      rewrite Hmoves. exact Hm. }
    split; [discriminate|]. split.
    + intros _ ->.
      match goal with |- context [chooseBest ?f _ _ _] => set (score := f) end.
      assert (Hscore : forall m : direction, In m (first :: rest) ->
                 exists dm : Z,
                   fleeDistance g pacmanPos m = Some dm /\
                   score m = Some (Fin (inject_Z dm))).
      { intros m Hm.
        destruct (stepCell_defined (toGrid (GhostControllers.getPosition g)) m
                    (Hreal m Hm)) as [newPos HnewPos].
        exists (manhattanDistance newPos (toGrid pacmanPos)).
        unfold fleeDistance, score. rewrite HnewPos. split; reflexivity. }
      destruct (chooseBest_best score first rest) as (best & b & Hrun & Hin & Hbest).
      { intros m Hm. destruct (Hscore m Hm) as (dm & _ & Hq). eauto. }
      rewrite Hrun. cbn [mbind option_bind].
      destruct (Hscore best Hin) as (d & Hd & Hsd).
      exists best, d. split; [reflexivity|]. split; [exact Hin|].
      split; [exact Hd|].
      intros m Hm. destruct (Hscore m Hm) as (dm & Hdm & Hsm).
      exists dm. split; [exact Hdm|].
      destruct Hbest as (b' & Hb' & Hmax). rewrite Hsd in Hb'. injection Hb' as <-.
      specialize (Hmax m (inject_Z dm) Hm Hsm).
      rewrite <- Zle_Qle in Hmax. exact Hmax.
    + intros _ -> Hlen.
      set (value := ghostMoveValue map g pacmanPos allGhostPositions ghostStates depth).
      set (search := fun newGhostPos : pos => minimax _ _ _ _ _ _ _ _).
      assert (Hvalue : forall m : direction, In m (first :: rest) ->
                 exists (q : Q) (n : nat),
                   (delta 10 m ≫= λ '(ddx, ddy),
                      search (Pos (px (GhostControllers.getPosition g) + ddx)
                                  (py (GhostControllers.getPosition g) + ddy)))
                   = Some (Fin q, n)).
      { intros m Hm. destruct (delta_defined 10 m (Hreal m Hm)) as [[ddx ddy] ->].
        cbn [mbind option_bind]. unfold search.
        rewrite minimax_is_minimaxNoPruning by (left; reflexivity).
        destruct (minimaxNoPruning_total map ghostStates
                    (GhostControllers.orThree depth - 1) pacmanPos
                    (GhostControllers.withGhostAt allGhostPositions
                       (GhostControllers.getIndex g)
                       (Pos (px (GhostControllers.getPosition g) + ddx)
                            (py (GhostControllers.getPosition g) + ddy))) true)
          as [[v n] Hrun].
        { unfold GhostControllers.withGhostAt. rewrite length_imap. exact Hlen. }
        destruct (minimaxNoPruning_finite _ _ _ _ _ _ _ _ Hrun) as [q ->].
        rewrite Hrun. eauto. }
      destruct (ghost_rootLoop_least search (GhostControllers.getPosition g)
                  (first :: rest) Hvalue first PosInf 0%nat)
        as (b & sc & nodes & Hloop & Hleast).
      rewrite Hloop. cbn [mbind option_bind].
      match type of Hleast with chooseLeast ?f _ _ _ = _ => set (score := f) in * end.
      destruct (chooseLeast_least score first rest) as (best & v & Hrun & Hin & Hbest);
        [|rewrite Hrun in Hleast; injection Hleast as <- <-].
      { intros m Hm. destruct (Hvalue m Hm) as (q & n & Hq).
        exists q. unfold score. rewrite Hq. reflexivity. }
      destruct Hbest as (v' & Hv' & Hmin).
      destruct (Hvalue best Hin) as (q & n & Hq).
      unfold score in Hv'. rewrite Hq in Hv'. injection Hv' as <-.
      exists best, nodes, q, n. split; [reflexivity|]. split; [exact Hin|].
      split; [exact Hq|].
      intros m Hm. destruct (Hvalue m Hm) as (qm & nm & Hqm).
      exists qm, nm. split; [exact Hqm|].
      apply (Hmin m qm Hm). unfold score. rewrite Hqm. reflexivity.
Qed.

(** An edible ghost in a corridor, the agent two cells to its right: the
    ghost is sent Left. *)
Lemma ghost_minimax_choice_witness :
  let map := GameMap (fun c => bool_decide (cy c = 0)) [] in
  let g := GhostControllers.Ghost (Pos 50 0) 0 in
  [GhostState true false] !! 0%nat = Some (GhostState true false) /\
  getValidMoves map (Pos 50 0) <> [] /\
  GhostControllers.minimax map g (Pos 70 0) [Pos 50 0] [GhostState true false] 3
  = Some (LEFT, None).
Proof.
  cbv zeta. set (map := GameMap _ _). set (g := GhostControllers.Ghost _ _).
  assert (Hs : [GhostState true false] !! 0%nat = Some (GhostState true false))
    by reflexivity.
  assert (Hne : getValidMoves map (Pos 50 0) <> []) by discriminate.
  split; [exact Hs|]. split; [exact Hne|].
  destruct (ghost_minimax_choice map g (Pos 70 0) [Pos 50 0] [GhostState true false] 3)
    as [_ Hknown].
  destruct (Hknown (GhostState true false) Hs) as (_ & Hedible & _).
  destruct (Hedible Hne eq_refl) as (move & d & Hrun & _).
  rewrite Hrun. vm_compute in Hrun. injection Hrun as <-. reflexivity.
Defined.

(** ** The tree-search controllers of the agent *)

Section RootChoice.

Variables (search : pos -> option (num * nat)) (tr : tracker) (pacmanPos : pos)
          (lastMove : option direction).

(** The loop at the root picks what [chooseBest] picks among the values of
    the moves, and adds up the nodes. *)
Lemma rootLoop_choose (moves : list direction) :
  (forall m : direction, In m moves ->
     exists (q : Q) (n : nat),
       rootValue search tr pacmanPos lastMove m = Some (Fin q, n)) ->
  forall (best : direction) (bestSc : num) (nodes : nat),
    exists (b : direction) (sc : num),
      PacmanControllers.rootLoop search tr pacmanPos lastMove moves best bestSc nodes
      = Some (b, sc, (nodes + rootNodes search tr pacmanPos lastMove moves)%nat) /\
      chooseBest (fun m => fst <$> rootValue search tr pacmanPos lastMove m)
        moves best bestSc = Some (b, sc).
Proof.
  induction moves as [|m0 rest IH]; intros Hfin best bestSc nodes.
  - exists best, bestSc. cbn. rewrite Nat.add_0_r. split; reflexivity.
  - destruct (Hfin m0 (or_introl eq_refl)) as (q & n & Hq).
    assert (Hrest : forall m : direction, In m rest ->
              exists (q : Q) (n : nat),
                rootValue search tr pacmanPos lastMove m = Some (Fin q, n))
      by (intros m Hm; apply Hfin; right; exact Hm).
    unfold rootNodes. cbn [PacmanControllers.rootLoop chooseBest sum_list_with].
    fold (rootNodes search tr pacmanPos lastMove rest).
    rewrite Hq. cbn [fmap option_fmap option_map mbind option_bind fst snd default].
    unfold rootValue in Hq.
    destruct (delta 10 m0) as [[ddx ddy]|]; [|discriminate Hq].
    cbn [mbind option_bind] in Hq |- *.
    destruct (search (Pos (px pacmanPos + ddx) (py pacmanPos + ddy)))
      as [[score k]|]; [|discriminate Hq].
    cbn [mbind option_bind] in Hq |- *.
    destruct (getOscillationPenalty tr pacmanPos m0 lastMove) as [pen|];
      [|discriminate Hq].
    cbn [mbind option_bind] in Hq |- *. injection Hq as Hs ->. rewrite Hs.
    destruct (num_ltb bestSc (Fin q)).
    + destruct (IH Hrest m0 (Fin q) (nodes + n)%nat) as (b & sc & Hloop & Hch).
      exists b, sc. rewrite Hloop, Hch. split; [|reflexivity].
      unfold id. rewrite Nat.add_assoc. reflexivity.
    + destruct (IH Hrest best bestSc (nodes + n)%nat) as (b & sc & Hloop & Hch).
      exists b, sc. rewrite Hloop, Hch. split; [|reflexivity].
      unfold id. rewrite Nat.add_assoc. reflexivity.
Qed.

(** What the body shared by the tree-search controllers answers, for a
    search that gives a finite value at every position. *)
Lemma decide_choice (map : gameMap) :
  (forall p : pos, exists (q : Q) (n : nat), search p = Some (Fin q, n)) ->
  let validMoves := getValidMoves map pacmanPos in
  let value := rootValue search tr pacmanPos lastMove in
  (validMoves = [] ->
   PacmanControllers.decide search tr map pacmanPos lastMove
   = Some (PacmanControllers.Decision NONE NegInf 0 tr)) /\
  (validMoves <> [] ->
   exists (move : direction) (v : Q) (n : nat),
     PacmanControllers.decide search tr map pacmanPos lastMove
     = Some (PacmanControllers.Decision move (Fin v)
               (rootNodes search tr pacmanPos lastMove validMoves)
               (recordPosition tr pacmanPos)) /\
     In move validMoves /\
     value move = Some (Fin v, n) /\
     forall m : direction, In m validMoves ->
       exists (vm : Q) (nm : nat), value m = Some (Fin vm, nm) /\ (vm <= v)%Q).
Proof.
  intros Hsearch. cbv zeta. unfold PacmanControllers.decide.
  destruct (getValidMoves map pacmanPos) as [|first rest] eqn:Hmoves.
  - split; [reflexivity|congruence].
  - split; [discriminate|]. intros _.
    assert (Hvalue : forall m : direction, In m (first :: rest) ->
              exists (q : Q) (n : nat),
                rootValue search tr pacmanPos lastMove m = Some (Fin q, n)).
    { intros m Hm. assert (Hne : m <> NONE).
      { apply (validMove_not_NONE map pacmanPos). rewrite Hmoves. exact Hm. }
      unfold rootValue.
      destruct (delta_defined 10 m Hne) as [[ddx ddy] ->]. cbn [mbind option_bind].
      destruct (Hsearch (Pos (px pacmanPos + ddx) (py pacmanPos + ddy)))
        as (q & n & ->). cbn [mbind option_bind].
      destruct (getOscillationPenalty_total tr pacmanPos m lastMove Hne) as [pen ->].
      cbn. eauto. }
    destruct (rootLoop_choose (first :: rest) Hvalue first NegInf 0%nat)
      as (b & sc & Hloop & Hch).
    rewrite Hloop. cbn [mbind option_bind].
    set (score := fun m : direction =>
                    fst <$> rootValue search tr pacmanPos lastMove m) in Hch.
    destruct (chooseBest_best score first rest) as (best & v & Hrun & Hin & Hbest).
    { intros m Hm. destruct (Hvalue m Hm) as (q & n & Hq).
      exists q. unfold score. rewrite Hq. reflexivity. }
    rewrite Hrun in Hch. injection Hch as <- <-.
    destruct (Hvalue best Hin) as (q & n & Hq).
    destruct Hbest as (v' & Hv' & Hmax).
    assert (Hvq : v = q).
    { destruct (chooseBest_run score (first :: rest)) with (best := first)
        (bestSc := NegInf) as (b2 & sc2 & Hrun2 & _ & Hwhere & _).
      - intros m Hm. destruct (Hvalue m Hm) as (q' & n' & Hq').
        exists q'. unfold score. rewrite Hq'. reflexivity.
      - left. reflexivity.
      - rewrite Hrun in Hrun2. injection Hrun2 as <- <-.
        destruct Hwhere as [[_ Heq]|[_ Hsc]]; [discriminate Heq|].
        unfold score in Hsc. rewrite Hq in Hsc. cbn in Hsc. congruence. }
    subst v.
    exists best, q, n. split; [reflexivity|]. split; [exact Hin|].
    split; [exact Hq|].
    intros m Hm. destruct (Hvalue m Hm) as (qm & nm & Hqm).
    exists qm, nm. split; [exact Hqm|].
    unfold score in Hv'. rewrite Hq in Hv'. injection Hv' as <-.
    apply (Hmax m qm Hm). unfold score. rewrite Hqm. reflexivity.
Qed.

End RootChoice.

(** X24.  The minimax controller of the agent.  Given a state for every
    ghost it answers: [NONE] when boxed in, and otherwise a valid move
    whose search value (the ghosts to play, one level less) minus its
    oscillation penalty is greatest among the valid moves; the nodes it
    reports are those of the searches of all valid moves together, and it
    records the position. *)
Theorem minimax_controller_choice (tr : tracker) (map : gameMap) (pacmanPos : pos)
    (ghostPositions : list pos) (ghostStates : list ghostState) (depth : nat)
    (lastMove : option direction) :
  (length ghostPositions <= length ghostStates)%nat ->
  let validMoves := getValidMoves map pacmanPos in
  let search := fun newPos : pos =>
    minimax map newPos ghostPositions ghostStates
      (PacmanControllers.orFour depth - 1) false NegInf PosInf in
  let value := rootValue search tr pacmanPos lastMove in
  let result :=
    PacmanControllers.minimax tr map pacmanPos ghostPositions ghostStates depth
      lastMove in
  (validMoves = [] ->
   result = Some (PacmanControllers.Decision NONE NegInf 0 tr)) /\
  (validMoves <> [] ->
   exists (move : direction) (v : Q) (n : nat),
     result = Some (PacmanControllers.Decision move (Fin v)
                      (rootNodes search tr pacmanPos lastMove validMoves)
                      (recordPosition tr pacmanPos)) /\
     In move validMoves /\
     value move = Some (Fin v, n) /\
     forall m : direction, In m validMoves ->
       exists (vm : Q) (nm : nat), value m = Some (Fin vm, nm) /\ (vm <= v)%Q).
Proof.
  intros Hlen. cbv zeta. unfold PacmanControllers.minimax.
  apply decide_choice. intros p.
  rewrite minimax_is_minimaxNoPruning by (left; reflexivity).
  destruct (minimaxNoPruning_total map ghostStates (PacmanControllers.orFour depth - 1)
              p ghostPositions false Hlen) as [[v n] Hrun].
  destruct (minimaxNoPruning_finite _ _ _ _ _ _ _ _ Hrun) as [q ->].
  rewrite Hrun. eauto.
Qed.

(** In a corridor with a pellet to the right and no ghost, the controller
    goes Right. *)
Lemma minimax_controller_choice_witness :
  let map := GameMap (fun c => bool_decide (cy c = 0)) [[EMPTY; EMPTY; BISCUIT]] in
  (length (@nil pos) <= length (@nil ghostState))%nat /\
  PacmanControllers.bestMove
    <$> PacmanControllers.minimax emptyTracker map (Pos 10 0) [] [] 2 (Some NONE)
  = Some RIGHT.
Proof.
  cbv zeta. set (map := GameMap _ _).
  assert (Hlen : (length (@nil pos) <= length (@nil ghostState))%nat) by (simpl; lia).
  split; [exact Hlen|].
  destruct (minimax_controller_choice emptyTracker map (Pos 10 0) [] [] 2 (Some NONE) Hlen)
    as [_ Hsome].
  destruct (Hsome ltac:(discriminate)) as (move & v & n & Hrun & _).
  rewrite Hrun. vm_compute in Hrun. injection Hrun as <- _.
  reflexivity.
Defined.

(** The loop of the adaptive controller is the loop of the minimax
    controller when the search leaves the model as it is. *)
Lemma rootLoopM_run (search : pos -> M (num * nat)) (st : model) (tr : tracker)
    (pacmanPos : pos) (lastMove : option direction) :
  (forall p : pos, exists (q : Q) (n : nat), search p st = Some ((Fin q, n), st)) ->
  forall (moves : list direction) (best : direction) (bestSc : num) (nodes : nat),
    (forall m : direction, In m moves -> m <> NONE) ->
    PacmanControllers'.rootLoopM search tr pacmanPos lastMove moves best bestSc nodes st
    = (fun r => (r, st))
        <$> PacmanControllers.rootLoop (fun p => fst <$> search p st) tr pacmanPos
              lastMove moves best bestSc nodes.
Proof.
  intros Hsearch moves. induction moves as [|m0 rest IH];
    intros best bestSc nodes Hreal; [reflexivity|].
  assert (Hne : m0 <> NONE) by (apply Hreal; left; reflexivity).
  assert (Hrest : forall m : direction, In m rest -> m <> NONE)
    by (intros m Hm; apply Hreal; right; exact Hm).
  cbn [PacmanControllers'.rootLoopM PacmanControllers.rootLoop].
  destruct (delta_defined 10 m0 Hne) as [[ddx ddy] Hd].
  rewrite (run_bind _ _ st st (ddx, ddy)) by (apply run_defined; exact Hd).
  rewrite Hd. cbn [mbind option_bind fst snd].
  destruct (Hsearch (Pos (px pacmanPos + ddx) (py pacmanPos + ddy))) as (q & n & Hq).
  rewrite (run_bind _ _ st st (Fin q, n)) by exact Hq.
  rewrite Hq. cbn [fmap option_fmap option_map mbind option_bind fst snd].
  destruct (getOscillationPenalty_total tr pacmanPos m0 lastMove Hne) as [pen Hpen].
  rewrite (run_bind _ _ st st pen) by (apply run_defined; exact Hpen).
  rewrite Hpen. cbn [mbind option_bind fst snd].
  destruct (num_ltb bestSc (num_sub (Fin q) (Fin pen))); apply IH; exact Hrest.
Qed.

(** X25.  The adaptive controller of the agent.  With at least one ghost,
    a state for every ghost and a table in the model for every ghost
    index, it answers and leaves the ghost model as it is: [NONE] when
    boxed in, and otherwise a valid move whose expectimax value (the
    ghosts to play, one level less) minus its oscillation penalty is
    greatest among the valid moves. *)
Theorem adaptive_controller_choice (st : model) (tr : tracker) (map : gameMap)
    (pacmanPos : pos) (ghostPositions : list pos) (ghostStates : list ghostState)
    (depth : nat) (lastMove : option direction) :
  wellFormed st ghostPositions ghostStates ->
  let validMoves := getValidMoves map pacmanPos in
  let search := fun newPos : pos =>
    fst <$> expectimax map newPos ghostPositions ghostStates
              (PacmanControllers.orFour depth - 1) false st in
  let value := rootValue search tr pacmanPos lastMove in
  let result :=
    PacmanControllers'.adaptive tr map pacmanPos ghostPositions ghostStates depth
      lastMove st in
  (validMoves = [] ->
   result = Some (PacmanControllers.Decision NONE NegInf 0 tr, st)) /\
  (validMoves <> [] ->
   exists (move : direction) (v : Q) (n : nat),
     result = Some (PacmanControllers.Decision move (Fin v)
                      (rootNodes search tr pacmanPos lastMove validMoves)
                      (recordPosition tr pacmanPos), st) /\
     In move validMoves /\
     value move = Some (Fin v, n) /\
     forall m : direction, In m validMoves ->
       exists (vm : Q) (nm : nat), value m = Some (Fin vm, nm) /\ (vm <= v)%Q).
Proof.
  intros Hwf. cbv zeta.
  set (search := fun newPos : pos =>
         expectimax map newPos ghostPositions ghostStates
           (PacmanControllers.orFour depth - 1) false).
  assert (Hsearch : forall p : pos, exists (q : Q) (n : nat),
                      search p st = Some ((Fin q, n), st))
    by (intros p; apply expectimax_run; exact Hwf).
  assert (Hpure : forall p : pos, exists (q : Q) (n : nat),
                    fst <$> search p st = Some (Fin q, n)).
  { intros p. destruct (Hsearch p) as (q & n & ->). eauto. }
  destruct (decide_choice (fun p => fst <$> search p st) tr pacmanPos lastMove map Hpure)
    as [Hnone Hsome].
  unfold PacmanControllers'.adaptive. fold search.
  unfold PacmanControllers.decide in Hnone, Hsome.
  destruct (getValidMoves map pacmanPos) as [|first rest] eqn:Hmoves.
  - split; [reflexivity|congruence].
  - split; [discriminate|]. intros Hne.
    destruct (Hsome Hne) as (move & v & n & Hrun & Hin & Hvalue & Hmax).
    exists move, v, n. split; [|split; [exact Hin|split; [exact Hvalue|exact Hmax]]].
    unfold mbind, M_bind, bind.
    rewrite (rootLoopM_run search st tr pacmanPos lastMove Hsearch).
    2:{ intros m Hm. apply (validMove_not_NONE map pacmanPos). rewrite Hmoves. exact Hm. }
    destruct (PacmanControllers.rootLoop _ tr pacmanPos lastMove (first :: rest)
                first NegInf 0%nat) as [[[b sc] k]|]; [|discriminate Hrun].
    cbn [mbind option_bind] in Hrun. injection Hrun as -> -> ->. reflexivity.
Qed.

(** A fresh model, one ghost far away in a corridor with a pellet to the
    right of the agent: the controller goes Right and the model is
    untouched. *)
Lemma adaptive_controller_choice_witness :
  let map := GameMap (fun c => bool_decide (cy c = 0)) [[EMPTY; EMPTY; BISCUIT]] in
  let states := [GhostState false true] in
  wellFormed initialModel [Pos 200 0] states /\
  (fun r => (PacmanControllers.bestMove r.1, r.2))
    <$> PacmanControllers'.adaptive emptyTracker map (Pos 10 0) [Pos 200 0] states 2
          (Some NONE) initialModel
  = Some (RIGHT, initialModel).
Proof.
  cbv zeta. set (map := GameMap _ _).
  assert (Hwf : wellFormed initialModel [Pos 200 0] [GhostState false true]).
  { split; [discriminate|]. split; [simpl; lia|].
    intros i Hi. apply initialModel_known. simpl in Hi. lia. }
  split; [exact Hwf|].
  destruct (adaptive_controller_choice initialModel emptyTracker map (Pos 10 0)
              [Pos 200 0] [GhostState false true] 2 (Some NONE) Hwf) as [_ Hsome].
  destruct (Hsome ltac:(discriminate)) as (move & v & n & Hrun & _).
  rewrite Hrun. vm_compute in Hrun. injection Hrun as <- _.
  reflexivity.
Defined.

(** ** The ghosts inside the searches *)

Lemma chaseStep_legal (map : gameMap) (pacmanPos gPos : pos) (s : ghostState) :
  legalStep map gPos (chaseStep map pacmanPos gPos s).
Proof.
  rewrite chaseStep_unfold.
  set (dx := cx (toGrid pacmanPos) - cx (toGrid gPos)).
  set (dy := cy (toGrid pacmanPos) - cy (toGrid gPos)).
  assert (HY : isFloorSpace map (toGrid (stepY pacmanPos gPos s)) = true ->
               legalStep map gPos (stepY pacmanPos gPos s)).
  { intros Hfloor. unfold stepY in Hfloor |- *. fold dy in Hfloor |- *.
    destruct (Z.eq_dec dy 0) as [Hz|Hnz].
    - left. rewrite Hz. destruct gPos as [x y]. cbn [px py]. f_equal. simpl. lia.
    - right. split; [exact Hfloor|]. right. cbn [px py]. split; [reflexivity|].
      destruct (Z.sgn_spec dy) as [[_ ->]|[[? _]|[_ ->]]]; [|lia|];
        destruct (isEdible s); lia. }
  destruct (Z.abs dy <? Z.abs dx) eqn:Hax; cbn [andb].
  - destruct (isFloorSpace map (toGrid (stepX pacmanPos gPos s))) eqn:HX.
    + right. split; [exact HX|]. left. unfold stepX. fold dx. cbn [px py].
      split; [|reflexivity]. apply Z.ltb_lt in Hax.
      destruct (Z.sgn_spec dx) as [[_ ->]|[[? _]|[_ ->]]]; [|lia|];
        destruct (isEdible s); lia.
    + destruct (isFloorSpace map (toGrid (stepY pacmanPos gPos s))) eqn:Hfree;
        [apply HY; reflexivity|left; reflexivity].
  - destruct (isFloorSpace map (toGrid (stepY pacmanPos gPos s))) eqn:Hfree;
      [apply HY; reflexivity|left; reflexivity].
Qed.

Lemma delta_step_legal (map : gameMap) (gPos : pos) (d : direction) (dd : Z * Z) :
  delta 10 d = Some dd ->
  legalStep map gPos
    (if isFloorSpace map (toGrid (Pos (px gPos + dd.1) (py gPos + dd.2)))
     then Pos (px gPos + dd.1) (py gPos + dd.2) else gPos).
Proof.
  intros Hd.
  destruct (isFloorSpace map (toGrid (Pos (px gPos + dd.1) (py gPos + dd.2))))
    eqn:Hfloor; [|left; reflexivity].
  right. split; [exact Hfloor|]. cbn [px py].
  destruct d; cbn in Hd; try discriminate Hd; injection Hd as <-; cbn [fst snd]; lia.
Qed.

Lemma predictStep_legal (map : gameMap) (pacmanPos : pos) (dir : direction)
    (idx : nat) (gPos p : pos) (st st' : model) :
  predictStep map pacmanPos dir idx gPos st = Some (p, st') ->
  legalStep map gPos p.
Proof.
  unfold predictStep, mbind, M_bind, bind, defined, ret.
  destruct (delta 10 dir) as [d0|] eqn:Hd0; [|discriminate].
  destruct (0 <? idx)%nat.
  - destruct (getGhostMoveProbabilities idx gPos pacmanPos st) as [[otherProbs st1]|];
      [|discriminate].
    destruct (delta 10 (mostLikely otherProbs directions (Fin 0) UP)) as [d1|] eqn:Hd1;
      [|discriminate].
    intros H. injection H as <- _. apply (delta_step_legal map gPos _ d1 Hd1).
  - intros H. injection H as <- _. apply (delta_step_legal map gPos _ d0 Hd0).
Qed.

Lemma predictAll_legal (map : gameMap) (pacmanPos : pos) (dir : direction)
    (ghostPositions : list pos) :
  forall (idx : nat) (st st' : model) (moved : list pos),
    predictAll map pacmanPos dir idx ghostPositions st = Some (moved, st') ->
    forall (i : nat) (g g' : pos),
      ghostPositions !! i = Some g -> moved !! i = Some g' -> legalStep map g g'.
Proof.
  induction ghostPositions as [|g0 rest IH]; intros idx st st' moved Hrun i g g' Hg Hg'.
  - discriminate Hg.
  - cbn [predictAll] in Hrun. unfold mbind, M_bind, bind, ret in Hrun.
    destruct (predictStep map pacmanPos dir idx g0 st) as [[p st1]|] eqn:Hp;
      [|discriminate Hrun].
    destruct (predictAll map pacmanPos dir (S idx) rest st1) as [[rest' st2]|] eqn:Hrest;
      [|discriminate Hrun].
    injection Hrun as <- _.
    destruct i as [|i'].
    + cbn in Hg, Hg'. injection Hg as <-. injection Hg' as <-.
      apply (predictStep_legal _ _ _ _ _ _ _ _ Hp).
    + cbn in Hg, Hg'. apply (IH (S idx) st1 st2 rest' Hrest i' g g' Hg Hg').
Qed.

(** X26.  The ghosts inside the searches keep to the floor.  In the
    ghosts' turn of minimax (given a state for every ghost) and of
    expectimax (given a table for every ghost index, for each of the four
    directions of ghost 0) the simulated step succeeds, keeps the number
    of ghosts, and leaves every ghost where it was or ten pixels along
    one axis on a floor cell; the expectimax step leaves the model as it
    is. *)
Theorem simulated_ghosts_keep_to_the_floor (map : gameMap) (pacmanPos : pos)
    (ghostPositions : list pos) (ghostStates : list ghostState) (st : model)
    (dir : direction) :
  (length ghostPositions <= length ghostStates)%nat ->
  (forall i : nat, (i < length ghostPositions)%nat ->
                   is_Some (ghostObservations st !! i)) ->
  dir <> NONE ->
  (exists moved : list pos,
     chaseAll map pacmanPos 0 ghostPositions ghostStates = Some moved /\
     legalSteps map ghostPositions moved) /\
  (exists moved : list pos,
     predictAll map pacmanPos dir 0 ghostPositions st = Some (moved, st) /\
     legalSteps map ghostPositions moved).
Proof.
  intros Hlen Htbl Hdir. split.
  - destruct (chaseAll_lookup map pacmanPos ghostStates ghostPositions 0
                ltac:(simpl; lia)) as (moved & Hrun & Hlength & Heach).
    exists moved. split; [exact Hrun|]. split; [exact Hlength|].
    intros i g g' Hg Hg'. destruct (Heach i g Hg) as (s & _ & Hmoved).
    rewrite Hmoved in Hg'. injection Hg' as <-. apply chaseStep_legal.
  - destruct (predictAll_run map pacmanPos dir st Hdir ghostPositions 0)
      as (moved & Hrun & Hlength).
    { intros i Hi. apply Htbl. lia. }
    exists moved. split; [exact Hrun|]. split; [exact Hlength|].
    apply (predictAll_legal map pacmanPos dir ghostPositions 0 st st moved Hrun).
Qed.

(** Two ghosts in a corridor, the agent to their right: in minimax both
    step Right; in expectimax, for the direction Up of ghost 0, the first
    stays (a wall is above it) and the second, whose most likely
    direction on a fresh model is Up as well, stays too. *)
Lemma simulated_ghosts_keep_to_the_floor_witness :
  let map := GameMap (fun c => bool_decide (cy c = 0)) [] in
  let ghosts := [Pos 0 0; Pos 20 0] in
  let states := [GhostState false true; GhostState false true] in
  (length ghosts <= length states)%nat /\
  UP <> NONE /\
  chaseAll map (Pos 50 0) 0 ghosts states = Some [Pos 10 0; Pos 30 0] /\
  predictAll map (Pos 50 0) UP 0 ghosts initialModel = Some (ghosts, initialModel).
Proof.
  cbv zeta. set (map := GameMap _ _).
  assert (Hlen : (length [Pos 0 0; Pos 20 0]
                  <= length [GhostState false true; GhostState false true])%nat)
    by (simpl; lia).
  assert (Hdir : UP <> NONE) by discriminate.
  assert (Htbl : forall i : nat, (i < length [Pos 0 0; Pos 20 0])%nat ->
                   is_Some (ghostObservations initialModel !! i)).
  { intros i Hi. apply initialModel_known. simpl in Hi. lia. }
  split; [exact Hlen|]. split; [exact Hdir|].
  destruct (simulated_ghosts_keep_to_the_floor map (Pos 50 0) [Pos 0 0; Pos 20 0]
              [GhostState false true; GhostState false true] initialModel UP
              Hlen Htbl Hdir) as [(m1 & H1 & _) (m2 & H2 & _)].
  split.
  - rewrite H1. vm_compute in H1. injection H1 as <-. reflexivity.
  - rewrite H2. vm_compute in H2. injection H2 as <-. reflexivity.
Defined.

(** ** The game loop watching the ghosts *)

Lemma round10_sign (d : Z) :
  (0 < round10 d <-> 5 <= d) /\ (round10 d < 0 <-> d < -5).
Proof.
  unfold round10.
  pose proof (Z.div_mod (d + 5) 10 ltac:(lia)) as Hdiv.
  pose proof (Z.mod_pos_bound (d + 5) 10 ltac:(lia)) as Hmod.
  lia.
Qed.

(** X27.  What the game loop takes for a move of a ghost between two
    decisions.  A displacement of 5 pixels or more to the right counts as
    Right, but only one of more than 5 pixels to the left counts as Left
    (and likewise Down against Up), because the displacement is rounded
    half up; the horizontal displacement wins over the vertical one; a
    ghost displaced by less in both axes is taken not to have moved. *)
Theorem observed_move_thresholds (oldPos newPos : pos) :
  let dx := px newPos - px oldPos in
  let dy := py newPos - py oldPos in
  let move := Game.observedMove oldPos newPos in
  (move = RIGHT <-> 5 <= dx) /\
  (move = LEFT <-> dx < -5) /\
  (move = DOWN <-> (-5 <= dx < 5 /\ 5 <= dy)) /\
  (move = UP <-> (-5 <= dx < 5 /\ dy < -5)) /\
  (move = NONE <-> (-5 <= dx < 5 /\ -5 <= dy < 5)).
Proof.
  cbv zeta. unfold Game.observedMove.
  destruct (round10_sign (px newPos - px oldPos)) as [HxR HxL].
  destruct (round10_sign (py newPos - py oldPos)) as [HyD HyU].
  destruct (Z.ltb_spec 0 (round10 (px newPos - px oldPos)));
    [repeat split; intros; try discriminate; lia|].
  destruct (Z.ltb_spec (round10 (px newPos - px oldPos)) 0);
    [repeat split; intros; try discriminate; lia|].
  destruct (Z.ltb_spec 0 (round10 (py newPos - py oldPos)));
    [repeat split; intros; try discriminate; lia|].
  destruct (Z.ltb_spec (round10 (py newPos - py oldPos)) 0);
    repeat split; intros; try discriminate; lia.
Qed.

Lemma observeLoop_run (pacmanPos : pos) (last : list pos) :
  (length last <= 4)%nat ->
  forall (current : list pos) (i : nat) (st : model),
    knownGhosts st ->
    (i + length current <= length last)%nat ->
    exists st' : model,
      Game.observeLoop i last current pacmanPos st = Some (tt, st') /\
      knownGhosts st' /\
      totalObservations st'
      = (totalObservations st + N.of_nat (movers (drop i last) current))%N.
Proof.
  intros Hfour current. induction current as [|newPos rest IH];
    intros i st Hknown Hlen.
  - exists st. split; [reflexivity|]. split; [exact Hknown|].
    destruct (drop i last); cbn; lia.
  - cbn [length] in Hlen.
    destruct (lookup_lt_is_Some_2 last i ltac:(lia)) as [oldPos Hold].
    rewrite (drop_S _ _ _ Hold). cbn [Game.observeLoop movers].
    rewrite (run_bind _ _ st st oldPos) by (apply run_defined; exact Hold).
    cbv zeta.
    destruct (direction_eqb (Game.observedMove oldPos newPos) NONE) eqn:Hmove;
      cbn [negb].
    + rewrite (run_bind _ _ st st tt) by reflexivity.
      destruct (IH (S i) st Hknown ltac:(lia)) as (st' & Hrun & Hknown' & Htotal).
      exists st'. split; [exact Hrun|]. split; [exact Hknown'|].
      rewrite Htotal. lia.
    + apply bool_decide_eq_false in Hmove.
      destruct (Hknown i ltac:(lia)) as [tbl Htbl].
      pose proof (record_run st i oldPos pacmanPos tbl _ Hmove Htbl) as Hrec.
      cbv zeta in Hrec.
      match type of Hrec with _ = Some (tt, ?m) => set (st1 := m) in Hrec end.
      assert (Hknown1 : knownGhosts st1)
        by (apply (record_preserves_known st st1 i oldPos pacmanPos _ Hknown Hrec)).
      rewrite (run_bind _ _ st st1 tt) by exact Hrec.
      destruct (IH (S i) st1 Hknown1 ltac:(lia)) as (st' & Hrun & Hknown' & Htotal).
      exists st'. split; [exact Hrun|]. split; [exact Hknown'|].
      rewrite Htotal. subst st1. cbn [totalObservations]. lia.
Qed.

(** X28.  One round of watching the ghosts.  On a model with tables for
    the ghosts 0 to 3 and with at most four ghosts, the round succeeds and
    remembers the current positions.  When four positions were remembered
    from the round before, the total of observations grows by the number
    of ghosts seen to have moved and the tables for the ghosts 0 to 3 are
    still there; otherwise (the first round) nothing is recorded. *)
Theorem observation_round (st : model) (last current : list pos) (pacmanPos : pos) :
  knownGhosts st ->
  (length current <= 4)%nat ->
  (length last = 4%nat ->
   exists st' : model,
     Game.observeGhosts last current pacmanPos st = Some (current, st') /\
     knownGhosts st' /\
     totalObservations st'
     = (totalObservations st + N.of_nat (movers last current))%N) /\
  (length last <> 4%nat ->
   Game.observeGhosts last current pacmanPos st = Some (current, st)).
Proof.
  intros Hknown Hlen. unfold Game.observeGhosts. split.
  - intros Hfour. rewrite Hfour. cbn [Nat.eqb].
    destruct (observeLoop_run pacmanPos last ltac:(lia) current 0 st Hknown ltac:(lia))
      as (st' & Hrun & Hknown' & Htotal).
    exists st'. rewrite (run_bind _ _ st st' tt) by exact Hrun.
    split; [reflexivity|]. split; [exact Hknown'|exact Htotal].
  - intros Hother. apply Nat.eqb_neq in Hother. rewrite Hother.
    rewrite (run_bind _ _ st st tt) by reflexivity. reflexivity.
Qed.

(** Four ghosts, of which the first went 10 pixels right, the second 5
    pixels left, the third 6 pixels up and the fourth stood still: two
    observations are recorded. *)
Lemma observation_round_witness :
  let last := [Pos 0 0; Pos 50 0; Pos 0 50; Pos 90 90] in
  let current := [Pos 10 0; Pos 45 0; Pos 0 44; Pos 90 90] in
  knownGhosts initialModel /\
  (length current <= 4)%nat /\
  length last = 4%nat /\
  (fun r => totalObservations r.2)
    <$> Game.observeGhosts last current (Pos 200 200) initialModel
  = Some 2%N.
Proof.
  cbv zeta.
  set (last := [Pos 0 0; Pos 50 0; Pos 0 50; Pos 90 90]).
  set (current := [Pos 10 0; Pos 45 0; Pos 0 44; Pos 90 90]).
  assert (Hlen : (length current <= 4)%nat) by (simpl; lia).
  assert (Hfour : length last = 4%nat) by reflexivity.
  split; [exact initialModel_known|]. split; [exact Hlen|]. split; [exact Hfour|].
  destruct (observation_round initialModel last current (Pos 200 200)
              initialModel_known Hlen) as [Hsome _].
  destruct (Hsome Hfour) as (st' & Hrun & _ & Htotal).
  rewrite Hrun. cbn [fmap option_fmap option_map snd]. rewrite Htotal.
  reflexivity.
Defined.

(** ** The random controllers *)

Section RandomLoop.

Variables (draw : nat -> Q) (tr : tracker) (pacmanPos : pos)
          (lastMove : option direction).

Hypothesis draw_range : forall i : nat, (0 <= draw i)%Q /\ (draw i < 1)%Q.



End RandomLoop.



(** ** What the evaluator wants on an empty board *)

(** X30.  Without ghosts, the evaluation of a position on a plain pellet
    is exactly 80 and on a power pellet exactly 180; on any other cell it
    is 30 minus the distance to the nearest pellet, which is at most 29,
    and 0 when the map has no pellet left. *)
Theorem evaluation_without_ghosts (map : gameMap) (pacmanPos : pos) :
  let pacmanGrid := toGrid pacmanPos in
  let here := tileAt (getMap map) (cx pacmanGrid) (cy pacmanGrid) in
  exists score : Q,
    evaluateState map pacmanPos [] [] = Some score /\
    (here = Some BISCUIT -> (score == 80)%Q) /\
    (here = Some PILL -> (score == 180)%Q) /\
    (here <> Some BISCUIT -> here <> Some PILL ->
     match findNearestPellet map pacmanGrid with
     | Some nearest =>
         (score == inject_Z (30 - manhattanDistance pacmanGrid nearest))%Q /\
         0 < manhattanDistance pacmanGrid nearest
     | None => (score == 0)%Q
     end).
Proof.
  cbv zeta. set (pacmanGrid := toGrid pacmanPos).
  pose proof (scan_nearest
                (fun t => bool_decide (t = BISCUIT) || bool_decide (t = PILL))
                pacmanGrid (getMap map)) as Hscan.
  fold (findNearestPellet map pacmanGrid) in Hscan.
  unfold evaluateState. fold pacmanGrid.
  cbn [splitGhosts mbind option_bind List.map fold_left length Nat.ltb Nat.leb
       Nat.eqb andb orb].
  assert (Hself : manhattanDistance pacmanGrid pacmanGrid = 0)
    by (unfold manhattanDistance; lia).
  assert (Hon : forall t : tile,
            tileAt (getMap map) (cx pacmanGrid) (cy pacmanGrid) = Some t ->
            bool_decide (t = BISCUIT) || bool_decide (t = PILL) = true ->
            exists nearest : cell,
              findNearestPellet map pacmanGrid = Some nearest /\
              manhattanDistance pacmanGrid nearest = 0).
  { intros t Ht Hwanted.
    assert (Hholds : holds (fun t => bool_decide (t = BISCUIT) || bool_decide (t = PILL))
                       (getMap map) pacmanGrid) by (exists t; split; assumption).
    destruct (findNearestPellet map pacmanGrid) as [nearest|].
    - exists nearest. split; [reflexivity|]. destruct Hscan as [_ Hmin].
      specialize (Hmin pacmanGrid Hholds). rewrite Hself in Hmin.
      unfold manhattanDistance in Hmin |- *. lia.
    - exfalso. apply (Hscan pacmanGrid Hholds). }
  assert (Hoff : (forall t : tile,
                    tileAt (getMap map) (cx pacmanGrid) (cy pacmanGrid) = Some t ->
                    bool_decide (t = BISCUIT) || bool_decide (t = PILL) = false) ->
                 forall nearest : cell,
                   findNearestPellet map pacmanGrid = Some nearest ->
                   0 < manhattanDistance pacmanGrid nearest).
  { intros Hnot nearest Hn. rewrite Hn in Hscan.
    destruct Hscan as [(t & Ht & Hwanted) _].
    destruct (Z.eq_dec (manhattanDistance pacmanGrid nearest) 0) as [Hzero|Hpos];
      [|unfold manhattanDistance in Hpos |- *; lia].
    assert (nearest = pacmanGrid) as ->.
    { destruct nearest, pacmanGrid. unfold manhattanDistance in Hzero.
      cbn [cx cy] in Hzero. f_equal; lia. }
    rewrite (Hnot t Ht) in Hwanted. discriminate Hwanted. }
  clear Hscan.
  destruct (tileAt (getMap map) (cx pacmanGrid) (cy pacmanGrid))
    as [[| | | |]|] eqn:Hhere.
  2:{ (* on a plain pellet *)
      destruct (Hon BISCUIT eq_refl eq_refl) as (nearest & -> & Hzero).
      rewrite (bool_decide_eq_true_2 (Some BISCUIT = Some BISCUIT)) by reflexivity.
      rewrite (bool_decide_eq_false_2 (Some BISCUIT = Some PILL)) by discriminate.
      eexists. split; [reflexivity|]. rewrite Hzero.
      split; [intros _; reflexivity|]. split; [discriminate|]. congruence. }
  4:{ (* on a power pellet *)
      destruct (Hon PILL eq_refl eq_refl) as (nearest & -> & Hzero).
      rewrite (bool_decide_eq_false_2 (Some PILL = Some BISCUIT)) by discriminate.
      rewrite (bool_decide_eq_true_2 (Some PILL = Some PILL)) by reflexivity.
      eexists. split; [reflexivity|]. rewrite Hzero.
      split; [discriminate|]. split; [intros _; reflexivity|]. congruence. }
  all: rewrite !bool_decide_eq_false_2 by discriminate;
    eexists; split; [reflexivity|]; split; [discriminate|]; split; [discriminate|];
    intros _ _;
    destruct (findNearestPellet map pacmanGrid) as [nearest|]; [|reflexivity];
    split; [ring|];
    apply (Hoff ltac:(intros t Ht; try discriminate Ht; injection Ht as <-; reflexivity)
             nearest eq_refl).
Qed.

(** A corridor of three cells with a pellet at its right end: standing on
    the pellet is worth 80. *)
Lemma evaluation_without_ghosts_witness :
  let map := GameMap (fun _ => true) [[EMPTY; EMPTY; BISCUIT]] in
  tileAt (getMap map) (cx (toGrid (Pos 20 0))) (cy (toGrid (Pos 20 0))) = Some BISCUIT /\
  exists score : Q, evaluateState map (Pos 20 0) [] [] = Some score /\ (score == 80)%Q.
Proof.
  cbv zeta. set (map := GameMap _ _).
  assert (Hhere : tileAt (getMap map) (cx (toGrid (Pos 20 0))) (cy (toGrid (Pos 20 0)))
                  = Some BISCUIT) by reflexivity.
  split; [exact Hhere|].
  destruct (evaluation_without_ghosts map (Pos 20 0)) as (score & Hrun & Hplain & _).
  exists score. split; [exact Hrun|exact (Hplain Hhere)].
Defined.
